(** * greg: the sflix native adapter and the provider registry

    A shallow embedding of [internal/providers/movies/sflix] (the native
    adapter with its metadata caches and its multi-server resolution
    pipeline) and of [internal/registry/manager.go] (provider registration
    and Lua plugin discovery), together with the properties that the
    specification states about them.

    Conventions of the embedding:
    - a Go [string] is a [string] (a sequence of bytes);
    - a Go [int] is a [Z] in the 64-bit range, wrap-around written out;
    - a Go pointer is an [option] ([None] is the nil pointer);
    - a Go slice is a [slice], which keeps nil and empty apart;
    - a method that touches the network or a cache is a computation in
      the monad [M], which threads the adapter, the upstream world and a
      trace of the requests issued, and which can panic;
    - packages that are not part of this adapter (net/http, goquery,
      encoding/json, the Unicode-aware part of [strings], the extractors)
      are interfaces: type classes whose methods the adapter calls. *)

From Stdlib Require Import ZArith Ascii Lia.
From stdpp Require Import gmap strings list.

Local Open Scope Z_scope.

(** ** Go's [strings], [strconv] and [fmt] at the byte level *)

Module GoStrings.

(** [strings.HasPrefix(s, p)]. *)
Fixpoint HasPrefix (s p : string) {struct p} : bool :=
  match p, s with
  | EmptyString, _ => true
  | String _ _, EmptyString => false
  | String b p', String a s' => if Ascii.eqb a b then HasPrefix s' p' else false
  end.

(** [s[n:]] for [n <= len(s)]. *)
Fixpoint drop_bytes (n : nat) (s : string) : string :=
  match n, s with
  | O, _ => s
  | S n', String _ s' => drop_bytes n' s'
  | S _, EmptyString => EmptyString
  end.

(** [strings.TrimPrefix(s, p)]. *)
Definition TrimPrefix (s p : string) : string :=
  if HasPrefix s p then drop_bytes (String.length p) s else s.

(** [strings.Contains(s, sub)]. *)
Fixpoint Contains (s sub : string) : bool :=
  if HasPrefix s sub then true
  else match s with
       | EmptyString => false
       | String _ s' => Contains s' sub
       end.

(** [strings.Split(s, sep)] for a non-empty [sep]: the pieces between
    the non-overlapping occurrences of [sep], found left to right.
    [skip] counts the bytes of a matched separator still to pass and
    [cur] is the piece being read. *)
Fixpoint split_from (sep : string) (skip : nat) (cur s : string) : list string :=
  match s with
  | EmptyString => [cur]
  | String c s' =>
      match skip with
      | S k => split_from sep k cur s'
      | O =>
          if HasPrefix s sep
          then cur :: split_from sep (String.length sep - 1)%nat EmptyString s'
          else split_from sep 0 (cur +:+ String c EmptyString) s'
      end
  end.

Definition Split (s sep : string) : list string := split_from sep 0 EmptyString s.

(** [strings.ReplaceAll(s, old, new)] for a non-empty [old]. *)
Fixpoint replace_from (old new : string) (skip : nat) (s : string) : string :=
  match s with
  | EmptyString => EmptyString
  | String c s' =>
      match skip with
      | S k => replace_from old new k s'
      | O =>
          if HasPrefix s old
          then new +:+ replace_from old new (String.length old - 1)%nat s'
          else String c (replace_from old new 0 s')
      end
  end.

Definition ReplaceAll (s old new : string) : string := replace_from old new 0 s.

(** [strings.Replace(s, old, new, 1)] for a non-empty [old]: only the
    first occurrence is replaced. *)
Fixpoint Replace1 (s old new : string) : string :=
  if HasPrefix s old then new +:+ drop_bytes (String.length old) s
  else match s with
       | EmptyString => EmptyString
       | String c s' => String c (Replace1 s' old new)
       end.

(** [strings.TrimSuffix(s, suf)], through the reversed strings. *)
Definition TrimSuffix (s suf : string) : string :=
  String.rev (TrimPrefix (String.rev s) (String.rev suf)).

(** [strings.TrimRight(s, "/")] and [strings.TrimPrefix(s, "/")] take
    a one-byte argument in this code. *)
Fixpoint trim_left_byte (c : ascii) (s : string) : string :=
  match s with
  | String a s' => if Ascii.eqb a c then trim_left_byte c s' else s
  | EmptyString => EmptyString
  end.

Definition TrimRight_byte (s : string) (c : ascii) : string :=
  String.rev (trim_left_byte c (String.rev s)).

(** *** Integers: Go's [int] is 64 bits wide *)

Definition min_int : Z := - 2 ^ 63.
Definition max_int : Z := 2 ^ 63 - 1.

Definition int_range (n : Z) : Prop := min_int <= n <= max_int.

Definition in_int_range (n : Z) : bool := (min_int <=? n) && (n <=? max_int).

(** Two's-complement wrap-around of an [int] result. *)
Definition wrap (n : Z) : Z := (n + 2 ^ 63) mod 2 ^ 64 - 2 ^ 63.

Definition digit_char (d : Z) : ascii := ascii_of_nat (48 + Z.to_nat d)%nat.

(** The decimal digits of [n >= 0], most significant first, pushed in
    front of [acc]; [strconv] produces them right to left this way. *)
Fixpoint digits_onto (fuel : nat) (n : Z) (acc : string) : string :=
  match fuel with
  | O => acc
  | S f =>
      let acc' := String (digit_char (n mod 10)) acc in
      if n <? 10 then acc' else digits_onto f (n / 10) acc'
  end.

(** [fmt.Sprintf("%d", n)]; a 64-bit integer has at most 19 digits. *)
Definition itoa (n : Z) : string :=
  if n <? 0 then String "-"%char (digits_onto 20 (- n) EmptyString)
  else digits_onto 20 n EmptyString.

Definition digit_value (c : ascii) : option Z :=
  let v := Z.of_nat (nat_of_ascii c) - 48 in
  if (0 <=? v) && (v <=? 9) then Some v else None.

(** The value of a run of decimal digits read after [acc]; [None] at
    the first byte that is not a digit. *)
Fixpoint parse_digits (acc : Z) (s : string) : option Z :=
  match s with
  | EmptyString => Some acc
  | String c s' =>
      match digit_value c with
      | Some d => parse_digits (acc * 10 + d) s'
      | None => None
      end
  end.

(** [strconv.Atoi(s)] when it returns a nil error: an optional sign,
    at least one digit, only digits, and a value that fits an [int];
    [None] stands for the syntax and range errors. *)
Definition Atoi (s : string) : option Z :=
  let '(neg, ds) :=
    match s with
    | String "-"%char r => (true, r)
    | String "+"%char r => (false, r)
    | _ => (false, s)
    end in
  match ds with
  | EmptyString => None
  | _ =>
      match parse_digits 0 ds with
      | Some u =>
          let n := if neg then - u else u in
          if in_int_range n then Some n else None
      | None => None
      end
  end.

End GoStrings.

Export GoStrings.

(** ** Go values: errors, pointers, slices *)

(** An [error] value.  [errorString] is an error with a plain message
    ([errors.New], [fmt.Errorf] without [%w], the errors of other
    packages); [wrapError msg err] is [fmt.Errorf(msg + "%w", err)]. *)
Inductive error : Type :=
| errorString (msg : string)
| wrapError (msg : string) (err : error).

(** [err.Error()]. *)
Fixpoint Error (e : error) : string :=
  match e with
  | errorString msg => msg
  | wrapError msg err => msg +:+ Error err
  end.

(** [errors.Unwrap(err)]. *)
Definition Unwrap (e : error) : option error :=
  match e with
  | errorString _ => None
  | wrapError _ err => Some err
  end.

(** A pointer: [None] is nil. *)
Definition ptr (A : Type) : Type := option A.

(** A slice: [nil_slice] is the nil slice, [mk_slice []] the empty one. *)
Inductive slice (A : Type) : Type :=
| nil_slice
| mk_slice (l : list A).
Arguments nil_slice {A}.
Arguments mk_slice {A} l.

Definition elems {A} (s : slice A) : list A :=
  match s with
  | nil_slice => []
  | mk_slice l => l
  end.

(** [len(s)]. *)
Definition len {A} (s : slice A) : Z := Z.of_nat (length (elems s)).

(** [append(s, x)]. *)
Definition append {A} (s : slice A) (x : A) : slice A := mk_slice (elems s ++ [x]).

(** The first element of the result of [strings.Split]: with a non-empty
    separator the result has at least one element. *)
Definition index0 (parts : list string) : string :=
  match parts with
  | p :: _ => p
  | [] => ""
  end.

(** [parts[1]] under the guard [len(parts) > 1]. *)
Definition index1 (parts : list string) : option string := parts !! 1%nat.

(** ** The data model: packages [pkg/types] and [internal/providers]

    The records are those that the adapter builds and reads: only the
    fields that it reads or writes appear, and the field [Type] is
    written [Type_]. *)

Module types.

Module Episode.
Record t := mk { ID : string; Number : Z; Season : Z; Title : string; URL : string }.
End Episode.

Module MovieInfo.
Record t := mk {
  ID : string; URL : string; Title : string; Image : string;
  Description : string; Rating : string; ReleaseDate : string;
  Type_ : string; Genres : slice string; Episodes : slice Episode.t;
  LastSeason : Z; TotalEpisodesLastSeason : Z }.
End MovieInfo.

Module EpisodeServer.
Record t := mk { Name : string; URL : string }.
End EpisodeServer.

Module Source.
Record t := mk { URL : string; Quality : string; IsM3U8 : bool; Referer : string }.
End Source.

Module Subtitle.
Record t := mk { URL : string; Lang : string }.
End Subtitle.

Module VideoSources.
Record t := mk { Sources : slice Source.t; Subtitles : slice Subtitle.t }.
End VideoSources.

End types.

Module providers.

Inductive MediaType := MediaTypeMovie | MediaTypeTV | MediaTypeMovieTV | MediaTypeAnime | MediaTypeManga.

Inductive StreamType := StreamTypeHLS | StreamTypeMP4.

(** [type Quality string]. *)
Definition Quality := string.

Module Media.
Record t := mk {
  ID : string; Title : string; Type_ : MediaType; PosterURL : string;
  Year : Z; Synopsis : string; Genres : slice string }.
End Media.

Module MediaDetails.
Record t := mk { Media : Media.t }.
End MediaDetails.

Module Season.
Record t := mk { ID : string; Number : Z; Title : string }.
End Season.

Module Episode.
Record t := mk { ID : string; Number : Z; Title : string; Season : Z }.
End Episode.

Module Subtitle.
Record t := mk { Language : string; URL : string }.
End Subtitle.

Module StreamURL.
Record t := mk {
  URL : string; Quality : Quality; Type_ : StreamType; Referer : string;
  Headers : gmap string string; Subtitles : slice Subtitle.t }.
End StreamURL.

(** [context.Context], as far as a provider could look at it. *)
Record Context := { ctx_cancelled : bool }.

End providers.

(** A value of type [interface{}] as the adapter produces them: the
    dynamic type is one of the two pointer types, or the value is nil. *)
Inductive iface : Type :=
| iface_nil
| iface_MovieInfo (p : ptr types.MovieInfo.t)
| iface_VideoSources (p : ptr types.VideoSources.t).

(** ** Requests, responses and the trace *)

Module http.

Record Request := mkRequest { URL : string; Header : list (string * string) }.

(** [req.Header.Set(k, v)]. *)
Definition Header_Set (req : Request) (k v : string) : Request :=
  {| URL := URL req;
     Header := filter (fun kv => negb (String.eqb (fst kv) k)) (Header req) ++ [(k, v)] |}.

(** A response; [Body] is what reading the body to its end gives. *)
Record Response := mkResponse { StatusCode : Z; Body : error + string }.

Definition StatusOK : Z := 200.

End http.

(** What a method did that the caches do not show: the requests sent
    with [s.Client.Do], the calls of an extractor, and the entries into
    [extractSourcesFromServer]. *)
Inductive Event : Type :=
| EvDo (req : http.Request)
| EvExtract (name embedURL : string)
| EvExtractFrom (server : types.EpisodeServer.t).

(** ** The packages the adapter calls *)

(** [net/http]: building a request can fail; sending one changes the
    world and gives an error or a response. *)
Class NetHTTP (W : Type) := {
  NewRequest_err : string -> option error;
  Client_Do : http.Request -> W -> (error + http.Response) * W
}.

(** [pkg/extractors], a package outside this development:
    [GetExtractor(name).Extract(embedURL)], which returns a pointer and
    an error; nothing is assumed about what it returns. *)
Class Extractors (W : Type) := {
  GetExtractor_Extract :
    string -> string -> W -> (ptr types.VideoSources.t * option error) * W
}.

(** [goquery]: a selection, the parser, and the queries used. [Each]
    lists the matched nodes in document order, each as a selection. *)
Class Goquery := {
  Selection : Type;
  NewDocumentFromReader : string -> error + Selection;
  Find : Selection -> string -> Selection;
  Text : Selection -> string;
  Attr : Selection -> string -> option string;
  Each : Selection -> list Selection
}.

(** [encoding/json] for the one shape decoded, [{"link": ...}], and the
    functions of [strings] that depend on Unicode tables. *)
Class GoText := {
  Unmarshal_link : string -> error + string;
  EqualFold : string -> string -> bool;
  TrimSpace : string -> string;
  ToLower : string -> string
}.

(** [internal/providers]: the constant [QualityAuto], whose value is
    left open. *)
Class ProvidersPkg := { QualityAuto : providers.Quality }.

(** ** The adapter state and the monad of its methods *)

(** [type SFlix struct]: the two [sync.Map] caches hold what the two
    [Store] calls of the package put there, search results under the
    query and movie infos under the id. [Client] is the [NetHTTP]
    interface. *)
Record SFlix := mkSFlix {
  BaseURL : string;
  searchCache : gmap string (slice providers.Media.t);
  infoCache : gmap string types.MovieInfo.t
}.

Record State (W : Type) := mkState {
  self : SFlix;
  world : W;
  trace : list Event
}.
Arguments mkState {W} self world trace.
Arguments self {W} _.
Arguments world {W} _.
Arguments trace {W} _.

(** How a call ends: it returns, or it panics. *)
Inductive outcome (A : Type) : Type :=
| Returned (a : A)
| Panicked (msg : string).
Arguments Returned {A} a.
Arguments Panicked {A} msg.

Definition M (W A : Type) : Type := State W -> outcome A * State W.

Definition ret {W A} (a : A) : M W A := fun st => (Returned a, st).

Definition bind {W A B} (m : M W A) (k : A -> M W B) : M W B :=
  fun st =>
    match m st with
    | (Returned a, st') => k a st'
    | (Panicked msg, st') => (Panicked msg, st')
    end.

Definition panic {W A} (msg : string) : M W A := fun st => (Panicked msg, st).

Notation "'let*' x ':=' m 'in' k" := (bind m (fun x => k))
  (at level 10, x name, m at level 200, k at level 200, only parsing).
Notation "'let*' ' pat ':=' m 'in' k" := (bind m (fun x => match x with pat => k end))
  (at level 10, pat pattern, m at level 200, k at level 200, only parsing).

(** [for _, x := range xs { body }] with the loop variables in [acc]. *)
Fixpoint for_range {W A B} (xs : list A) (body : B -> A -> M W B) (acc : B) : M W B :=
  match xs with
  | [] => ret acc
  | x :: xs' => let* acc' := body acc x in for_range xs' body acc'
  end.

(** The elements of a list with their indices, as [Each] passes them. *)
Definition indexed {A} (l : list A) : list (Z * A) :=
  zip (Z.of_nat <$> seq 0 (length l)) l.

Section Primitives.
Context {W : Type} `{!NetHTTP W, !Extractors W}.

Definition get_BaseURL : M W string := fun st => (Returned (BaseURL (self st)), st).

Definition log (ev : Event) : M W unit :=
  fun st => (Returned tt, mkState (self st) (world st) (trace st ++ [ev])).

(** [s.Client.Do(req)]. *)
Definition Do (req : http.Request) : M W (error + http.Response) :=
  fun st =>
    let '(r, w') := Client_Do req (world st) in
    (Returned r, mkState (self st) w' (trace st ++ [EvDo req])).

(** [extractors.GetExtractor(name).Extract(embedURL)]. *)
Definition Extract (name embedURL : string)
  : M W (ptr types.VideoSources.t * option error) :=
  fun st =>
    let '(r, w') := GetExtractor_Extract name embedURL (world st) in
    (Returned r, mkState (self st) w' (trace st ++ [EvExtract name embedURL])).

(** [s.searchCache.Load(query)] and [s.searchCache.Store(query, v)]. *)
Definition searchCache_Load (query : string) : M W (option (slice providers.Media.t)) :=
  fun st => (Returned (searchCache (self st) !! query), st).

Definition searchCache_Store (query : string) (v : slice providers.Media.t) : M W unit :=
  fun st =>
    (Returned tt,
     mkState (mkSFlix (BaseURL (self st)) (<[query := v]> (searchCache (self st)))
                      (infoCache (self st)))
             (world st) (trace st)).

(** [s.infoCache.Load(id)] and [s.infoCache.Store(id, info)]. *)
Definition infoCache_Load (id : string) : M W (option types.MovieInfo.t) :=
  fun st => (Returned (infoCache (self st) !! id), st).

Definition infoCache_Store (id : string) (info : types.MovieInfo.t) : M W unit :=
  fun st =>
    (Returned tt,
     mkState (mkSFlix (BaseURL (self st)) (searchCache (self st))
                      (<[id := info]> (infoCache (self st))))
             (world st) (trace st)).

(** [http.NewRequest("GET", url, nil)]. *)
Definition NewRequest (url : string) : error + http.Request :=
  match NewRequest_err url with
  | Some err => inl err
  | None => inr (http.mkRequest url [])
  end.

Definition UserAgent : string :=
  "Mozilla/5.0 (Windows NT 10.0; Win64; x64) AppleWebKit/537.36".

(** The two headers every request of the adapter carries, and the
    third one of the [ajax] requests. *)
Definition browser_headers (base : string) (req : http.Request) : http.Request :=
  http.Header_Set (http.Header_Set req "User-Agent" UserAgent) "Referer" base.

Definition ajax_headers (base : string) (req : http.Request) : http.Request :=
  http.Header_Set (browser_headers base req) "X-Requested-With" "XMLHttpRequest".

End Primitives.

(** ** Package [sflix] *)

Module sflix.
Section Adapter.
Context {W : Type} `{!NetHTTP W, !Extractors W, !Goquery, !GoText, !ProvidersPkg}.

Import types.

(** [New()]. *)
Definition New : SFlix := mkSFlix "https://sflix.ps" ∅ ∅.

Definition Name : string := "sflix".

Definition Type_ : providers.MediaType := providers.MediaTypeMovieTV.

(** [goquery.NewDocumentFromReader(resp.Body)]: reading the body can
    fail, and so can the parser. *)
Definition document_of (body : error + string) : error + Selection :=
  match body with
  | inl err => inl err
  | inr text => NewDocumentFromReader text
  end.

(** *** [fetchEpisodeList] *)

(** The callback of [epDoc.Find(".eps-item").Each]. *)
Definition fetchEpisodeList_episode (seasonNumber : Z)
    (episodes : slice Episode.t) (item : Z * Selection) : slice Episode.t :=
  let '(epIdx, epSel) := item in
  match Attr epSel "data-id" with
  | None => episodes
  | Some epID =>
      let epNumber := wrap (epIdx + 1) in
      let epNumberText := Text (Find epSel ".episode-number") in
      let epNumberText := TrimSpace (TrimPrefix epNumberText "Episode ") in
      let epNumberText := TrimSuffix epNumberText ":" in
      let epNumber :=
        match Atoi epNumberText with
        | Some parsedNum => parsedNum
        | None => epNumber
        end in
      let epTitle := TrimSpace (Text (Find epSel ".film-name a")) in
      append episodes (Episode.mk epID epNumber seasonNumber epTitle "")
  end.

(** The season number of a [.ss-item] node: its position, unless its
    text reads [Season n]. *)
Definition fetchEpisodeList_seasonNumber (seasonIdx : Z) (seasonSel : Selection) : Z :=
  let seasonNumber := wrap (seasonIdx + 1) in
  let seasonText := TrimSpace (Text seasonSel) in
  if Contains seasonText "Season " then
    match index1 (Split seasonText "Season ") with
    | Some p1 =>
        match Atoi (TrimSpace p1) with
        | Some num => num
        | None => seasonNumber
        end
    | None => seasonNumber
    end
  else seasonNumber.

(** The callback of [seasonDoc.Find(".ss-item").Each]: every failure
    skips the season. *)
Definition fetchEpisodeList_season (base : string)
    (episodes : slice Episode.t) (item : Z * Selection) : M W (slice Episode.t) :=
  let '(seasonIdx, seasonSel) := item in
  match Attr seasonSel "data-id" with
  | None => ret episodes
  | Some seasonID =>
      let seasonNumber := fetchEpisodeList_seasonNumber seasonIdx seasonSel in
      let episodeURL := base +:+ "/ajax/season/episodes/" +:+ seasonID in
      match NewRequest episodeURL with
      | inl _ => ret episodes
      | inr epReq =>
          let* r := Do (ajax_headers base epReq) in
          match r with
          | inl _ => ret episodes
          | inr epResp =>
              match http.Body epResp with
              | inl _ => ret episodes
              | inr epBody =>
                  match NewDocumentFromReader epBody with
                  | inl _ => ret episodes
                  | inr epDoc =>
                      ret (fold_left (fetchEpisodeList_episode seasonNumber)
                             (indexed (Each (Find epDoc ".eps-item"))) episodes)
                  end
              end
          end
      end
  end.

Definition fetchEpisodeList (showID : string) : M W (slice Episode.t * option error) :=
  let* base := get_BaseURL in
  let seasonURL := base +:+ "/ajax/season/list/" +:+ showID in
  match NewRequest seasonURL with
  | inl err => ret (nil_slice, Some (wrapError "failed to create season list request: " err))
  | inr req =>
      let* r := Do (ajax_headers base req) in
      match r with
      | inl err => ret (nil_slice, Some (wrapError "failed to fetch season list: " err))
      | inr resp =>
          match http.Body resp with
          | inl err =>
              ret (nil_slice, Some (wrapError "failed to read season list response: " err))
          | inr seasonBody =>
              match NewDocumentFromReader seasonBody with
              | inl err => ret (nil_slice, Some (wrapError "failed to parse season HTML: " err))
              | inr seasonDoc =>
                  let* episodes :=
                    for_range (indexed (Each (Find seasonDoc ".ss-item")))
                      (fetchEpisodeList_season base) (mk_slice []) in
                  ret (episodes, None)
              end
          end
      end
  end.

(** *** [GetInfo] *)

(** The two loops over [div.elements .row-line]. *)
Definition GetInfo_releaseDate (doc : Selection) : string :=
  fold_left
    (fun releaseDate sel =>
       let text := Text sel in
       if Contains text "Released:" then
         match index1 (Split text "Released:") with
         | Some p1 => TrimSpace p1
         | None => releaseDate
         end
       else releaseDate)
    (Each (Find doc "div.elements .row-line")) "".

Definition GetInfo_genres (doc : Selection) : slice string :=
  fold_left
    (fun genres sel =>
       let text := Text sel in
       if Contains text "Genre:" then
         fold_left
           (fun genres genreSel =>
              let genre := TrimSpace (Text genreSel) in
              if negb (String.eqb genre "") && negb (Contains (ToLower genre) "http")
              then append genres genre else genres)
           (Each (Find sel "a")) genres
       else genres)
    (Each (Find doc "div.elements .row-line")) (mk_slice []).

(** The last season and the number of its episodes. *)
Definition GetInfo_lastSeason (episodes : list Episode.t) : Z * Z :=
  fold_left
    (fun '(lastSeason, episodeCountInLastSeason) ep =>
       if lastSeason <? Episode.Season ep then (Episode.Season ep, 1)
       else if Episode.Season ep =? lastSeason
            then (lastSeason, wrap (episodeCountInLastSeason + 1))
            else (lastSeason, episodeCountInLastSeason))
    episodes (0, 0).

(** The end of [GetInfo]: the episodes of the info, with the last
    season and the number of its episodes.  A movie is one episode that
    keeps the media id in its [URL]; a show has the episodes of
    [fetchEpisodeList], unless that failed or found none. *)
Definition GetInfo_episodes (mediaType dataID title cleanMediaID : string)
  : M W (slice Episode.t * Z * Z) :=
  if String.eqb mediaType "movie" && negb (String.eqb dataID "") then
    ret (mk_slice [Episode.mk dataID 1 0 title cleanMediaID], 0, 0)
  else if String.eqb mediaType "tv" && negb (String.eqb dataID "") then
    let* '(episodes, err) := fetchEpisodeList dataID in
    match err with
    | None =>
        if 0 <? len episodes then
          (* Add mediaID to each episode *)
          let episodes :=
            map (fun ep =>
                   Episode.mk (Episode.ID ep) (Episode.Number ep)
                     (Episode.Season ep) (Episode.Title ep) cleanMediaID)
                (elems episodes) in
          let '(lastSeason, total) := GetInfo_lastSeason episodes in
          ret (mk_slice episodes, lastSeason, total)
        else ret (mk_slice [], 0, 0)
    | Some _ => ret (mk_slice [], 0, 0)
    end
  else ret (mk_slice [], 0, 0).

(** The second half of [GetInfo], from the parsed page on: the fields
    of the info are read off the page, the info is stored under [id]
    and returned. *)
Definition GetInfo_scrape (id mediaType infoURL : string) (doc : Selection)
  : M W (iface * option error) :=
  (* Extract clean media ID (e.g., "movie/watch-inception-19764") *)
  let cleanMediaID :=
    if negb (Contains id "/") then mediaType +:+ "/" +:+ id else id in
  let title := TrimSpace (Text (Find doc "h2.heading-name")) in
  let image :=
    match Attr (Find doc "img.film-poster-img") "src" with
    | Some img => img
    | None => ""
    end in
  let description := TrimSpace (Text (Find doc "div.description")) in
  let ratingText := TrimSpace (Text (Find doc "span.imdb")) in
  let rating :=
    if negb (String.eqb ratingText "")
    then TrimSpace (TrimPrefix ratingText "IMDB:") else "" in
  let releaseDate := GetInfo_releaseDate doc in
  let genres := GetInfo_genres doc in
  (* Extract data-id for fetching episodes *)
  let dataID :=
    match Attr (Find doc ".detail_page-watch") "data-id" with
    | Some v => v
    | None =>
        match Attr (Find doc "#watch") "data-id" with
        | Some v => v
        | None => ""
        end
    end in
  let* '(episodes, lastSeason, total) :=
    GetInfo_episodes mediaType dataID title cleanMediaID in
  let info :=
    MovieInfo.mk cleanMediaID infoURL title image description rating
      releaseDate mediaType genres episodes lastSeason total in
  let* _ := infoCache_Store id info in
  ret (iface_MovieInfo (Some info), None).

(** The URL tried first and the media type that goes with it. *)
Definition GetInfo_first_URL (base id : string) : string * string :=
  if HasPrefix id "movie/" then ("movie", base +:+ "/" +:+ id)
  else if HasPrefix id "tv/" then ("tv", base +:+ "/" +:+ id)
  else
    (* Try movie URL first *)
    ("movie", base +:+ "/movie/" +:+ id).

Definition GetInfo (id : string) : M W (iface * option error) :=
  let* cached := infoCache_Load id in
  match cached with
  | Some info => ret (iface_MovieInfo (Some info), None)
  | None =>
      let* base := get_BaseURL in
      (* Determine media type from id *)
      let '(mediaType, infoURL) := GetInfo_first_URL base id in
      match NewRequest infoURL with
      | inl err => ret (iface_nil, Some (wrapError "failed to create request: " err))
      | inr req =>
          let* r := Do (browser_headers base req) in
          (* if err != nil || resp.StatusCode != http.StatusOK:
             try TV show URL if movie fails *)
          let tv_attempt : M W (error + http.Response * string * string) :=
            let infoURL := base +:+ "/tv/" +:+ id in
            match NewRequest infoURL with
            | inl err => ret (inl (wrapError "failed to create request: " err))
            | inr req =>
                let* r := Do (browser_headers base req) in
                match r with
                | inl err => ret (inl (wrapError "failed to fetch info: " err))
                | inr resp => ret (inr (resp, "tv", infoURL))
                end
            end in
          let* fetched :=
            match r with
            | inl _ => tv_attempt
            | inr resp =>
                if http.StatusCode resp =? http.StatusOK
                then ret (inr (resp, mediaType, infoURL))
                else tv_attempt
            end in
          match fetched with
          | inl err => ret (iface_nil, Some err)
          | inr (resp, mediaType, infoURL) =>
              match document_of (http.Body resp) with
              | inl err => ret (iface_nil, Some (wrapError "failed to parse HTML: " err))
              | inr doc => GetInfo_scrape id mediaType infoURL doc
              end
          end
      end
  end.

(** *** [Search] *)

(** The callback of [sel.Find(".fdi-item").Each]: the last item that
    reads as a four-byte integer is the year. *)
Definition Search_year (sel : Selection) : Z :=
  fold_left
    (fun year s =>
       let text := TrimSpace (Text s) in
       match Atoi text with
       | Some y => if Z.of_nat (String.length text) =? 4 then y else year
       | None => year
       end)
    (Each (Find sel ".fdi-item")) 0.

(** The callback of [doc.Find("div.flw-item").Each]. *)
Definition Search_item (results : slice providers.Media.t) (sel : Selection)
  : slice providers.Media.t :=
  let title := Text (Find sel "h2.film-name a") in
  let href := default "" (Attr (Find sel "h2.film-name a") "href") in
  let image := default "" (Attr (Find sel "img") "data-src") in
  let year := Search_year sel in
  if negb (String.eqb href "") then
    let parts := Split (TrimPrefix href "/") "/" in
    let '(id, mediaType) :=
      match parts with
      | p0 :: p1 :: _ =>
          (p0 +:+ "/" +:+ p1,
           if String.eqb p0 "tv" then providers.MediaTypeTV else providers.MediaTypeMovie)
      | [p0] => (p0, providers.MediaTypeMovie)
      | [] => ("", providers.MediaTypeMovie)
      end in
    append results
      (providers.Media.mk id (TrimSpace title) mediaType image year "" nil_slice)
  else results.

Definition Search (ctx : providers.Context) (query : string)
  : M W (slice providers.Media.t * option error) :=
  let* cached := searchCache_Load query in
  match cached with
  | Some results => ret (results, None)
  | None =>
      let* base := get_BaseURL in
      (* Sflix uses dashes instead of spaces in search URLs *)
      let searchQuery := ReplaceAll query " " "-" in
      let searchURL := base +:+ "/search/" +:+ searchQuery in
      match NewRequest searchURL with
      | inl err => ret (nil_slice, Some (wrapError "failed to create request: " err))
      | inr req =>
          let* r := Do (browser_headers base req) in
          match r with
          | inl err => ret (nil_slice, Some (wrapError "failed to fetch search results: " err))
          | inr resp =>
              match document_of (http.Body resp) with
              | inl err => ret (nil_slice, Some (wrapError "failed to parse HTML: " err))
              | inr doc =>
                  let results :=
                    fold_left Search_item (Each (Find doc "div.flw-item")) nil_slice in
                  let* _ := searchCache_Store query results in
                  ret (results, None)
              end
          end
      end
  end.

(** *** [GetMediaDetails], [GetSeasons], [GetEpisodes] *)

Definition nil_dereference : string :=
  "runtime error: invalid memory address or nil pointer dereference".

Definition GetMediaDetails (ctx : providers.Context) (id : string)
  : M W (ptr providers.MediaDetails.t * option error) :=
  let* '(info, err) := GetInfo id in
  match err with
  | Some err => ret (None, Some err)
  | None =>
      match info with
      | iface_MovieInfo (Some movieInfo) =>
          let mediaType :=
            if String.eqb (MovieInfo.Type_ movieInfo) "tv"
            then providers.MediaTypeTV else providers.MediaTypeMovie in
          ret (Some (providers.MediaDetails.mk
                       (providers.Media.mk id (MovieInfo.Title movieInfo) mediaType
                          (MovieInfo.Image movieInfo) 0
                          (MovieInfo.Description movieInfo)
                          (MovieInfo.Genres movieInfo))),
               None)
      | iface_MovieInfo None => panic nil_dereference
      | _ => ret (None, Some (errorString "invalid info type"))
      end
  end.

(** [if seasons[i].Number > seasons[j].Number { swap }]. *)
Definition GetSeasons_swap (i j : nat) (seasons : list providers.Season.t)
  : list providers.Season.t :=
  match seasons !! i, seasons !! j with
  | Some a, Some b =>
      if providers.Season.Number b <? providers.Season.Number a
      then <[j := a]> (<[i := b]> seasons)
      else seasons
  | _, _ => seasons
  end.

(** The two nested loops that sort the seasons by number. *)
Definition GetSeasons_sort (seasons : list providers.Season.t)
  : list providers.Season.t :=
  let n := length seasons in
  fold_left
    (fun seasons i =>
       fold_left (fun seasons j => GetSeasons_swap i j seasons)
                 (seq (S i) (n - S i)) seasons)
    (seq 0 n) seasons.

(** The season id [fmt.Sprintf("%s|%d", mediaID, sNum)]. *)
Definition season_id (mediaID : string) (sNum : Z) : string :=
  mediaID +:+ "|" +:+ itoa sNum.

(** The body of the loop over the episodes: one season per number not
    seen yet, season 0 counting as season 1. *)
Definition GetSeasons_step (mediaID : string)
    (acc : gmap Z bool * slice providers.Season.t) (ep : Episode.t)
  : gmap Z bool * slice providers.Season.t :=
  let '(seasonsMap, seasons) := acc in
  let sNum := if Episode.Season ep =? 0 then 1 else Episode.Season ep in
  if negb (default false (seasonsMap !! sNum)) then
    (<[sNum := true]> seasonsMap,
     append seasons
       (providers.Season.mk (season_id mediaID sNum) sNum ("Season " +:+ itoa sNum)))
  else (seasonsMap, seasons).

Definition GetSeasons_collect (mediaID : string) (episodes : list Episode.t)
  : gmap Z bool * slice providers.Season.t :=
  fold_left (GetSeasons_step mediaID) episodes (∅, nil_slice).

Definition GetSeasons (ctx : providers.Context) (mediaID : string)
  : M W (slice providers.Season.t * option error) :=
  let* '(info, err) := GetInfo mediaID in
  match err with
  | Some err => ret (nil_slice, Some err)
  | None =>
      match info with
      | iface_MovieInfo (Some movieInfo) =>
          if len (MovieInfo.Episodes movieInfo) =? 0 then
            ret (mk_slice [providers.Season.mk mediaID 1 "Season 1"], None)
          else
            let '(_, seasons) :=
              GetSeasons_collect mediaID (elems (MovieInfo.Episodes movieInfo)) in
            let seasons :=
              match seasons with
              | nil_slice => nil_slice
              | mk_slice l => mk_slice (GetSeasons_sort l)
              end in
            ret (seasons, None)
      | iface_MovieInfo None => panic nil_dereference
      | _ => ret (nil_slice, Some (errorString "invalid info type"))
      end
  end.

(** The first lines of [GetEpisodes]: the media id and the season
    number that a season id stands for. *)
Definition GetEpisodes_target (seasonID : string) : string * Z :=
  if Contains seasonID "|" then
    let parts := Split seasonID "|" in
    let mediaID := index0 parts in
    let seasonNum :=
      match index1 parts with
      | Some p1 =>
          match Atoi p1 with
          | Some n => n
          | None => 1
          end
      | None => 1
      end in
    (mediaID, seasonNum)
  else (seasonID, 1).

(** The loop of [GetEpisodes] over the episodes of the info. *)
Definition GetEpisodes_collect (seasonNum : Z) (episodes : list Episode.t)
  : slice providers.Episode.t :=
  fold_left
    (fun acc ep =>
       let epSeason := if Episode.Season ep =? 0 then 1 else Episode.Season ep in
       if epSeason =? seasonNum then
         let id :=
           if negb (String.eqb (Episode.URL ep) "")
              && negb (String.eqb (Episode.URL ep) (Episode.ID ep))
           then Episode.ID ep +:+ "|" +:+ Episode.URL ep
           else Episode.ID ep in
         append acc (providers.Episode.mk id (Episode.Number ep) (Episode.Title ep) epSeason)
       else acc)
    episodes nil_slice.

(** [GetEpisodes] once the season id is decoded. *)
Definition GetEpisodes_of (mediaID : string) (seasonNum : Z)
  : M W (slice providers.Episode.t * option error) :=
  let* '(info, err) := GetInfo mediaID in
  match err with
  | Some err => ret (nil_slice, Some err)
  | None =>
      match info with
      | iface_MovieInfo (Some movieInfo) =>
          let episodes :=
            GetEpisodes_collect seasonNum (elems (MovieInfo.Episodes movieInfo)) in
          let episodes :=
            if (len (MovieInfo.Episodes movieInfo) =? 0) && (seasonNum =? 1) then
              append episodes
                (providers.Episode.mk (MovieInfo.ID movieInfo) 1
                   (MovieInfo.Title movieInfo) 1)
            else episodes in
          ret (episodes, None)
      | iface_MovieInfo None => panic nil_dereference
      | _ => ret (nil_slice, Some (errorString "invalid info type"))
      end
  end.

Definition GetEpisodes (ctx : providers.Context) (seasonID : string)
  : M W (slice providers.Episode.t * option error) :=
  let '(mediaID, seasonNum) := GetEpisodes_target seasonID in
  GetEpisodes_of mediaID seasonNum.

(** *** Server discovery *)

(** [servers[len(servers)-1].URL = url]. *)
Definition set_last_URL (servers : slice EpisodeServer.t) (url : string)
  : slice EpisodeServer.t :=
  match servers with
  | nil_slice => nil_slice
  | mk_slice l =>
      mk_slice (alter (fun srv => EpisodeServer.mk (EpisodeServer.Name srv) url)
                      (length l - 1)%nat l)
  end.

(** The callback of [doc.Find(".ulclear > li").Each]. *)
Definition FetchEpisodeServers_item (base mediaID : string) (isMovie : bool)
    (servers : slice EpisodeServer.t) (sel : Selection) : slice EpisodeServer.t :=
  match Attr (Find sel "a") "data-id" with
  | None => servers
  | Some dataID =>
      (* Server name is in <span> tag *)
      let serverName := TrimSpace (Text (Find sel "a span")) in
      if String.eqb serverName "" then servers
      else
        let '(urlPattern, replacement) :=
          if isMovie then ("/movie/", "/watch-movie/") else ("/tv/", "/watch-tv/") in
        let serverURL := base +:+ "/" +:+ mediaID +:+ "." +:+ dataID in
        let serverURL := Replace1 serverURL urlPattern replacement in
        let servers := append servers (EpisodeServer.mk (ToLower serverName) serverURL) in
        (* Store dataID in URL field for extraction *)
        set_last_URL servers dataID
  end.

Definition FetchEpisodeServersWithMediaID (episodeID mediaID : string)
  : M W (slice EpisodeServer.t * option error) :=
  let* base := get_BaseURL in
  let isMovie := Contains mediaID "movie" in
  let endpoint :=
    if isMovie then base +:+ "/ajax/episode/list/" +:+ episodeID
    else base +:+ "/ajax/episode/servers/" +:+ episodeID in
  match NewRequest endpoint with
  | inl err => ret (nil_slice, Some (wrapError "failed to create servers request: " err))
  | inr req =>
      let* r := Do (ajax_headers base req) in
      match r with
      | inl err => ret (nil_slice, Some (wrapError "failed to fetch servers: " err))
      | inr resp =>
          match http.Body resp with
          | inl err => ret (nil_slice, Some (wrapError "failed to read servers response: " err))
          | inr body =>
              match NewDocumentFromReader body with
              | inl err => ret (nil_slice, Some (wrapError "failed to parse servers HTML: " err))
              | inr doc =>
                  ret (fold_left (FetchEpisodeServers_item base mediaID isMovie)
                         (Each (Find doc ".ulclear > li")) (mk_slice []),
                       None)
              end
          end
      end
  end.

(** An episode id of the form [id|mediaID] carries the media id. *)
Definition split_episodeID (episodeID : string) : string * string :=
  match Split episodeID "|" with
  | [p0; p1] => (p0, p1)
  | _ => (episodeID, "")
  end.

Definition GetServers (episodeID : string) : M W (slice EpisodeServer.t * option error) :=
  let '(actualEpisodeID, mediaID) := split_episodeID episodeID in
  FetchEpisodeServersWithMediaID actualEpisodeID mediaID.

(** *** The resolution pipeline *)

Definition extractSourcesFromServer (server : EpisodeServer.t)
  : M W (ptr VideoSources.t * option error) :=
  let* _ := log (EvExtractFrom server) in
  let* base := get_BaseURL in
  (* The server.URL now contains just the dataID (server ID) *)
  let serverID := EpisodeServer.URL server in
  let sourcesURL := base +:+ "/ajax/episode/sources/" +:+ serverID in
  match NewRequest sourcesURL with
  | inl err => ret (None, Some (wrapError "failed to create sources request: " err))
  | inr req =>
      let* r := Do (ajax_headers base req) in
      match r with
      | inl err => ret (None, Some (wrapError "failed to fetch embed URL: " err))
      | inr resp =>
          match http.Body resp with
          | inl err => ret (None, Some (wrapError "failed to read sources response: " err))
          | inr body =>
              match Unmarshal_link body with
              | inl err => ret (None, Some (wrapError "failed to parse sources JSON: " err))
              | inr link =>
                  if String.eqb link "" then
                    ret (None, Some (errorString "no embed link found in response"))
                  else
                    let embedURL := link in
                    let* '(extracted, err) := Extract (EpisodeServer.Name server) embedURL in
                    match err with
                    | Some err =>
                        ret (None,
                             Some (wrapError
                                     ("failed to extract from embed URL " +:+ embedURL +:+ ": ")
                                     err))
                    | None => ret (extracted, None)
                    end
              end
          end
      end
  end.

Definition empty_VideoSources : VideoSources.t :=
  VideoSources.mk (mk_slice []) (mk_slice []).

(** [for _, server := range servers] with the statements that follow
    the loop: [lastErr] is the loop variable, and a server with at
    least one source returns from inside the loop. *)
Fixpoint try_servers (servers : list EpisodeServer.t) (lastErr : option error)
  : M W (ptr VideoSources.t * option error) :=
  match servers with
  | server :: servers' =>
      let* '(sources, err) := extractSourcesFromServer server in
      match err with
      | Some err => try_servers servers' (Some err)
      | None =>
          match sources with
          | None => panic nil_dereference
          | Some v =>
              if 0 <? len (VideoSources.Sources v)
              then ret (Some v, None)
              else try_servers servers' lastErr
          end
      end
  | [] =>
      (* If all servers failed, return the last error *)
      match lastErr with
      | Some lastErr =>
          ret (None, Some (wrapError "failed to extract sources from all servers: " lastErr))
      | None => ret (Some empty_VideoSources, None)
      end
  end.

Definition FetchEpisodeSourcesWithMediaID (episodeID mediaID : string)
  : M W (ptr VideoSources.t * option error) :=
  (* Get available servers with mediaID *)
  let* '(servers, err) := FetchEpisodeServersWithMediaID episodeID mediaID in
  match err with
  | Some err => ret (None, Some (wrapError "failed to fetch servers: " err))
  | None =>
      if len servers =? 0 then ret (Some empty_VideoSources, None)
      else try_servers (elems servers) None
  end.

Definition GetSources (episodeID : string) : M W (iface * option error) :=
  let '(actualEpisodeID, mediaID) := split_episodeID episodeID in
  let* '(sources, err) := FetchEpisodeSourcesWithMediaID actualEpisodeID mediaID in
  ret (iface_VideoSources sources, err).

(** *** [GetStreamURL] and the remaining methods *)

(** [for _, src := range v.Sources] with its [break]: the first source
    whose quality folds to the target. *)
Fixpoint select_source (sources : list Source.t) (targetQuality : string)
  : option Source.t :=
  match sources with
  | [] => None
  | src :: sources' =>
      if EqualFold (Source.Quality src) targetQuality then Some src
      else select_source sources' targetQuality
  end.

Definition stream_of (selectedSource : Source.t) (subtitles : slice Subtitle.t)
  : providers.StreamURL.t :=
  let streamType :=
    if negb (Source.IsM3U8 selectedSource)
    then providers.StreamTypeMP4 else providers.StreamTypeHLS in
  providers.StreamURL.mk
    (Source.URL selectedSource) (Source.Quality selectedSource) streamType
    (Source.Referer selectedSource)
    {[ "Referer" := Source.Referer selectedSource ]}
    (fold_left
       (fun subs sub =>
          append subs (providers.Subtitle.mk (Subtitle.Lang sub) (Subtitle.URL sub)))
       (elems subtitles) nil_slice).

Definition GetStreamURL (ctx : providers.Context) (episodeID : string)
    (quality : providers.Quality) : M W (ptr providers.StreamURL.t * option error) :=
  let* '(res, err) := GetSources episodeID in
  match err with
  | Some err => ret (None, Some err)
  | None =>
      match res with
      | iface_VideoSources (Some v) =>
          match elems (VideoSources.Sources v) with
          | [] => ret (None, Some (errorString "no sources found"))
          | first :: _ =>
              let targetQuality :=
                if String.eqb quality QualityAuto then "auto" else quality in
              let selectedSource :=
                match select_source (elems (VideoSources.Sources v)) targetQuality with
                | Some src => src
                | None => first
                end in
              ret (Some (stream_of selectedSource (VideoSources.Subtitles v)), None)
          end
      | iface_VideoSources None => panic nil_dereference
      | _ => ret (None, Some (errorString "invalid source type"))
      end
  end.

Definition GetAvailableQualities (ctx : providers.Context) (episodeID : string)
  : M W (slice providers.Quality * option error) :=
  let* '(res, err) := GetSources episodeID in
  match err with
  | Some err => ret (nil_slice, Some err)
  | None =>
      match res with
      | iface_VideoSources (Some v) =>
          ret (fold_left (fun qualities src => append qualities (Source.Quality src))
                 (elems (VideoSources.Sources v)) nil_slice,
               None)
      | iface_VideoSources None => panic nil_dereference
      | _ => ret (nil_slice, None)
      end
  end.

Definition GetTrending (ctx : providers.Context)
  : M W (slice providers.Media.t * option error) :=
  ret (nil_slice, Some (errorString "not implemented")).

Definition GetRecent (ctx : providers.Context)
  : M W (slice providers.Media.t * option error) :=
  ret (nil_slice, Some (errorString "not implemented")).

Definition HealthCheck (ctx : providers.Context) : M W (option error) :=
  ret None.

Definition GetMovieEpisodeID (ctx : providers.Context) (mediaID : string)
  : M W (string * option error) :=
  let* '(info, err) := GetInfo mediaID in
  match err with
  | Some err => ret ("", Some err)
  | None =>
      match info with
      | iface_MovieInfo (Some movieInfo) =>
          match elems (MovieInfo.Episodes movieInfo) with
          | ep :: _ =>
              if negb (String.eqb (Episode.URL ep) "")
              then ret (Episode.ID ep +:+ "|" +:+ Episode.URL ep, None)
              else ret (Episode.ID ep, None)
          | [] => ret ("", Some (errorString ("no episodes found for movie " +:+ mediaID)))
          end
      | iface_MovieInfo None => panic nil_dereference
      | _ => ret ("", Some (errorString "invalid info type"))
      end
  end.

End Adapter.
End sflix.

(** ** Package [config]: the settings the registry reads *)

Module config.

Record ProviderSettings := mkSettings {
  Mode : string;       (* "local" or "remote" *)
  RemoteURL : string;
  Enabled : bool
}.

Record ProvidersConfig := mkProviders {
  AllAnime : ProviderSettings;
  HiAnime : ProviderSettings;
  SFlix : ProviderSettings;
  FlixHQ : ProviderSettings;
  HDRezka : ProviderSettings;
  Comix : ProviderSettings;
  Lua : ProviderSettings
}.

Record Config := mkConfig { Providers : ProvidersConfig }.

End config.

(** ** Package [registry] *)

Module registry.

(** [os.DirEntry]. *)
Record DirEntry := mkDirEntry { entry_Name : string; IsDir : bool }.

(** What [Load] calls outside the package: the plugin adapter of
    package [luaprovider] ([New] returns one value, an adapter, and
    the registry asks it for its name and type), the directory
    listing, and the paths. *)
Class PluginHost (LP : Type) := {
  luaprovider_New : string -> LP;
  lp_Name : LP -> string;
  lp_Type : LP -> string;
  ReadDir : string -> error + list DirEntry;
  GetConfigDir : string;
  filepath_Join : string -> string -> string
}.

(** [filepath.Ext(path)]: the suffix from the last dot of the last
    path element, scanning from the end. *)
Fixpoint Ext_scan (reversed suffix : string) : string :=
  match reversed with
  | EmptyString => ""
  | String c reversed' =>
      if Ascii.eqb c "/" then ""
      else if Ascii.eqb c "." then String c suffix
      else Ext_scan reversed' (String c suffix)
  end.

Definition Ext (path : string) : string := Ext_scan (String.rev path) "".

Section Registry.
Context {LP : Type} `{!PluginHost LP}.

(** A [providers.Provider] held by the registry: the adapter a
    built-in package constructs, a remote client, or a plugin. *)
Inductive Provider : Type :=
| LocalProvider (package : string)
| RemoteProvider (name url : string)
| LuaPlugin (lp : LP).

Record Registry := mkRegistry { providers_ : gmap string Provider }.

(** [New()]. *)
Definition New : Registry := mkRegistry ∅.

(** The helper [register] of [Load]. *)
Definition register (name : string) (settings : config.ProviderSettings)
    (localFactory : option (unit -> Provider)) (mediaType : string)
    (r : Registry) : Registry :=
  if negb (config.Enabled settings) then r
  else if String.eqb (config.Mode settings) "remote" then
    (* If RemoteURL is not set, we can't use it *)
    if negb (String.eqb (config.RemoteURL settings) "") then
      let url := config.RemoteURL settings in
      let url :=
        if negb (Contains url ("/" +:+ name))
        then TrimRight_byte url "/" +:+ "/" +:+ mediaType +:+ "/" +:+ name
        else url in
      mkRegistry (<[name := RemoteProvider name url]> (providers_ r))
    else r
  else
    match localFactory with
    | Some factory => mkRegistry (<[name := factory tt]> (providers_ r))
    | None => r
    end.

(** The seven registrations of the known providers. *)
Definition register_known (cfg : config.Config) (r : Registry) : Registry :=
  let p := config.Providers cfg in
  let known name settings package mediaType r :=
    register name settings (Some (fun _ => LocalProvider package)) mediaType r in
  let r := known "hianime" (config.HiAnime p) "providers/anime/hianime" "anime" r in
  let r := known "allanime" (config.AllAnime p) "providers/anime/allanime" "anime" r in
  let r := known "sflix" (config.SFlix p) "providers/movies/sflix" "movies" r in
  let r := known "flixhq" (config.FlixHQ p) "providers/movies/flixhq" "movies" r in
  let r := known "hdrezka" (config.HDRezka p) "providers/movies/hdrezka" "movies" r in
  let r := known "hdrezka_anime" (config.HDRezka p) "providers/anime/hdrezka" "anime" r in
  known "comix" (config.Comix p) "providers/manga/comix" "manga" r.

Definition luaDir : string := filepath_Join GetConfigDir "luaProviders".

(** [filepath.Join(luaDir, file.Name())]. *)
Definition plugin_path (file : DirEntry) : string :=
  filepath_Join luaDir (entry_Name file).

Definition is_plugin_file (file : DirEntry) : bool :=
  negb (IsDir file) && String.eqb (Ext (entry_Name file)) ".lua".

(** The body of the loop over the directory entries.  The second
    component collects the paths given to [luaprovider.New]. *)
Definition Load_file (cfg : config.Config) (acc : Registry * list string)
    (file : DirEntry) : Registry * list string :=
  let '(r, loaded) := acc in
  if is_plugin_file file then
    let path := plugin_path file in
    let lp := luaprovider_New path in
    (register (lp_Name lp) (config.Lua (config.Providers cfg))
              (Some (fun _ => LuaPlugin lp)) (lp_Type lp) r,
     loaded ++ [path])
  else (r, loaded).

(** [Load] after [os.ReadDir] has answered [files]. *)
Definition Load_with (files : error + list DirEntry) (cfg : config.Config)
    (r : Registry) : Registry * list string :=
  let r := register_known cfg r in
  match files with
  | inl err =>
      (* the error is dropped: nothing is returned, nothing is written *)
      (r, [])
  | inr files => fold_left (Load_file cfg) files (r, [])
  end.

(** [(r *Registry) Load(cfg)]: the registry afterwards, and the
    calls of [luaprovider.New] in order. *)
Definition Load (cfg : config.Config) (r : Registry) : Registry * list string :=
  Load_with (ReadDir luaDir) cfg r.

Definition Get (name : string) (r : Registry) : option Provider * option error :=
  match providers_ r !! name with
  | Some p => (Some p, None)
  | None => (None, Some (errorString ("provider not found: " +:+ name)))
  end.

(** [(r *Registry) List()]: the keys of the map.  Go ranges over a map
    in an order that is not specified; the keys come here in the order
    of the finite map, and only which names are listed is meant. *)
Definition List (r : Registry) : list string := (map_to_list (providers_ r)).*1.

End Registry.

Arguments Provider LP : clear implicits.
Arguments Registry LP : clear implicits.

End registry.

(** ** What a trace shows, and runs of the pipeline over a server list *)

Section Runs.
Context {W : Type} `{!NetHTTP W, !Extractors W, !Goquery, !GoText, !ProvidersPkg}.

(** The servers that [extractSourcesFromServer] was called with, and
    the requests that were sent, in order. *)
Definition attempts (tr : list Event) : list types.EpisodeServer.t :=
  omap (fun ev => match ev with EvExtractFrom server => Some server | _ => None end) tr.

Definition requests (tr : list Event) : list http.Request :=
  omap (fun ev => match ev with EvDo req => Some req | _ => None end) tr.

(** [all_fail servers st lastErr st' lastErr']: tried in turn from the
    state [st], every server of [servers] ends with an error; [st'] is
    the state after the last attempt and [lastErr'] its error
    ([lastErr] when there is no server). *)
Inductive all_fail :
  list types.EpisodeServer.t → State W → option error → State W → option error → Prop :=
| all_fail_nil st lastErr : all_fail [] st lastErr st lastErr
| all_fail_cons server servers st lastErr p err st1 st' lastErr' :
    sflix.extractSourcesFromServer server st = (Returned (p, Some err), st1) →
    all_fail servers st1 (Some err) st' lastErr' →
    all_fail (server :: servers) st lastErr st' lastErr'.

(** [all_empty servers st st']: tried in turn from [st], every server
    answers without an error and without a source. *)
Inductive all_empty : list types.EpisodeServer.t → State W → State W → Prop :=
| all_empty_nil st : all_empty [] st st
| all_empty_cons server servers st v st1 st' :
    sflix.extractSourcesFromServer server st = (Returned (Some v, None), st1) →
    len (types.VideoSources.Sources v) = 0 →
    all_empty servers st1 st' →
    all_empty (server :: servers) st st'.

(** The state [st] with other caches. *)
Definition with_caches (sc : gmap string (slice providers.Media.t))
    (ic : gmap string types.MovieInfo.t) (st : State W) : State W :=
  mkState (mkSFlix (BaseURL (self st)) sc ic) (world st) (trace st).

(** The state [st] in front of another world. *)
Definition with_world (w : W) (st : State W) : State W :=
  mkState (self st) w (trace st).

(** A computation that neither reads nor writes the two caches: with
    other caches it ends the same way, in the same world, with the same
    trace, and the other caches are still there. *)
Definition cache_blind {A} (m : M W A) : Prop :=
  ∀ sc ic st, m (with_caches sc ic st) = ((m st).1, with_caches sc ic (m st).2).

(** Whenever the computation returns, what it returns satisfies [P]. *)
Definition yields {A} (m : M W A) (P : A → Prop) : Prop :=
  ∀ st a st', m st = (Returned a, st') → P a.

(** The season numbers of the episodes are [int]s. *)
Definition season_ints (episodes : slice types.Episode.t) : Prop :=
  Forall (fun ep => int_range (types.Episode.Season ep)) (elems episodes).

(** What the loop of [GetSeasons] gives each season: the id made of the
    media id and of its number, which is an [int]. *)
Definition encoded (mediaID : string) (s : providers.Season.t) : Prop :=
  providers.Season.ID s = sflix.season_id mediaID (providers.Season.Number s)
  ∧ int_range (providers.Season.Number s).

(** In the loop of [GetSeasons], a number marked in [seasonsMap] has
    its season in [seasons]. *)
Definition marked_seasons (acc : gmap Z bool * slice providers.Season.t) : Prop :=
  ∀ n, default false (acc.1 !! n) = true →
       ∃ s, s ∈ elems acc.2 ∧ providers.Season.Number s = n.

(** Every [int] of the cached infos is in range. *)
Definition cached_ints (st : State W) : Prop :=
  ∀ id info, infoCache (self st) !! id = Some info →
    season_ints (types.MovieInfo.Episodes info).

End Runs.

(** ** Further notions for the properties of the adapter *)

Section Notions.
Context {W : Type}.

(** The computation returns in every state: it never panics. *)
Definition returns {A} (m : M W A) : Prop :=
  ∀ st, ∃ a st', m st = (Returned a, st').

(** The computation adds to the trace and takes nothing from it. *)
Definition appends {A} (m : M W A) : Prop :=
  ∀ st, ∃ more, trace (m st).2 = trace st ++ more.

(** What the adapter may add to the trace in front of the site
    [base]: a request for a URL under [base] that carries the
    [User-Agent] of the package and [base] as [Referer], the call of
    an extractor with a link that is not empty, an entry into
    [extractSourcesFromServer]. *)
Definition polite (base : string) (ev : Event) : Prop :=
  match ev with
  | EvDo req =>
      (∃ path, http.URL req = base +:+ path)
      ∧ ("User-Agent", UserAgent) ∈ http.Header req
      ∧ ("Referer", base) ∈ http.Header req
  | EvExtract name embedURL => embedURL ≠ ""
  | EvExtractFrom server => True
  end.

(** Run by an adapter for the site [base], the computation leaves the
    base URL as it is and adds only polite events to the trace. *)
Definition keeps_to (base : string) {A} (m : M W A) : Prop :=
  ∀ st, BaseURL (self st) = base →
        BaseURL (self (m st).2) = base
        ∧ ∃ more, trace (m st).2 = trace st ++ more ∧ Forall (polite base) more.

(** An error made by [fmt.Errorf] with [%w], or none. *)
Definition nil_or_wrapped (err : option error) : Prop :=
  err = None ∨ ∃ msg inner, err = Some (wrapError msg inner).

(** The season an episode counts in: season 0 is season 1. *)
Definition season_of (ep : types.Episode.t) : Z :=
  if types.Episode.Season ep =? 0 then 1 else types.Episode.Season ep.




(** In the loop of [GetSeasons]: the seasons collected have different
    numbers, and each of these numbers is marked. *)
Definition distinct_marked (acc : gmap Z bool * slice providers.Season.t) : Prop :=
  NoDup (providers.Season.Number <$> elems acc.2)
  ∧ ∀ s, s ∈ elems acc.2 → acc.1 !! providers.Season.Number s = Some true.

(** The episode of the provider contract that [GetEpisodes] makes of
    an episode of the info. *)
Definition listed_episode (ep : types.Episode.t) : providers.Episode.t :=
  providers.Episode.mk
    (if negb (String.eqb (types.Episode.URL ep) "")
        && negb (String.eqb (types.Episode.URL ep) (types.Episode.ID ep))
     then types.Episode.ID ep +:+ "|" +:+ types.Episode.URL ep
     else types.Episode.ID ep)
    (types.Episode.Number ep) (types.Episode.Title ep) (season_of ep).


(** What [GetEpisodes] makes of an info for a season: the episodes
    that count in the season, or the info itself as the one episode of
    season 1 when it has none. *)
Definition season_listing (info : types.MovieInfo.t) (seasonNum : Z)
  : list providers.Episode.t :=
  match elems (types.MovieInfo.Episodes info) with
  | [] =>
      if seasonNum =? 1
      then [providers.Episode.mk (types.MovieInfo.ID info) 1 (types.MovieInfo.Title info) 1]
      else []
  | listed => listed_episode <$> filter (fun ep => season_of ep = seasonNum) listed
  end.

End Notions.

(** ** What the pages stand for *)

Section Readings.
Context `{!Goquery, !GoText}.

(** The server that an item of the server list stands for: the lower
    case of the trimmed text of its [a span], with the [data-id] of its
    [a]; none without the attribute or with a blank name. *)
Definition listed_server (sel : Selection) : option types.EpisodeServer.t :=
  match Attr (Find sel "a") "data-id" with
  | None => None
  | Some dataID =>
      let serverName := TrimSpace (Text (Find sel "a span")) in
      if String.eqb serverName "" then None
      else Some (types.EpisodeServer.mk (ToLower serverName) dataID)
  end.

(** The [data-id] that [GetInfo] reads on a page: that of
    [.detail_page-watch], or else that of [#watch], or else nothing. *)
Definition page_data_id (doc : Selection) : string :=
  match Attr (Find doc ".detail_page-watch") "data-id" with
  | Some v => v
  | None =>
      match Attr (Find doc "#watch") "data-id" with
      | Some v => v
      | None => ""
      end
  end.

End Readings.

(** ** Where a panic comes from *)

Section Faults.
Context {W : Type} `{!NetHTTP W, !Extractors W}.

(** The state [st'] is the one that an extractor has just left,
    having returned a nil pointer with a nil error. *)
Definition after_nil_extraction (st' : State W) : Prop :=
  ∃ name embedURL st0,
    GetExtractor_Extract name embedURL (world st0) = ((None, None), world st')
    ∧ trace st' = trace st0 ++ [EvExtract name embedURL]
    ∧ self st' = self st0.

End Faults.

(** ** Package [config]: the directories *)

Module directories.

(** What the directory functions ask of the system: the environment
    ([os.Getenv]), the name of the operating system ([runtime.GOOS]),
    [filepath.Join], and [os.MkdirAll], which changes the file system
    [F] and may fail. *)
Class System (F : Type) := {
  Getenv : string -> string;
  GOOS : string;
  Join : list string -> string;
  MkdirAll : string -> F -> option error * F
}.

Section Directories.
Context {F : Type} `{!System F}.

Definition getHomeDir : string :=
  if negb (String.eqb (Getenv "HOME") "") then Getenv "HOME"
  else if negb (String.eqb (Getenv "USERPROFILE") "") then Getenv "USERPROFILE"
  else ".".

Definition getConfigDir : string :=
  (* GREG_* override for testing *)
  if negb (String.eqb (Getenv "GREG_CONFIG_HOME") "") then Getenv "GREG_CONFIG_HOME"
  (* Windows: Use APPDATA *)
  else if negb (String.eqb (Getenv "APPDATA") "") then Join [Getenv "APPDATA"; "greg"]
  (* Unix: Use XDG_CONFIG_HOME or fallback to ~/.config *)
  else if negb (String.eqb (Getenv "XDG_CONFIG_HOME") "")
       then Join [Getenv "XDG_CONFIG_HOME"; "greg"]
  else Join [getHomeDir; ".config"; "greg"].

Definition GetConfigDir : string := getConfigDir.

Definition getCacheDir : string :=
  if negb (String.eqb (Getenv "LOCALAPPDATA") "") then Join [Getenv "LOCALAPPDATA"; "greg"]
  else if negb (String.eqb (Getenv "XDG_CACHE_HOME") "") then Getenv "XDG_CACHE_HOME"
  else Join [getHomeDir; ".cache"].

Definition getDataDir : string :=
  if negb (String.eqb (Getenv "APPDATA") "") then Join [Getenv "APPDATA"; "greg"]
  else if negb (String.eqb (Getenv "XDG_DATA_HOME") "") then Getenv "XDG_DATA_HOME"
  else Join [getHomeDir; ".local"; "share"].

Definition getStateDir : string :=
  if negb (String.eqb (Getenv "GREG_STATE_HOME") "") then Getenv "GREG_STATE_HOME"
  else if negb (String.eqb (Getenv "LOCALAPPDATA") "")
       then Join [Getenv "LOCALAPPDATA"; "greg"]
  else if negb (String.eqb (Getenv "XDG_STATE_HOME") "") then Getenv "XDG_STATE_HOME"
  else Join [getHomeDir; ".local"; "state"].

Definition getVideosDir : string :=
  if negb (String.eqb (Getenv "GREG_VIDEOS_DIR") "") then Getenv "GREG_VIDEOS_DIR"
  (* Windows: Use USERPROFILE\Videos *)
  else if negb (String.eqb (Getenv "USERPROFILE") "")
       then Join [Getenv "USERPROFILE"; "Videos"]
  (* macOS detection (use Movies not Videos) *)
  else if String.eqb GOOS "darwin" then
    if negb (String.eqb (Getenv "XDG_VIDEOS_DIR") "") then Getenv "XDG_VIDEOS_DIR"
    else Join [getHomeDir; "Movies"]
  (* Linux: XDG_VIDEOS_DIR or ~/Videos *)
  else if negb (String.eqb (Getenv "XDG_VIDEOS_DIR") "") then Getenv "XDG_VIDEOS_DIR"
  else Join [getHomeDir; "Videos"].

(** The slice [dirs] of [InitializeDirs]. *)
Definition InitializeDirs_dirs : list string :=
  [ getConfigDir;
    Join [getStateDir; "greg"];
    Join [getDataDir; "greg"];
    Join [getCacheDir; "greg"];
    Join [getVideosDir; "greg"] ].

(** [for _, dir := range dirs] with its [return] from inside. *)
Fixpoint InitializeDirs_loop (dirs : list string) (fs : F) : option error * F :=
  match dirs with
  | [] => (None, fs)
  | dir :: dirs' =>
      match MkdirAll dir fs with
      | (Some err, fs') =>
          (Some (wrapError ("failed to create directory " +:+ dir +:+ ": ") err), fs')
      | (None, fs') => InitializeDirs_loop dirs' fs'
      end
  end.

Definition InitializeDirs (fs : F) : option error * F :=
  InitializeDirs_loop InitializeDirs_dirs fs.

(** [expandPath]: [path[1:]] follows the home directory. *)
Definition expandPath (path : string) : string :=
  match path with
  | EmptyString => path
  | String c rest => if Ascii.eqb c "~" then Join [getHomeDir; rest] else path
  end.

(** [made dirs fs fs']: [os.MkdirAll] succeeds for each directory of
    [dirs] in turn, from the file system [fs] to [fs']. *)
Inductive made : list string → F → F → Prop :=
| made_nil fs : made [] fs fs
| made_cons dir dirs fs fs1 fs' :
    MkdirAll dir fs = (None, fs1) → made dirs fs1 fs' → made (dir :: dirs) fs fs'.

End Directories.

End directories.

(** ** Test doubles

    Small implementations of the interfaces, on which the adapter and
    the registry run: a document model for [goquery], the ASCII part of
    the text functions, and an upstream site given by a table. *)

Module testdata.

Import types.

(** *** Documents *)

(** A node with the selectors it answers to, its attributes, its text
    and its children. *)
#[warnings="-register-all"] Inductive Node : Type :=
| node (selectors : list string) (attrs : list (string * string))
       (text : string) (children : list Node).

Fixpoint descendants (n : Node) : list Node :=
  match n with
  | node _ _ _ children => flat_map (fun c => c :: descendants c) children
  end.

Definition answers (selector : string) (n : Node) : bool :=
  match n with
  | node selectors _ _ _ => existsb (String.eqb selector) selectors
  end.

Definition node_text (n : Node) : string :=
  match n with node _ _ text _ => text end.

Definition node_attr (name : string) (n : Node) : option string :=
  match n with
  | node _ attrs _ _ =>
      snd <$> List.find (fun kv => String.eqb (fst kv) name) attrs
  end.

(** A leaf and an element, to write pages with. *)
Definition leaf (selector text : string) : Node := node [selector] [] text [].

Definition item (selector dataID : string) (children : list Node) : Node :=
  node [selector] [("data-id", dataID)] "" children.

(** *** Text *)

Definition ascii_lower (c : ascii) : ascii :=
  let n := nat_of_ascii c in
  if (65 <=? n)%nat && (n <=? 90)%nat then ascii_of_nat (n + 32) else c.

Fixpoint ascii_ToLower (s : string) : string :=
  match s with
  | EmptyString => EmptyString
  | String c s' => String (ascii_lower c) (ascii_ToLower s')
  end.

Definition ascii_EqualFold (s t : string) : bool :=
  String.eqb (ascii_ToLower s) (ascii_ToLower t).

Fixpoint trim_left_space (s : string) : string :=
  match s with
  | String c s' => if Ascii.is_space c then trim_left_space s' else s
  | EmptyString => EmptyString
  end.

Definition ascii_TrimSpace (s : string) : string :=
  String.rev (trim_left_space (String.rev (trim_left_space s))).

(** The body [link=URL] stands for the JSON object with the field
    [link], and [{}] for the object without it. *)
Definition link_of_body (body : string) : error + string :=
  if HasPrefix body "link=" then inr (drop_bytes 5 body)
  else if String.eqb body "{}" then inr ""
  else inl (errorString "invalid character looking for beginning of value").

#[export] Instance text : GoText := {|
  Unmarshal_link := link_of_body;
  EqualFold := ascii_EqualFold;
  TrimSpace := ascii_TrimSpace;
  ToLower := ascii_ToLower
|}.

#[export] Instance consts : ProvidersPkg := {| QualityAuto := "auto" |}.

(** *** The upstream site *)

(** A world: the bodies of the pages by URL (a URL that is not listed
    does not answer) and the answer of the extractor for each embed
    URL. *)
Record World := mkWorld {
  pages : list (string * string);
  embeds : list (string * (ptr VideoSources.t * option error))
}.

Definition lookup_table {A} (key : string) (table : list (string * A)) : option A :=
  snd <$> List.find (fun kv => String.eqb (fst kv) key) table.

Definition refused : error := errorString "dial tcp: connection refused".

Definition has_control_byte (s : string) : bool :=
  existsb (fun c => (nat_of_ascii c <? 32)%nat) (String.list_ascii_of_string s).

#[export] Instance net : NetHTTP World := {|
  NewRequest_err url :=
    if has_control_byte url
    then Some (errorString "net/url: invalid control character in URL")
    else None;
  Client_Do req w :=
    (match lookup_table (http.URL req) (pages w) with
     | Some body => inr (http.mkResponse 200 (inr body))
     | None => inl refused
     end, w)
|}.

#[export] Instance extractor : Extractors World := {|
  GetExtractor_Extract name embedURL w :=
    (default (None, Some (errorString "unsupported host"))
             (lookup_table embedURL (embeds w)), w)
|}.

(** The pages of the site: a body is the name of its document, and the
    parser looks the document up in [site_documents]. *)
Definition server (dataID name : string) : Node :=
  node [".ulclear > li"] []  ""
       [node ["a"] [("data-id", dataID)] "" [leaf "a span" name]].

Definition episode (dataID number title : string) : Node :=
  item ".eps-item" dataID [leaf ".episode-number" number; leaf ".film-name a" title].

Definition site_documents : list (string * Node) :=
  [ ("servers of 101",
     node [] [] "" [server "s1" " UpCloud "; server "s2" "Vidcloud"; server "s3" "AKCloud"]);
    ("servers of 102", node [] [] "" [server "f1" "UpCloud"; server "f2" "Vidcloud"]);
    ("servers of 103", node [] [] "" [server "e1" "UpCloud"; server "e2" "Vidcloud"]);
    ("servers of 104", node [] [] "" []);
    ("page of the show",
     node [] [] ""
          [leaf "h2.heading-name" " The Show "; item ".detail_page-watch" "77" []]);
    ("seasons of 77",
     node [] [] ""
          [node [".ss-item"] [("data-id", "a")] "Season 1" [];
           node [".ss-item"] [("data-id", "b")] "Season 2" []]);
    ("episodes of a",
     node [] [] "" [episode "101" "Episode 1:" "Pilot"; episode "102" "Episode 2:" "Two"]);
    ("episodes of b", node [] [] "" [episode "103" "Episode 1:" "Back"]);
    ("page of the show, renamed", node [] [] "" [leaf "h2.heading-name" "Renamed"]);
    ("results for the-show",
     node [] [] ""
          [node ["div.flw-item"] [] ""
                [node ["h2.film-name a"] [("href", "/tv/the-show-39444")] "The Show" [];
                 node ["img"] [("data-src", "https://img.example/show.jpg")] "" [];
                 leaf ".fdi-item" "2019"]]) ].

#[export] Instance documents_parser : Goquery := {|
  Selection := list Node;
  NewDocumentFromReader body := inr (option_list (lookup_table body site_documents));
  Find sel selector :=
    flat_map (fun n => List.filter (answers selector) (descendants n)) sel;
  Text sel := fold_right (fun n acc => node_text n +:+ acc) "" sel;
  Attr sel name := match sel with n :: _ => node_attr name n | [] => None end;
  Each sel := (fun n => [n]) <$> sel
|}.

Definition two_sources : VideoSources.t :=
  VideoSources.mk
    (mk_slice [Source.mk "https://cdn.example/720.m3u8" "720p" true "https://megacloud.tv/";
               Source.mk "https://cdn.example/480.mp4" "480p" false "https://megacloud.tv/"])
    (mk_slice [Subtitle.mk "https://cdn.example/en.vtt" "English"]).

Definition other_sources : VideoSources.t :=
  VideoSources.mk
    (mk_slice [Source.mk "https://other.example/1080.m3u8" "1080p" true ""])
    (mk_slice []).

Definition site : World :=
  mkWorld
    [ ("https://sflix.ps/ajax/episode/servers/101", "servers of 101");
      ("https://sflix.ps/ajax/episode/servers/102", "servers of 102");
      ("https://sflix.ps/ajax/episode/servers/103", "servers of 103");
      ("https://sflix.ps/ajax/episode/servers/104", "servers of 104");
      ("https://sflix.ps/ajax/episode/sources/s2", "link=https://megacloud.tv/e/s2");
      ("https://sflix.ps/ajax/episode/sources/s3", "link=https://megacloud.tv/e/s3");
      ("https://sflix.ps/ajax/episode/sources/f1", "<html>");
      ("https://sflix.ps/ajax/episode/sources/f2", "{}");
      ("https://sflix.ps/ajax/episode/sources/e1", "link=https://megacloud.tv/e/e1");
      ("https://sflix.ps/ajax/episode/sources/e2", "link=https://megacloud.tv/e/e2");
      ("https://sflix.ps/tv/the-show-39444", "page of the show");
      ("https://sflix.ps/search/the-show", "results for the-show");
      ("https://sflix.ps/ajax/season/list/77", "seasons of 77");
      ("https://sflix.ps/ajax/season/episodes/a", "episodes of a");
      ("https://sflix.ps/ajax/season/episodes/b", "episodes of b") ]
    [ ("https://megacloud.tv/e/s2", (Some two_sources, None));
      ("https://megacloud.tv/e/s3", (Some other_sources, None));
      ("https://megacloud.tv/e/e1", (Some sflix.empty_VideoSources, None));
      ("https://megacloud.tv/e/e2", (Some (VideoSources.mk nil_slice nil_slice), None)) ].

(** The site when nothing answers, and after the page of the show has
    changed. *)
Definition site_down : World := mkWorld [] [].

Definition site_changed : World :=
  mkWorld [("https://sflix.ps/tv/the-show-39444", "page of the show, renamed")] [].

(** A fresh adapter in front of a world. *)
Definition fresh (w : World) : State World := mkState sflix.New w [].

Definition ctx : providers.Context := providers.Build_Context false.

(** The show, and the servers of its first episode. *)
Definition the_show : string := "tv/the-show-39444".

Definition upcloud : EpisodeServer.t := EpisodeServer.mk "upcloud" "s1".
Definition vidcloud : EpisodeServer.t := EpisodeServer.mk "vidcloud" "s2".
Definition akcloud : EpisodeServer.t := EpisodeServer.mk "akcloud" "s3".

(** What the site says about the show. *)
Definition show_episodes : list Episode.t :=
  [ Episode.mk "101" 1 1 "Pilot" the_show;
    Episode.mk "102" 2 1 "Two" the_show;
    Episode.mk "103" 1 2 "Back" the_show ].

Definition show_info : MovieInfo.t :=
  MovieInfo.mk the_show "https://sflix.ps/tv/the-show-39444" "The Show" "" "" "" ""
    "tv" (mk_slice []) (mk_slice show_episodes) 2 1.

Definition show_details : providers.MediaDetails.t :=
  providers.MediaDetails.mk
    (providers.Media.mk the_show "The Show" providers.MediaTypeTV "" 0 "" (mk_slice [])).

Definition show_results : slice providers.Media.t :=
  mk_slice [providers.Media.mk the_show "The Show" providers.MediaTypeTV
              "https://img.example/show.jpg" 2019 "" nil_slice].

Definition show_seasons : slice providers.Season.t :=
  mk_slice [providers.Season.mk "tv/the-show-39444|1" 1 "Season 1";
            providers.Season.mk "tv/the-show-39444|2" 2 "Season 2"].

(** *** A plugin directory *)

(** A plugin adapter is the path it was constructed from; its name is
    read from a table. *)
Definition plugin_names : list (string * string) :=
  [ ("/home/user/.config/greg/luaProviders/example.lua", "Example Provider") ].

Definition host (listing : error + list registry.DirEntry) : registry.PluginHost string := {|
  registry.luaprovider_New path := path;
  registry.lp_Name lp := default "Unknown" (lookup_table lp plugin_names);
  registry.lp_Type lp := "movie_tv";
  registry.ReadDir dir := listing;
  registry.GetConfigDir := "/home/user/.config/greg";
  registry.filepath_Join dir name := dir +:+ "/" +:+ name
|}.

Definition example_lua : registry.DirEntry := registry.mkDirEntry "example.lua" false.

Definition listing : list registry.DirEntry :=
  [ registry.mkDirEntry "notes.txt" false; example_lua;
    registry.mkDirEntry "old.lua" true ].

Definition unreadable : error := errorString "open luaProviders: no such file or directory".

(** Every provider enabled, in local mode. *)
Definition all_local : config.Config :=
  let on := config.mkSettings "local" "" true in
  config.mkConfig (config.mkProviders on on on on on on on).

End testdata.

(** ** More of the test site and of the plugin directory *)

Module fixtures.

Import types testdata.

(** The first season of the show, as [GetEpisodes] lists it. *)
Definition show_first_season : slice providers.Episode.t :=
  mk_slice [ providers.Episode.mk "101|tv/the-show-39444" 1 "Pilot" 1;
             providers.Episode.mk "102|tv/the-show-39444" 2 "Two" 1 ].

(** The page of the show, parsed. *)
Definition show_page : Selection :=
  option_list (lookup_table "page of the show" site_documents).

(** The show asked for without its prefix. *)
Definition bare_show : string := "the-show-39444".

(** A movie, on a site that answers for its page with a document that
    has a title and the [data-id] 77. *)
Definition the_movie : string := "movie/heat-19764".

Definition movie_site : World :=
  mkWorld [("https://sflix.ps/movie/heat-19764", "page of the show")] [].

(** The site with an extractor that returns nothing at all for the
    second server of the first episode. *)
Definition site_with_a_nil_extraction : World :=
  mkWorld (pages site) [("https://megacloud.tv/e/s2", (None, None))].

(** A plugin directory in which two plugins call themselves [sflix],
    as the known provider does. *)
Definition crowded_names : list (string * string) :=
  [ ("/home/user/.config/greg/luaProviders/mine.lua", "sflix");
    ("/home/user/.config/greg/luaProviders/other.lua", "sflix");
    ("/home/user/.config/greg/luaProviders/example.lua", "Example Provider") ].

Definition crowded_host (listing : error + list registry.DirEntry)
  : registry.PluginHost string := {|
  registry.luaprovider_New path := path;
  registry.lp_Name lp := default "Unknown" (lookup_table lp crowded_names);
  registry.lp_Type lp := "movie_tv";
  registry.ReadDir dir := listing;
  registry.GetConfigDir := "/home/user/.config/greg";
  registry.filepath_Join dir name := dir +:+ "/" +:+ name
|}.

Definition mine_lua : registry.DirEntry := registry.mkDirEntry "mine.lua" false.
Definition other_lua : registry.DirEntry := registry.mkDirEntry "other.lua" false.

Definition crowded : list registry.DirEntry :=
  [ mine_lua; registry.mkDirEntry "notes.txt" false; other_lua; example_lua;
    registry.mkDirEntry "old.lua" true ].

(** The site on which the page of the movie answers under [/tv/]
    only. *)
Definition movie_under_tv : World :=
  mkWorld [("https://sflix.ps/tv/movie/heat-19764", "page of the show")] [].

(** Settings of a provider served by a remote API. *)
Definition remote_settings : config.ProviderSettings :=
  config.mkSettings "remote" "https://api.example/" true.

(** Every known provider enabled in local mode, the Lua providers
    disabled. *)
Definition lua_off : config.Config :=
  let on := config.mkSettings "local" "" true in
  let off := config.mkSettings "local" "" false in
  config.mkConfig (config.mkProviders on on on on on on off).

End fixtures.

(** * Properties *)

(** ** Strings and integers *)

Lemma HasPrefix_pipe c s :
  HasPrefix (String c s) "|" = Ascii.eqb c "|".
Proof. simpl. destruct (Ascii.eqb c "|"); reflexivity. Qed.

Lemma Contains_cons_pipe c s :
  Contains (String c s) "|" = Ascii.eqb c "|" || Contains s "|".
Proof.
  change (Contains (String c s) "|")
    with (if HasPrefix (String c s) "|" then true else Contains s "|").
  rewrite HasPrefix_pipe. destruct (Ascii.eqb c "|"); reflexivity.
Qed.

Lemma Contains_app_pipe s t :
  Contains (s +:+ t) "|" = Contains s "|" || Contains t "|".
Proof.
  induction s as [|c s IH].
  - reflexivity.
  - change (String c s +:+ t) with (String c (s +:+ t)).
    rewrite !Contains_cons_pipe, IH. apply orb_assoc.
Qed.

Lemma app_assoc_string (a b c : string) : (a +:+ b) +:+ c = a +:+ (b +:+ c).
Proof.
  induction a as [|x a IH]; [reflexivity|].
  change (String x ((a +:+ b) +:+ c) = String x (a +:+ b +:+ c)). by f_equal.
Qed.

Lemma app_empty_r (a : string) : a +:+ "" = a.
Proof.
  induction a as [|x a IH]; [reflexivity|].
  change (String x (a +:+ "") = String x a). by f_equal.
Qed.

(** A piece without the separator is read whole. *)
Lemma split_from_pipe_free s cur :
  Contains s "|" = false → split_from "|" 0 cur s = [cur +:+ s].
Proof.
  revert cur. induction s as [|c s IH]; intros cur Hs.
  - simpl. by rewrite app_empty_r.
  - rewrite Contains_cons_pipe in Hs. apply orb_false_iff in Hs as [Hc Hs].
    cbn [split_from]. rewrite HasPrefix_pipe, Hc.
    rewrite IH by done. by rewrite app_assoc_string.
Qed.

(** Up to the first separator. *)
Lemma split_from_pipe s t cur :
  Contains s "|" = false →
  split_from "|" 0 cur (s +:+ "|" +:+ t) = (cur +:+ s) :: split_from "|" 0 "" t.
Proof.
  revert cur. induction s as [|c s IH]; intros cur Hs.
  - simpl. by rewrite app_empty_r.
  - rewrite Contains_cons_pipe in Hs. apply orb_false_iff in Hs as [Hc Hs].
    change (String c s +:+ "|" +:+ t) with (String c (s +:+ "|" +:+ t)).
    cbn [split_from]. rewrite HasPrefix_pipe, Hc.
    rewrite IH by done. by rewrite app_assoc_string.
Qed.

Lemma Split_two s t :
  Contains s "|" = false → Contains t "|" = false →
  Split (s +:+ "|" +:+ t) "|" = [s; t].
Proof.
  intros Hs Ht. unfold Split.
  rewrite split_from_pipe by done. by rewrite split_from_pipe_free.
Qed.

Lemma Split_pipe_free s : Contains s "|" = false → Split s "|" = [s].
Proof. intros Hs. unfold Split. by rewrite split_from_pipe_free. Qed.

(** [strings.Split] never returns an empty slice. *)
Lemma split_from_nonempty sep skip cur s : split_from sep skip cur s ≠ [].
Proof.
  revert skip cur. induction s as [|c s IH]; intros skip cur; simpl; [done|].
  destruct skip; [|apply IH].
  destruct (HasPrefix (String c s) sep); [done | apply IH].
Qed.

Lemma mod10_digit n : 0 <= n mod 10 <= 9.
Proof. pose proof (Z.mod_pos_bound n 10). lia. Qed.

Lemma digit_value_char d : 0 <= d <= 9 → digit_value (digit_char d) = Some d.
Proof.
  intros Hd.
  assert (d = 0 ∨ d = 1 ∨ d = 2 ∨ d = 3 ∨ d = 4 ∨ d = 5 ∨ d = 6 ∨ d = 7 ∨ d = 8 ∨ d = 9)
    as Hcases by lia.
  repeat destruct Hcases as [-> | Hcases]; try reflexivity. by subst.
Qed.

Lemma digit_char_not_pipe d : 0 <= d <= 9 → Ascii.eqb (digit_char d) "|" = false.
Proof.
  intros Hd.
  assert (d = 0 ∨ d = 1 ∨ d = 2 ∨ d = 3 ∨ d = 4 ∨ d = 5 ∨ d = 6 ∨ d = 7 ∨ d = 8 ∨ d = 9)
    as Hcases by lia.
  repeat destruct Hcases as [-> | Hcases]; try reflexivity. by subst.
Qed.

(** Reading the digits of [n] gives [n] back. *)
Lemma parse_digits_onto fuel n acc :
  0 <= n < 10 ^ Z.of_nat fuel →
  parse_digits 0 (digits_onto fuel n acc) = parse_digits n acc.
Proof.
  revert n acc. induction fuel as [|f IH]; intros n acc Hn.
  - simpl in *. by replace n with 0 by lia.
  - cbn [digits_onto]. destruct (Z.ltb_spec n 10) as [Hlt | Hge].
    + cbn [parse_digits]. rewrite digit_value_char by (apply mod10_digit).
      f_equal. rewrite Z.mod_small by lia. lia.
    + rewrite IH.
      * cbn [parse_digits]. rewrite digit_value_char by (apply mod10_digit).
        f_equal. pose proof (Z.div_mod n 10). lia.
      * rewrite Nat2Z.inj_succ, Z.pow_succ_r in Hn by lia.
        split; [apply Z.div_pos; lia | apply Z.div_lt_upper_bound; lia].
Qed.

(** The digits start with a digit: they are not empty and carry no sign. *)
Lemma digits_onto_head f n acc :
  ∃ d rest, 0 <= d <= 9 ∧ digits_onto (S f) n acc = String (digit_char d) rest.
Proof.
  revert n acc. induction f as [|f IH]; intros n acc.
  - exists (n mod 10), acc. split; [apply mod10_digit|].
    cbn [digits_onto]. by destruct (n <? 10).
  - change (digits_onto (S (S f)) n acc)
      with (if n <? 10 then String (digit_char (n mod 10)) acc
            else digits_onto (S f) (n / 10) (String (digit_char (n mod 10)) acc)).
    destruct (n <? 10); [|apply IH].
    exists (n mod 10), acc. split; [apply mod10_digit | done].
Qed.

Lemma digits_onto_pipe_free fuel n acc :
  Contains acc "|" = false → Contains (digits_onto fuel n acc) "|" = false.
Proof.
  revert n acc. induction fuel as [|f IH]; intros n acc Hacc; [done|].
  cbn [digits_onto].
  assert (Contains (String (digit_char (n mod 10)) acc) "|" = false) as Hacc'.
  { rewrite Contains_cons_pipe, Hacc, digit_char_not_pipe; [done|].
    apply mod10_digit. }
  destruct (n <? 10); [done | by apply IH].
Qed.

Lemma itoa_pipe_free n : Contains (itoa n) "|" = false.
Proof.
  unfold itoa. destruct (n <? 0).
  - rewrite Contains_cons_pipe. by rewrite digits_onto_pipe_free.
  - by apply digits_onto_pipe_free.
Qed.

(** A string that starts with a digit has no sign to strip. *)
Lemma Atoi_unsigned d rest :
  0 <= d <= 9 →
  Atoi (String (digit_char d) rest) =
  match parse_digits 0 (String (digit_char d) rest) with
  | Some u => if in_int_range u then Some u else None
  | None => None
  end.
Proof.
  intros Hd.
  assert (d = 0 ∨ d = 1 ∨ d = 2 ∨ d = 3 ∨ d = 4 ∨ d = 5 ∨ d = 6 ∨ d = 7 ∨ d = 8 ∨ d = 9)
    as Hcases by lia.
  repeat destruct Hcases as [-> | Hcases]; try reflexivity. by subst.
Qed.

Lemma in_int_range_true n : int_range n → in_int_range n = true.
Proof.
  unfold int_range, in_int_range. intros [Hlo Hhi].
  apply andb_true_iff. split; by apply Z.leb_le.
Qed.

(** [strconv.Atoi] reads back what [%d] prints, for every [int]. *)
Lemma Atoi_itoa n : int_range n → Atoi (itoa n) = Some n.
Proof.
  intros Hn. pose proof (in_int_range_true n Hn) as Hrange.
  unfold int_range, min_int, max_int in Hn.
  unfold itoa. destruct (Z.ltb_spec n 0) as [Hneg | Hpos].
  - destruct (digits_onto_head 19 (- n) "") as (d & rest & Hd & Hhead).
    pose proof (parse_digits_onto 20 (- n) "") as Hparse.
    unfold Atoi. rewrite Hhead in *. rewrite Hparse by lia.
    cbn [parse_digits]. replace (- - n) with n by lia. by rewrite Hrange.
  - destruct (digits_onto_head 19 n "") as (d & rest & Hd & Hhead).
    pose proof (parse_digits_onto 20 n "") as Hparse.
    rewrite Hhead in *. rewrite Atoi_unsigned, Hparse by lia.
    cbn [parse_digits]. by rewrite Hrange.
Qed.

Lemma Atoi_int_range s n : Atoi s = Some n → int_range n.
Proof.
  unfold Atoi. intros Hs.
  repeat (case_match; simplify_eq/=);
    match goal with
    | H : in_int_range _ = true |- _ =>
        unfold in_int_range in H; apply andb_true_iff in H as [?%Z.leb_le ?%Z.leb_le]; done
    end.
Qed.

Lemma wrap_int_range n : int_range (wrap n).
Proof.
  unfold int_range, wrap, min_int, max_int.
  pose proof (Z.mod_pos_bound (n + 2 ^ 63) (2 ^ 64)). lia.
Qed.

Lemma int_range_1 : int_range 1.
Proof. unfold int_range, min_int, max_int. lia. Qed.

Lemma int_range_0 : int_range 0.
Proof. unfold int_range, min_int, max_int. lia. Qed.

(** ** The adapter *)

Section Facts.
Context {W : Type} `{!NetHTTP W, !Extractors W, !Goquery, !GoText, !ProvidersPkg}.

Import types sflix.

(** Unfolds the operations of the monad in a run. *)
Ltac run :=
  unfold bind, ret, panic, log, get_BaseURL, Do, Extract,
    searchCache_Load, searchCache_Store, infoCache_Load, infoCache_Store; simpl.

Lemma bind_run {A B} (m : M W A) (k : A → M W B) st a st1 :
  m st = (Returned a, st1) → bind m k st = k a st1.
Proof. intros Hm. unfold bind. by rewrite Hm. Qed.

Lemma bind_returned {A B} (m : M W A) (k : A → M W B) st b st' :
  bind m k st = (Returned b, st') →
  ∃ a st1, m st = (Returned a, st1) ∧ k a st1 = (Returned b, st').
Proof.
  unfold bind. destruct (m st) as [[a | msg] st1]; [eauto | discriminate].
Qed.

(** *** The methods without a body *)

(** C9. [HealthCheck] returns nil for every context and in every state
    of the adapter and of the world; it sends no request and leaves the
    caches as they are. *)
Theorem HealthCheck_always_nil (ctx : providers.Context) (st : State W) :
  HealthCheck ctx st = (Returned None, st).
Proof. reflexivity. Qed.

(** C10. [GetTrending] and [GetRecent] fail for every context and in
    every state: a nil list of media and the error "not implemented",
    with no request sent. *)
Theorem GetTrending_GetRecent_not_implemented (ctx : providers.Context) (st : State W) :
  GetTrending ctx st = (Returned (nil_slice, Some (errorString "not implemented")), st)
  ∧ GetRecent ctx st = (Returned (nil_slice, Some (errorString "not implemented")), st).
Proof. split; reflexivity. Qed.

(** *** Quality selection *)

(** The loop of [GetStreamURL] finds the first source that folds to the
    target, or none when no source does. *)
Lemma select_source_first sources target src :
  select_source sources target = Some src →
  ∃ before after,
    sources = before ++ src :: after
    ∧ EqualFold (Source.Quality src) target = true
    ∧ Forall (fun s => EqualFold (Source.Quality s) target = false) before.
Proof.
  induction sources as [|s sources IH]; [discriminate|]. simpl.
  destruct (EqualFold (Source.Quality s) target) eqn:Hs.
  - intros [= ->]. by exists [], sources.
  - intros (before & after & -> & Hsrc & Hbefore)%IH.
    exists (s :: before), after. auto.
Qed.

Lemma select_source_none sources target :
  select_source sources target = None →
  Forall (fun s => EqualFold (Source.Quality s) target = false) sources.
Proof.
  induction sources as [|s sources IH]; [constructor|]. simpl.
  destruct (EqualFold (Source.Quality s) target) eqn:Hs; [discriminate|].
  intros Hnone. constructor; auto.
Qed.

(** The loop of [GetStreamURL] over the subtitles. *)
Lemma subtitles_elems subtitles (acc : slice providers.Subtitle.t) :
  elems (fold_left
           (fun subs sub =>
              append subs (providers.Subtitle.mk (Subtitle.Lang sub) (Subtitle.URL sub)))
           subtitles acc)
  = elems acc
    ++ ((fun sub => providers.Subtitle.mk (Subtitle.Lang sub) (Subtitle.URL sub))
        <$> subtitles).
Proof.
  revert acc. induction subtitles as [|sub subtitles IH]; intros acc; simpl.
  - by rewrite app_nil_r.
  - rewrite IH. simpl. by rewrite <- app_assoc.
Qed.

(** C4. When the sources resolve to a non-empty list, [GetStreamURL]
    answers with the first source whose quality label equals the
    requested quality up to case ([strings.EqualFold]; the quality
    [QualityAuto] is compared as the label "auto"), and with the first
    source of the list when no label matches; it does not fail. The
    stream returned is that source: it has its URL, its quality label
    and its referer, the type HLS exactly when the source is an M3U8,
    the referer as its one header, and the subtitles of the sources
    in order. *)
Theorem GetStreamURL_selects_quality
    (ctx : providers.Context) (episodeID : string) (quality : providers.Quality)
    (st st' : State W) (v : VideoSources.t) :
  GetSources episodeID st = (Returned (iface_VideoSources (Some v), None), st') →
  elems (VideoSources.Sources v) ≠ [] →
  let target := if String.eqb quality QualityAuto then "auto" else quality in
  ∃ selected stream,
    GetStreamURL ctx episodeID quality st = (Returned (Some stream, None), st')
    ∧ providers.StreamURL.URL stream = Source.URL selected
    ∧ providers.StreamURL.Quality stream = Source.Quality selected
    ∧ providers.StreamURL.Type_ stream
      = (if Source.IsM3U8 selected then providers.StreamTypeHLS
         else providers.StreamTypeMP4)
    ∧ providers.StreamURL.Referer stream = Source.Referer selected
    ∧ providers.StreamURL.Headers stream = {[ "Referer" := Source.Referer selected ]}
    ∧ elems (providers.StreamURL.Subtitles stream)
      = ((fun sub => providers.Subtitle.mk (Subtitle.Lang sub) (Subtitle.URL sub))
         <$> elems (VideoSources.Subtitles v))
    ∧ ((∃ before after,
          elems (VideoSources.Sources v) = before ++ selected :: after
          ∧ EqualFold (Source.Quality selected) target = true
          ∧ Forall (fun s => EqualFold (Source.Quality s) target = false) before)
       ∨ (Forall (fun s => EqualFold (Source.Quality s) target = false)
                 (elems (VideoSources.Sources v))
          ∧ head (elems (VideoSources.Sources v)) = Some selected)).
Proof.
  intros Hsources Hnonempty target.
  unfold GetStreamURL. rewrite (bind_run _ _ _ _ _ Hsources).
  destruct (elems (VideoSources.Sources v)) as [|first rest] eqn:Helems; [done|].
  fold target.
  assert (∀ src,
            providers.StreamURL.Type_ (stream_of src (VideoSources.Subtitles v))
            = (if Source.IsM3U8 src then providers.StreamTypeHLS
               else providers.StreamTypeMP4)
            ∧ elems (providers.StreamURL.Subtitles
                       (stream_of src (VideoSources.Subtitles v)))
              = ((fun sub => providers.Subtitle.mk (Subtitle.Lang sub) (Subtitle.URL sub))
                 <$> elems (VideoSources.Subtitles v))) as Hstream.
  { intros src. split; [by destruct src as [? ? [] ?]|].
    unfold stream_of. simpl. by rewrite subtitles_elems. }
  destruct (select_source (first :: rest) target) as [src|] eqn:Hselect.
  - exists src, (stream_of src (VideoSources.Subtitles v)).
    destruct (Hstream src) as [Htype Hsubs].
    repeat (split; [done|]). left. by apply select_source_first.
  - exists first, (stream_of first (VideoSources.Subtitles v)).
    destruct (Hstream first) as [Htype Hsubs].
    repeat (split; [done|]). right. split; [by apply select_source_none | done].
Qed.

(** *** The resolution pipeline *)

(** What one attempt leaves in the trace: its own entry, once. *)
Lemma extractSourcesFromServer_attempts server st :
  attempts (trace (extractSourcesFromServer server st).2)
  = attempts (trace st) ++ [server].
Proof.
  unfold extractSourcesFromServer, attempts. run.
  repeat (case_match; simplify_eq/=); rewrite ?omap_app; simpl; by rewrite ?app_nil_r.
Qed.

(** Server discovery calls no extractor. *)
Lemma FetchEpisodeServersWithMediaID_attempts episodeID mediaID st :
  attempts (trace (FetchEpisodeServersWithMediaID episodeID mediaID st).2)
  = attempts (trace st).
Proof.
  unfold FetchEpisodeServersWithMediaID, attempts. run.
  repeat (case_match; simplify_eq/=); rewrite ?omap_app; simpl; by rewrite ?app_nil_r.
Qed.

(** The loop passes the servers that fail and keeps the last error. *)
Lemma try_servers_all_fail failing rest st lastErr st' lastErr' :
  all_fail failing st lastErr st' lastErr' →
  try_servers (failing ++ rest) lastErr st = try_servers rest lastErr' st'.
Proof.
  induction 1 as [| server servers st lastErr p err st1 st' lastErr' Hrun _ IH]; [done|].
  simpl. by rewrite (bind_run _ _ _ _ _ Hrun).
Qed.

Lemma all_fail_attempts failing st lastErr st' lastErr' :
  all_fail failing st lastErr st' lastErr' →
  attempts (trace st') = attempts (trace st) ++ failing.
Proof.
  induction 1 as [| server servers st lastErr p err st1 st' lastErr' Hrun _ IH].
  - by rewrite app_nil_r.
  - rewrite IH. pose proof (extractSourcesFromServer_attempts server st) as Hone.
    rewrite Hrun in Hone. simpl in Hone. by rewrite Hone, <- app_assoc.
Qed.

(** After a failure the last error is never nil again. *)
Lemma all_fail_last_error failing st lastErr st' lastErr' :
  all_fail failing st lastErr st' lastErr' →
  failing ≠ [] ∨ is_Some lastErr → is_Some lastErr'.
Proof.
  induction 1 as [| server servers st lastErr p err st1 st' lastErr' Hrun _ IH].
  - by intros [? | ?].
  - intros _. apply IH. right. eauto.
Qed.

(** The loop passes the servers that answer with no source and keeps
    the last error as it was. *)
Lemma try_servers_all_empty servers rest st lastErr st' :
  all_empty servers st st' →
  try_servers (servers ++ rest) lastErr st = try_servers rest lastErr st'.
Proof.
  induction 1 as [| server servers st v st1 st' Hrun Hlen _ IH]; [done|].
  simpl. rewrite (bind_run _ _ _ _ _ Hrun). by rewrite Hlen.
Qed.

(** An extractor that returns a nil pointer with a nil error makes the
    loop panic at [len(sources.Sources)]. *)
Lemma try_servers_nil_sources server servers lastErr st st1 :
  extractSourcesFromServer server st = (Returned (None, None), st1) →
  try_servers (server :: servers) lastErr st = (Panicked nil_dereference, st1).
Proof. intros Hrun. simpl. by rewrite (bind_run _ _ _ _ _ Hrun). Qed.

(** C1. When the first servers of the list fail in the extractor and
    the next one gives at least one source, the pipeline returns the
    sources of that server, and [extractSourcesFromServer] has been
    called for the failing servers and for that one, in order, and for
    no server after it. *)
Theorem first_server_with_sources_wins
    (episodeID mediaID : string) (st st0 st1 st2 : State W)
    (servers : slice EpisodeServer.t)
    (failing rest : list EpisodeServer.t) (server : EpisodeServer.t)
    (lastErr : option error) (v : VideoSources.t) :
  FetchEpisodeServersWithMediaID episodeID mediaID st = (Returned (servers, None), st0) →
  elems servers = failing ++ server :: rest →
  all_fail failing st0 None st1 lastErr →
  extractSourcesFromServer server st1 = (Returned (Some v, None), st2) →
  0 < len (VideoSources.Sources v) →
  FetchEpisodeSourcesWithMediaID episodeID mediaID st = (Returned (Some v, None), st2)
  ∧ attempts (trace st2) = attempts (trace st) ++ failing ++ [server].
Proof.
  intros Hservers Helems Hfail Hrun Hlen. split.
  - unfold FetchEpisodeSourcesWithMediaID. rewrite (bind_run _ _ _ _ _ Hservers).
    assert ((len servers =? 0) = false) as ->.
    { apply Z.eqb_neq. unfold len. rewrite Helems, length_app. simpl. lia. }
    rewrite Helems, (try_servers_all_fail _ _ _ _ _ _ Hfail).
    simpl. rewrite (bind_run _ _ _ _ _ Hrun).
    by apply Z.ltb_lt in Hlen as ->.
  - pose proof (extractSourcesFromServer_attempts server st1) as Hone.
    rewrite Hrun in Hone. simpl in Hone.
    rewrite Hone, (all_fail_attempts _ _ _ _ _ Hfail).
    pose proof (FetchEpisodeServersWithMediaID_attempts episodeID mediaID st) as Hzero.
    rewrite Hservers in Hzero. simpl in Hzero. by rewrite Hzero, <- app_assoc.
Qed.

(** C2. When the list is not empty and every server fails in the
    extractor, the pipeline returns no sources and an error that wraps
    the error of the last server tried. *)
Theorem all_servers_failing_returns_last_error
    (episodeID mediaID : string) (st st0 st1 st2 : State W)
    (servers : slice EpisodeServer.t)
    (front : list EpisodeServer.t) (last : EpisodeServer.t)
    (lastErr : option error) (p : ptr VideoSources.t) (err : error) :
  FetchEpisodeServersWithMediaID episodeID mediaID st = (Returned (servers, None), st0) →
  elems servers = front ++ [last] →
  all_fail front st0 None st1 lastErr →
  extractSourcesFromServer last st1 = (Returned (p, Some err), st2) →
  ∃ e,
    FetchEpisodeSourcesWithMediaID episodeID mediaID st = (Returned (None, Some e), st2)
    ∧ e = wrapError "failed to extract sources from all servers: " err
    ∧ Unwrap e = Some err
    ∧ Error e = "failed to extract sources from all servers: " +:+ Error err.
Proof.
  intros Hservers Helems Hfail Hrun.
  exists (wrapError "failed to extract sources from all servers: " err).
  split; [|done].
  unfold FetchEpisodeSourcesWithMediaID. rewrite (bind_run _ _ _ _ _ Hservers).
  assert ((len servers =? 0) = false) as ->.
  { apply Z.eqb_neq. unfold len. rewrite Helems, length_app. simpl. lia. }
  rewrite Helems, (try_servers_all_fail _ _ _ _ _ _ Hfail).
  simpl. by rewrite (bind_run _ _ _ _ _ Hrun).
Qed.

(** C3. When discovery finds no server, or every server answers with no
    error and no source, the pipeline returns a [VideoSources] whose two
    lists are empty, and a nil error. *)
Theorem no_source_anywhere_is_not_an_error
    (episodeID mediaID : string) (st st0 st1 : State W)
    (servers : slice EpisodeServer.t) :
  FetchEpisodeServersWithMediaID episodeID mediaID st = (Returned (servers, None), st0) →
  all_empty (elems servers) st0 st1 →
  FetchEpisodeSourcesWithMediaID episodeID mediaID st
  = (Returned (Some (VideoSources.mk (mk_slice []) (mk_slice [])), None), st1).
Proof.
  intros Hservers Hempty.
  unfold FetchEpisodeSourcesWithMediaID. rewrite (bind_run _ _ _ _ _ Hservers).
  destruct (Z.eqb_spec (len servers) 0) as [Hzero | Hpos].
  - assert (elems servers = []) as Hnil.
    { unfold len in Hzero. destruct (elems servers); [done | simpl in Hzero; lia]. }
    rewrite Hnil in Hempty. by inversion Hempty.
  - rewrite <- (app_nil_r (elems servers)).
    by rewrite (try_servers_all_empty _ _ _ _ _ Hempty).
Qed.

(** *** The caches and the resolution calls *)

Lemma cache_blind_ret {A} (a : A) : cache_blind (@ret W A a).
Proof. by intros sc ic st. Qed.

Lemma cache_blind_panic {A} msg : cache_blind (@panic W A msg).
Proof. by intros sc ic st. Qed.

Lemma cache_blind_bind {A B} (m : M W A) (k : A → M W B) :
  cache_blind m → (∀ a, cache_blind (k a)) → cache_blind (bind m k).
Proof.
  intros Hm Hk sc ic st. unfold bind. rewrite Hm.
  destruct (m st) as [[a | msg] st1]; simpl; [apply Hk | done].
Qed.

Lemma cache_blind_log ev : cache_blind (W:=W) (log ev).
Proof. by intros sc ic st. Qed.

Lemma cache_blind_get_BaseURL : cache_blind (W:=W) get_BaseURL.
Proof. by intros sc ic st. Qed.

Lemma cache_blind_Do req : cache_blind (Do req).
Proof.
  intros sc ic st. unfold Do. simpl. by destruct (Client_Do req (world st)).
Qed.

Lemma cache_blind_Extract name embedURL : cache_blind (Extract name embedURL).
Proof.
  intros sc ic st. unfold Extract. simpl.
  by destruct (GetExtractor_Extract name embedURL (world st)).
Qed.

(** Goes through a computation made of the operations above. *)
Ltac blind :=
  repeat first
    [ apply cache_blind_ret | apply cache_blind_panic | apply cache_blind_log
    | apply cache_blind_get_BaseURL | apply cache_blind_Do | apply cache_blind_Extract
    | apply cache_blind_bind | progress intros | case_match ].

Lemma cache_blind_FetchEpisodeServersWithMediaID episodeID mediaID :
  cache_blind (FetchEpisodeServersWithMediaID episodeID mediaID).
Proof. unfold FetchEpisodeServersWithMediaID. blind. Qed.

Lemma cache_blind_extractSourcesFromServer server :
  cache_blind (extractSourcesFromServer server).
Proof. unfold extractSourcesFromServer. blind. Qed.

Lemma cache_blind_try_servers servers lastErr : cache_blind (try_servers servers lastErr).
Proof.
  revert lastErr. induction servers as [|server servers IH]; intros lastErr; simpl.
  - blind.
  - apply cache_blind_bind; [apply cache_blind_extractSourcesFromServer|].
    intros [sources err]. destruct err; [apply IH|].
    destruct sources; [|apply cache_blind_panic].
    case_match; [apply cache_blind_ret | apply IH].
Qed.

Lemma cache_blind_FetchEpisodeSourcesWithMediaID episodeID mediaID :
  cache_blind (FetchEpisodeSourcesWithMediaID episodeID mediaID).
Proof.
  unfold FetchEpisodeSourcesWithMediaID.
  apply cache_blind_bind; [apply cache_blind_FetchEpisodeServersWithMediaID|].
  intros [servers err]. destruct err; [apply cache_blind_ret|].
  case_match; [apply cache_blind_ret | apply cache_blind_try_servers].
Qed.

Lemma cache_blind_GetSources episodeID : cache_blind (GetSources episodeID).
Proof.
  unfold GetSources. destruct (split_episodeID episodeID).
  apply cache_blind_bind; [apply cache_blind_FetchEpisodeSourcesWithMediaID|].
  intros [sources err]. apply cache_blind_ret.
Qed.

Lemma cache_blind_GetStreamURL ctx episodeID quality :
  cache_blind (GetStreamURL ctx episodeID quality).
Proof.
  unfold GetStreamURL.
  apply cache_blind_bind; [apply cache_blind_GetSources|]. blind.
Qed.

(** A resolution call starts with the request for the server list. *)
Lemma FetchEpisodeSourcesWithMediaID_fetches episodeID mediaID st :
  let base := BaseURL (self st) in
  let endpoint :=
    if Contains mediaID "movie" then base +:+ "/ajax/episode/list/" +:+ episodeID
    else base +:+ "/ajax/episode/servers/" +:+ episodeID in
  NewRequest_err endpoint = None →
  ∃ more,
    trace (FetchEpisodeSourcesWithMediaID episodeID mediaID st).2
    = trace st ++ EvDo (ajax_headers base (http.mkRequest endpoint [])) :: more.
Proof.
  intros base endpoint Hurl.
  unfold FetchEpisodeSourcesWithMediaID, bind at 1.
  assert (∃ o st0,
            FetchEpisodeServersWithMediaID episodeID mediaID st = (o, st0)
            ∧ trace st0 = trace st ++ [EvDo (ajax_headers base (http.mkRequest endpoint []))])
    as (o & st0 & -> & Htrace).
  { unfold FetchEpisodeServersWithMediaID. run. fold base. fold endpoint.
    unfold NewRequest. rewrite Hurl.
    destruct (Client_Do _ _) as [r w']. repeat (case_match; simplify_eq/=); eauto. }
  destruct o as [[servers err] | msg]; simpl.
  - destruct err; simpl; [rewrite Htrace; eauto|].
    case_match; simpl; [rewrite Htrace; eauto|].
    assert (∀ servers lastErr st, ∃ more,
              trace (try_servers servers lastErr st).2 = trace st ++ more) as Hmore.
    { clear. intros servers. induction servers as [|server servers IH]; intros lastErr st.
      - exists []. simpl. destruct lastErr; simpl; by rewrite app_nil_r.
      - assert (∃ more o st1, extractSourcesFromServer server st = (o, st1)
                              ∧ trace st1 = trace st ++ more) as (more & o & st1 & Hrun & Hst1).
        { unfold extractSourcesFromServer. run.
          repeat (case_match; simplify_eq/=); rewrite <- ?app_assoc; eauto. }
        simpl. unfold bind at 1. rewrite Hrun.
        destruct o as [[sources err] | msg]; simpl; [|eauto].
        destruct err.
        + destruct (IH (Some e) st1) as [more' ->]. rewrite Hst1, <- app_assoc. eauto.
        + destruct sources; [|simpl; eauto]. case_match; [simpl; eauto|].
          destruct (IH lastErr st1) as [more' ->]. rewrite Hst1, <- app_assoc. eauto. }
    destruct (Hmore (elems servers) None st0) as [more ->].
    rewrite Htrace, <- app_assoc. eauto.
  - rewrite Htrace. eauto.
Qed.

(** *** The trace only grows *)

Lemma appends_ret {A} (a : A) : appends (@ret W A a).
Proof. intros st. exists []. by rewrite app_nil_r. Qed.

Lemma appends_panic {A} msg : appends (@panic W A msg).
Proof. intros st. exists []. by rewrite app_nil_r. Qed.

Lemma appends_bind {A B} (m : M W A) (k : A → M W B) :
  appends m → (∀ a, appends (k a)) → appends (bind m k).
Proof.
  intros Hm Hk st. unfold bind. destruct (Hm st) as [more Hmore].
  destruct (m st) as [[a | msg] st1]; simpl in *; [|eauto].
  destruct (Hk a st1) as [more' Hmore']. exists (more ++ more').
  by rewrite Hmore', Hmore, app_assoc.
Qed.

Lemma appends_log ev : appends (W := W) (log ev).
Proof. intros st. by exists [ev]. Qed.

Lemma appends_get_BaseURL : appends (W := W) get_BaseURL.
Proof. intros st. exists []. by rewrite app_nil_r. Qed.

Lemma appends_Do req : appends (Do req).
Proof.
  intros st. unfold Do. destruct (Client_Do req (world st)). by exists [EvDo req].
Qed.

Lemma appends_Extract name embedURL : appends (Extract name embedURL).
Proof.
  intros st. unfold Extract. destruct (GetExtractor_Extract name embedURL (world st)).
  by exists [EvExtract name embedURL].
Qed.

Lemma appends_infoCache_Store id info : appends (W := W) (infoCache_Store id info).
Proof. intros st. exists []. by rewrite app_nil_r. Qed.

Lemma appends_for_range {A B} (xs : list A) (body : B → A → M W B) acc :
  (∀ acc x, appends (body acc x)) → appends (for_range xs body acc).
Proof.
  intros Hbody. revert acc. induction xs as [|x xs IH]; intros acc; simpl.
  - apply appends_ret.
  - apply appends_bind; [apply Hbody | apply IH].
Qed.

Ltac growing :=
  repeat first
    [ apply appends_ret | apply appends_panic | apply appends_log
    | apply appends_get_BaseURL | apply appends_Do | apply appends_Extract
    | apply appends_infoCache_Store
    | apply appends_bind | progress intros | case_match ].

Lemma appends_fetchEpisodeList showID : appends (fetchEpisodeList showID).
Proof.
  unfold fetchEpisodeList.
  apply appends_bind; [apply appends_get_BaseURL|]. intros base.
  destruct (NewRequest _) as [err | req]; [apply appends_ret|].
  apply appends_bind; [apply appends_Do|]. intros answer.
  repeat case_match; try apply appends_ret.
  apply appends_bind; [|intros; apply appends_ret].
  apply appends_for_range. intros acc [seasonIdx seasonSel].
  unfold fetchEpisodeList_season. growing.
Qed.

Lemma appends_GetInfo_scrape id mediaType infoURL doc :
  appends (GetInfo_scrape id mediaType infoURL doc).
Proof.
  unfold GetInfo_scrape. apply appends_bind; [|growing].
  unfold GetInfo_episodes.
  destruct (_ && _); [apply appends_ret|].
  destruct (_ && _); [|apply appends_ret].
  apply appends_bind; [apply appends_fetchEpisodeList|]. growing.
Qed.

(** From the parsed page on, [GetInfo] returns no error. *)
Lemma GetInfo_scrape_no_error id mediaType infoURL doc st r e st' :
  GetInfo_scrape id mediaType infoURL doc st ≠ (Returned (r, Some e), st').
Proof.
  unfold GetInfo_scrape. intros Hrun.
  apply bind_returned in Hrun as ([[episodes lastSeason] total] & st0 & _ & Hrun).
  revert Hrun. run. discriminate.
Qed.

(** *** The metadata caches *)

(** A call of [GetInfo] that returns a nil error returns an info, and
    that info is in the cache under the id of the call. *)
Lemma GetInfo_scrape_nil_error id mediaType infoURL doc st r st1 :
  GetInfo_scrape id mediaType infoURL doc st = (Returned (r, None), st1) →
  ∃ info, r = iface_MovieInfo (Some info) ∧ infoCache (self st1) !! id = Some info.
Proof.
  unfold GetInfo_scrape. intros Hrun.
  apply bind_returned in Hrun as ([[episodes lastSeason] total] & st0 & _ & Hrun).
  revert Hrun. run. intros [= <- <-]. eexists. split; [done|]. simpl.
  apply lookup_insert_eq.
Qed.

Lemma GetInfo_nil_error id st r st1 :
  GetInfo id st = (Returned (r, None), st1) →
  ∃ info, r = iface_MovieInfo (Some info) ∧ infoCache (self st1) !! id = Some info.
Proof.
  unfold GetInfo. run. intros Hrun.
  repeat (case_match; simplify_eq/=); eauto using GetInfo_scrape_nil_error.
Qed.

(** A cached info is returned as it is: no request, no change. *)
Lemma GetInfo_cached id info st :
  infoCache (self st) !! id = Some info →
  GetInfo id st = (Returned (iface_MovieInfo (Some info), None), st).
Proof. intros Hhit. unfold GetInfo. run. by rewrite Hhit. Qed.

Lemma Search_nil_error ctx query st results st1 :
  Search ctx query st = (Returned (results, None), st1) →
  searchCache (self st1) !! query = Some results.
Proof.
  unfold Search. run. intros Hrun.
  repeat (case_match; simplify_eq/=); try done; apply lookup_insert_eq.
Qed.

Lemma Search_cached ctx query results st :
  searchCache (self st) !! query = Some results →
  Search ctx query st = (Returned (results, None), st).
Proof. intros Hhit. unfold Search. run. by rewrite Hhit. Qed.

(** [GetMediaDetails] changes the state only through [GetInfo]. *)
Lemma GetMediaDetails_nil_error ctx id st details st1 :
  GetMediaDetails ctx id st = (Returned (details, None), st1) →
  ∃ info, GetInfo id st = (Returned (iface_MovieInfo (Some info), None), st1)
          ∧ infoCache (self st1) !! id = Some info.
Proof.
  unfold GetMediaDetails. intros Hrun.
  apply bind_returned in Hrun as ([r err] & st0 & Hinfo & Hrun).
  destruct err as [err|]; [by inversion Hrun|].
  destruct (GetInfo_nil_error _ _ _ _ Hinfo) as (info & -> & Hhit).
  revert Hrun. run. intros [= <- <-]. eauto.
Qed.

(** A call that returns an error has stored nothing, and was not
    served from the cache. *)
Lemma GetInfo_error_stores_nothing id st r e st1 :
  GetInfo id st = (Returned (r, Some e), st1) →
  self st1 = self st ∧ infoCache (self st1) !! id = None.
Proof.
  unfold GetInfo. run. intros Hrun.
  destruct (infoCache (self st) !! id) eqn:Hmiss; [discriminate|].
  repeat (case_match; simplify_eq/=); try done;
    exfalso; eapply GetInfo_scrape_no_error; eauto.
Qed.

Lemma Search_error_stores_nothing ctx query st results e st1 :
  Search ctx query st = (Returned (results, Some e), st1) →
  self st1 = self st ∧ searchCache (self st1) !! query = None.
Proof.
  unfold Search. run. intros Hrun.
  destruct (searchCache (self st) !! query) eqn:Hmiss; [discriminate|].
  by repeat (case_match; simplify_eq/=).
Qed.

(** [GetMediaDetails] fails only when [GetInfo] does, with its error,
    and ends in the state that [GetInfo] leaves. *)
Lemma GetMediaDetails_error ctx id st details e st1 :
  GetMediaDetails ctx id st = (Returned (details, Some e), st1) →
  ∃ r, GetInfo id st = (Returned (r, Some e), st1).
Proof.
  unfold GetMediaDetails. intros Hrun.
  apply bind_returned in Hrun as ([r err] & st0 & Hinfo & Hrun).
  destruct err as [err|]; [revert Hrun; run; intros [= _ <- <-]; eauto|].
  destruct (GetInfo_nil_error _ _ _ _ Hinfo) as (info & -> & _). discriminate.
Qed.

Lemma GetMediaDetails_state ctx id st :
  (GetMediaDetails ctx id st).2 = (GetInfo id st).2.
Proof.
  unfold GetMediaDetails, bind.
  destruct (GetInfo id st) as [[[r err] | msg] st1]; [|done].
  by repeat case_match.
Qed.

(** What follows a request in the trace comes after it. *)
Lemma bind_Do_trace {A} req (k : error + http.Response → M W A) st :
  (∀ r, appends (k r)) →
  ∃ more, trace (bind (Do req) k st).2 = trace st ++ EvDo req :: more.
Proof.
  intros Hk. unfold bind, Do. destruct (Client_Do req (world st)) as [r w].
  destruct (Hk r (mkState (self st) w (trace st ++ [EvDo req]))) as [more Hmore].
  exists more. rewrite Hmore. simpl. by rewrite <- app_assoc.
Qed.

(** A call of [GetInfo] that is not served from the cache sends the
    request for the first URL, if it can be made. *)
Lemma GetInfo_fetches id st :
  infoCache (self st) !! id = None →
  NewRequest_err (GetInfo_first_URL (BaseURL (self st)) id).2 = None →
  ∃ more,
    trace (GetInfo id st).2
    = trace st
      ++ EvDo (browser_headers (BaseURL (self st))
                 (http.mkRequest (GetInfo_first_URL (BaseURL (self st)) id).2 []))
         :: more.
Proof.
  intros Hmiss Hreq. unfold GetInfo.
  rewrite (bind_run _ _ st (infoCache (self st) !! id) st) by done. rewrite Hmiss.
  rewrite (bind_run _ _ st (BaseURL (self st)) st) by done.
  destruct (GetInfo_first_URL _ id) as [mediaType infoURL]. simpl in Hreq.
  unfold NewRequest at 1. rewrite Hreq.
  apply bind_Do_trace. intros r.
  apply appends_bind.
  - destruct r as [err | resp]; [|destruct (_ =? _); [apply appends_ret|]];
      (destruct (NewRequest _); [apply appends_ret|]);
      (apply appends_bind; [apply appends_Do|]); intros [err' | resp'];
      apply appends_ret.
  - intros [err | [[resp mediaType'] infoURL']]; [apply appends_ret|].
    destruct (document_of _); [apply appends_ret | apply appends_GetInfo_scrape].
Qed.

(** A search that is not served from the cache sends one request, if
    it can be made, whatever comes of it. *)
Lemma Search_fetches ctx query st :
  searchCache (self st) !! query = None →
  NewRequest_err (BaseURL (self st) +:+ "/search/" +:+ ReplaceAll query " " "-") = None →
  trace (Search ctx query st).2
  = trace st
    ++ [EvDo (browser_headers (BaseURL (self st))
                (http.mkRequest
                   (BaseURL (self st) +:+ "/search/" +:+ ReplaceAll query " " "-") []))].
Proof.
  intros Hmiss Hreq. unfold Search. run. rewrite Hmiss.
  unfold NewRequest. rewrite Hreq. by repeat (case_match; simplify_eq/=).
Qed.

(** C5, as the code has it, for each of [GetInfo], [GetMediaDetails]
    and [Search] on its own.  When the call has returned a nil error,
    its result is in the cache under the exact id or query, and the
    same call made again returns the same result from the cache: it
    sends no request and changes nothing, whatever the upstream world
    [w] has become in between.  When the call has returned an error, it
    has stored nothing (the adapter is as it was, and the id or the
    query is not in the cache), so the same call made again is not
    served from the cache: it sends its first request again whenever
    that request can be made. *)
Theorem metadata_served_from_cache
    (ctx : providers.Context) (id query : string) (st : State W) :
  (∀ r st1,
     GetInfo id st = (Returned (r, None), st1) →
     (∃ info, r = iface_MovieInfo (Some info) ∧ infoCache (self st1) !! id = Some info)
     ∧ ∀ w, GetInfo id (with_world w st1) = (Returned (r, None), with_world w st1))
  ∧ (∀ details st1,
       GetMediaDetails ctx id st = (Returned (details, None), st1) →
       (∃ info, infoCache (self st1) !! id = Some info)
       ∧ ∀ w, GetMediaDetails ctx id (with_world w st1)
              = (Returned (details, None), with_world w st1))
  ∧ (∀ results st1,
       Search ctx query st = (Returned (results, None), st1) →
       searchCache (self st1) !! query = Some results
       ∧ ∀ w, Search ctx query (with_world w st1)
              = (Returned (results, None), with_world w st1))
  ∧ (∀ r e st1,
       GetInfo id st = (Returned (r, Some e), st1) →
       let firstURL := (GetInfo_first_URL (BaseURL (self st)) id).2 in
       self st1 = self st
       ∧ infoCache (self st1) !! id = None
       ∧ ∀ w, NewRequest_err firstURL = None →
              ∃ more,
                trace (GetInfo id (with_world w st1)).2
                = trace st1
                  ++ EvDo (browser_headers (BaseURL (self st))
                             (http.mkRequest firstURL [])) :: more)
  ∧ (∀ details e st1,
       GetMediaDetails ctx id st = (Returned (details, Some e), st1) →
       let firstURL := (GetInfo_first_URL (BaseURL (self st)) id).2 in
       self st1 = self st
       ∧ infoCache (self st1) !! id = None
       ∧ ∀ w, NewRequest_err firstURL = None →
              ∃ more,
                trace (GetMediaDetails ctx id (with_world w st1)).2
                = trace st1
                  ++ EvDo (browser_headers (BaseURL (self st))
                             (http.mkRequest firstURL [])) :: more)
  ∧ (∀ results e st1,
       Search ctx query st = (Returned (results, Some e), st1) →
       let searchURL := BaseURL (self st) +:+ "/search/" +:+ ReplaceAll query " " "-" in
       self st1 = self st
       ∧ searchCache (self st1) !! query = None
       ∧ ∀ w, NewRequest_err searchURL = None →
              trace (Search ctx query (with_world w st1)).2
              = trace st1
                ++ [EvDo (browser_headers (BaseURL (self st))
                            (http.mkRequest searchURL []))]).
Proof.
  assert (∀ r e st1,
            GetInfo id st = (Returned (r, Some e), st1) →
            self st1 = self st
            ∧ infoCache (self st1) !! id = None
            ∧ ∀ w, NewRequest_err (GetInfo_first_URL (BaseURL (self st)) id).2 = None →
                   ∃ more,
                     trace (GetInfo id (with_world w st1)).2
                     = trace st1
                       ++ EvDo (browser_headers (BaseURL (self st))
                                  (http.mkRequest
                                     (GetInfo_first_URL (BaseURL (self st)) id).2 []))
                          :: more) as Hfailed.
  { intros r e st1 Hrun.
    destruct (GetInfo_error_stores_nothing _ _ _ _ _ Hrun) as [Hself Hmiss].
    split; [done|]. split; [done|]. intros w Hreq.
    pose proof (GetInfo_fetches id (with_world w st1)) as Hfetch.
    simpl in Hfetch. rewrite Hself in Hfetch. apply Hfetch; [|done].
    by rewrite <- Hself. }
  repeat apply conj.
  - intros r st1 Hrun. destruct (GetInfo_nil_error _ _ _ _ Hrun) as (info & -> & Hhit).
    split; [eauto|]. intros w. by apply GetInfo_cached.
  - intros details st1 Hrun.
    destruct (GetMediaDetails_nil_error _ _ _ _ _ Hrun) as (info & Hinfo & Hhit).
    split; [eauto|]. intros w. revert Hrun. unfold GetMediaDetails.
    rewrite (bind_run _ _ _ _ _ Hinfo).
    rewrite (bind_run _ _ _ _ _ (GetInfo_cached id info (with_world w st1) Hhit)).
    run. by intros [= <-].
  - intros results st1 Hrun. pose proof (Search_nil_error _ _ _ _ _ Hrun) as Hquery.
    split; [done|]. intros w. by apply Search_cached.
  - exact Hfailed.
  - intros details e st1 Hrun. cbv zeta.
    destruct (GetMediaDetails_error _ _ _ _ _ _ Hrun) as [r Hinfo].
    destruct (Hfailed _ _ _ Hinfo) as (Hself & Hmiss & Hagain).
    split; [done|]. split; [done|]. intros w Hreq.
    rewrite GetMediaDetails_state. by apply Hagain.
  - intros results e st1 Hrun. cbv zeta.
    destruct (Search_error_stores_nothing _ _ _ _ _ _ Hrun) as [Hself Hmiss].
    split; [done|]. split; [done|]. intros w Hreq.
    pose proof (Search_fetches ctx query (with_world w st1)) as Hfetch.
    simpl in Hfetch. rewrite Hself in Hfetch. apply Hfetch; [|done].
    by rewrite <- Hself.
Qed.

(** *** The integers of an info *)

Lemma yields_ret {A} (a : A) (P : A → Prop) : P a → yields (@ret W A a) P.
Proof. intros Ha st a' st'. unfold ret. by intros [= <- _]. Qed.

Lemma yields_bind {A B} (m : M W A) (k : A → M W B) (P : A → Prop) (Q : B → Prop) :
  yields m P → (∀ a, P a → yields (k a) Q) → yields (bind m k) Q.
Proof.
  intros Hm Hk st b st' (a & st1 & Hrun & Hrest)%bind_returned.
  eapply Hk; [by eapply Hm | done].
Qed.

Lemma yields_for_range {A B} (xs : list A) (body : B → A → M W B) (P : B → Prop) acc :
  (∀ acc x, P acc → yields (body acc x) P) → P acc → yields (for_range xs body acc) P.
Proof.
  intros Hbody. revert acc. induction xs as [|x xs IH]; intros acc Hacc; simpl.
  - by apply yields_ret.
  - eapply yields_bind; [by apply Hbody | apply IH].
Qed.

Lemma yields_any {A} (m : M W A) : yields m (fun _ => True).
Proof. by intros st a st' _. Qed.

Lemma cache_blind_for_range {A B} (xs : list A) (body : B → A → M W B) acc :
  (∀ acc x, cache_blind (body acc x)) → cache_blind (for_range xs body acc).
Proof.
  intros Hbody. revert acc. induction xs as [|x xs IH]; intros acc; simpl.
  - apply cache_blind_ret.
  - apply cache_blind_bind; [apply Hbody | apply IH].
Qed.

(** A computation that is blind to the caches leaves them as they are. *)
Lemma cache_blind_caches {A} (m : M W A) st :
  cache_blind m →
  searchCache (self (m st).2) = searchCache (self st)
  ∧ infoCache (self (m st).2) = infoCache (self st).
Proof.
  intros Hm.
  specialize (Hm (searchCache (self st)) (infoCache (self st)) st).
  assert (with_caches (searchCache (self st)) (infoCache (self st)) st = st) as Hst
    by (by destruct st as [[] ? ?]).
  rewrite Hst in Hm. apply (f_equal snd) in Hm. simpl in Hm.
  rewrite Hm. by split.
Qed.

Lemma fetchEpisodeList_seasonNumber_int seasonIdx seasonSel :
  int_range (fetchEpisodeList_seasonNumber seasonIdx seasonSel).
Proof.
  unfold fetchEpisodeList_seasonNumber.
  repeat case_match; eauto using Atoi_int_range, wrap_int_range.
Qed.

Lemma fetchEpisodeList_episode_ints seasonNumber items episodes :
  int_range seasonNumber → season_ints episodes →
  season_ints (fold_left (fetchEpisodeList_episode seasonNumber) items episodes).
Proof.
  intros Hn. revert episodes.
  induction items as [|[epIdx epSel] items IH]; intros episodes Hacc; [done|].
  simpl. apply IH. destruct (Attr epSel "data-id"); [|done].
  unfold season_ints, append. simpl. apply Forall_app. split; [done|].
  constructor; [done | constructor].
Qed.

Lemma fetchEpisodeList_season_ints base episodes item :
  season_ints episodes → yields (fetchEpisodeList_season base episodes item) season_ints.
Proof.
  intros Hacc. destruct item as [seasonIdx seasonSel]. unfold fetchEpisodeList_season.
  destruct (Attr seasonSel "data-id"); [|by apply yields_ret].
  destruct (NewRequest _) as [err | req]; [by apply yields_ret|].
  eapply yields_bind; [apply yields_any|]. intros answer _.
  repeat case_match; apply yields_ret; try done.
  apply fetchEpisodeList_episode_ints; [apply fetchEpisodeList_seasonNumber_int | done].
Qed.

Lemma fetchEpisodeList_ints showID :
  yields (fetchEpisodeList showID) (fun r => season_ints r.1).
Proof.
  unfold fetchEpisodeList.
  eapply yields_bind; [apply yields_any|]. intros base _.
  destruct (NewRequest _) as [err | req]; [by apply yields_ret; constructor|].
  eapply yields_bind; [apply yields_any|]. intros answer _.
  repeat case_match; try (by apply yields_ret; constructor).
  eapply yields_bind; [|intros episodes Hints; by apply yields_ret].
  apply yields_for_range; [|constructor].
  intros acc x Hacc. by apply fetchEpisodeList_season_ints.
Qed.

Lemma GetInfo_episodes_ints mediaType dataID title cleanMediaID :
  yields (GetInfo_episodes mediaType dataID title cleanMediaID)
         (fun r => season_ints r.1.1).
Proof.
  unfold GetInfo_episodes.
  destruct (_ && _); [apply yields_ret; constructor; [apply int_range_0 | constructor]|].
  destruct (_ && _); [|by apply yields_ret; constructor].
  eapply yields_bind; [apply fetchEpisodeList_ints|].
  intros [episodes err] Hints. simpl in Hints.
  destruct err; [by apply yields_ret; constructor|].
  destruct (0 <? len episodes); [|by apply yields_ret; constructor].
  destruct (GetInfo_lastSeason _). apply yields_ret. simpl.
  unfold season_ints in *. simpl. apply Forall_map. simpl. done.
Qed.

Lemma cache_blind_fetchEpisodeList showID : cache_blind (fetchEpisodeList showID).
Proof.
  unfold fetchEpisodeList.
  apply cache_blind_bind; [apply cache_blind_get_BaseURL|]. intros base.
  destruct (NewRequest _) as [err | req]; [apply cache_blind_ret|].
  apply cache_blind_bind; [apply cache_blind_Do|]. intros answer.
  repeat case_match; try apply cache_blind_ret.
  apply cache_blind_bind; [|intros; apply cache_blind_ret].
  apply cache_blind_for_range. intros acc [seasonIdx seasonSel].
  unfold fetchEpisodeList_season. blind.
Qed.

Lemma cache_blind_GetInfo_episodes mediaType dataID title cleanMediaID :
  cache_blind (GetInfo_episodes mediaType dataID title cleanMediaID).
Proof.
  unfold GetInfo_episodes.
  destruct (_ && _); [apply cache_blind_ret|].
  destruct (_ && _); [|apply cache_blind_ret].
  apply cache_blind_bind; [apply cache_blind_fetchEpisodeList|]. blind.
Qed.

Lemma cached_ints_same (st st' : State W) :
  infoCache (self st') = infoCache (self st) → cached_ints st → cached_ints st'.
Proof. unfold cached_ints. by intros ->. Qed.

Lemma GetInfo_scrape_cached_ints id mediaType infoURL doc st :
  cached_ints st → cached_ints (GetInfo_scrape id mediaType infoURL doc st).2.
Proof.
  intros Hst. unfold GetInfo_scrape, bind at 1.
  destruct (GetInfo_episodes _ _ _ _ st) as [[[[episodes lastSeason] total] | msg] st0] eqn:Hrun.
  - pose proof (GetInfo_episodes_ints _ _ _ _ _ _ _ Hrun) as Hints. simpl in Hints.
    match type of Hrun with
    | ?m st = _ =>
        pose proof (cache_blind_caches m st ltac:(apply cache_blind_GetInfo_episodes))
          as [_ Hself]
    end.
    rewrite Hrun in Hself. simpl in Hself.
    run. intros id' info'. simpl. rewrite Hself.
    destruct (decide (id = id')) as [<- | Hne].
    + rewrite lookup_insert_eq. by intros [= <-].
    + rewrite lookup_insert_ne by done. apply Hst.
  - match type of Hrun with
    | ?m st = _ =>
        pose proof (cache_blind_caches m st ltac:(apply cache_blind_GetInfo_episodes))
          as [_ Hself]
    end.
    rewrite Hrun in Hself. by apply (cached_ints_same st).
Qed.

(** [GetInfo] keeps the integers of the cache in range. *)
Lemma GetInfo_cached_ints id st : cached_ints st → cached_ints (GetInfo id st).2.
Proof.
  intros Hst. unfold GetInfo. run.
  repeat (case_match; simplify_eq/=); try done;
    try (apply GetInfo_scrape_cached_ints); by apply (cached_ints_same st).
Qed.

(** *** What the caches receive *)

(** [GetInfo] stores at most the info it returns, under the id of the
    call, and leaves the search cache alone. *)
Lemma GetInfo_scrape_stores id mediaType infoURL doc st :
  let run := GetInfo_scrape id mediaType infoURL doc st in
  searchCache (self run.2) = searchCache (self st)
  ∧ (infoCache (self run.2) = infoCache (self st)
     ∨ ∃ info, run.1 = Returned (iface_MovieInfo (Some info), None)
               ∧ infoCache (self run.2) = <[id := info]> (infoCache (self st))).
Proof.
  cbv zeta. unfold GetInfo_scrape. run.
  destruct (GetInfo_episodes _ _ _ _ st) as [[[[episodes lastSeason] total] | msg] st0] eqn:Hrun;
    match type of Hrun with
    | ?m st = _ =>
        pose proof (cache_blind_caches m st ltac:(apply cache_blind_GetInfo_episodes))
          as [Hsearch Hinfo]
    end;
    rewrite Hrun in Hsearch, Hinfo; simpl in *.
  - split; [done|]. right. eexists. split; [done|]. by rewrite Hinfo.
  - auto.
Qed.

Lemma GetInfo_stores id st :
  let run := GetInfo id st in
  searchCache (self run.2) = searchCache (self st)
  ∧ (infoCache (self run.2) = infoCache (self st)
     ∨ ∃ info, run.1 = Returned (iface_MovieInfo (Some info), None)
               ∧ infoCache (self run.2) = <[id := info]> (infoCache (self st))).
Proof.
  cbv zeta. unfold GetInfo. run.
  repeat (case_match; simplify_eq/=); auto;
    match goal with
    | |- context [GetInfo_scrape ?id ?mediaType ?infoURL ?doc ?st0] =>
        apply (GetInfo_scrape_stores id mediaType infoURL doc st0)
    end.
Qed.

(** [Search] stores at most the results it returns, under the query of
    the call, and leaves the info cache alone. *)
Lemma Search_stores ctx query st :
  let run := Search ctx query st in
  infoCache (self run.2) = infoCache (self st)
  ∧ (searchCache (self run.2) = searchCache (self st)
     ∨ ∃ results, run.1 = Returned (results, None)
                  ∧ searchCache (self run.2) = <[query := results]> (searchCache (self st))).
Proof.
  cbv zeta. unfold Search. run.
  repeat (case_match; simplify_eq/=); eauto.
Qed.

(** C6. The resolution calls neither read nor write the two caches:
    [GetSources], [FetchEpisodeSourcesWithMediaID],
    [extractSourcesFromServer] and [GetStreamURL] end the same way
    whatever the caches hold, and leave them as they were.  The caches
    receive nothing but what [Search] and [GetInfo] return, search
    results under the query and a movie info under the id, so no stream
    URL is kept, and every resolution call asks the site again: it
    sends the request for the server list whenever that request can be
    built. *)
Theorem resolution_never_cached :
  (∀ episodeID, cache_blind (GetSources episodeID))
  ∧ (∀ episodeID mediaID, cache_blind (FetchEpisodeSourcesWithMediaID episodeID mediaID))
  ∧ (∀ server, cache_blind (extractSourcesFromServer server))
  ∧ (∀ ctx episodeID quality, cache_blind (GetStreamURL ctx episodeID quality))
  ∧ (∀ ctx query (st : State W),
       let run := Search ctx query st in
       infoCache (self run.2) = infoCache (self st)
       ∧ (searchCache (self run.2) = searchCache (self st)
          ∨ ∃ results, run.1 = Returned (results, None)
                       ∧ searchCache (self run.2)
                         = <[query := results]> (searchCache (self st))))
  ∧ (∀ id (st : State W),
       let run := GetInfo id st in
       searchCache (self run.2) = searchCache (self st)
       ∧ (infoCache (self run.2) = infoCache (self st)
          ∨ ∃ info, run.1 = Returned (iface_MovieInfo (Some info), None)
                    ∧ infoCache (self run.2) = <[id := info]> (infoCache (self st))))
  ∧ (∀ episodeID mediaID (st : State W),
       let base := BaseURL (self st) in
       let endpoint :=
         if Contains mediaID "movie" then base +:+ "/ajax/episode/list/" +:+ episodeID
         else base +:+ "/ajax/episode/servers/" +:+ episodeID in
       NewRequest_err endpoint = None →
       ∃ more,
         trace (FetchEpisodeSourcesWithMediaID episodeID mediaID st).2
         = trace st ++ EvDo (ajax_headers base (http.mkRequest endpoint [])) :: more).
Proof.
  split; [|split; [|split; [|split; [|split; [|split]]]]].
  - apply cache_blind_GetSources.
  - apply cache_blind_FetchEpisodeSourcesWithMediaID.
  - apply cache_blind_extractSourcesFromServer.
  - apply cache_blind_GetStreamURL.
  - apply Search_stores.
  - apply GetInfo_stores.
  - apply FetchEpisodeSourcesWithMediaID_fetches.
Qed.


(** *** Season ids *)

(** The id [mediaID|n] decodes to the media id and to [n]. *)
Lemma GetEpisodes_target_season_id mediaID n :
  Contains mediaID "|" = false → int_range n →
  GetEpisodes_target (season_id mediaID n) = (mediaID, n).
Proof.
  intros Hfree Hn. unfold GetEpisodes_target, season_id.
  rewrite Contains_app_pipe, Hfree. simpl.
  rewrite Split_two by (done || apply itoa_pipe_free). simpl.
  by rewrite Atoi_itoa.
Qed.

(** An id without the separator is the media id, in season 1. *)
Lemma GetEpisodes_target_plain mediaID :
  Contains mediaID "|" = false → GetEpisodes_target mediaID = (mediaID, 1).
Proof. intros Hfree. unfold GetEpisodes_target. by rewrite Hfree. Qed.

Lemma GetSeasons_collect_encoded mediaID episodes :
  Forall (fun ep => int_range (Episode.Season ep)) episodes →
  Forall (encoded mediaID) (elems (GetSeasons_collect mediaID episodes).2).
Proof.
  unfold GetSeasons_collect.
  assert (Forall (encoded mediaID) (elems (∅ : gmap Z bool, @nil_slice providers.Season.t).2))
    as Hacc by constructor.
  revert Hacc. generalize (∅ : gmap Z bool, @nil_slice providers.Season.t).
  induction episodes as [|ep episodes IH]; intros [seasonsMap seasons] Hacc Hints; [done|].
  apply Forall_cons in Hints as [Hep Hints]. cbn [fold_left].
  apply IH; [|done]. unfold GetSeasons_step.
  destruct (negb _); [|done].
  unfold append. simpl. apply Forall_app. split; [done|].
  constructor; [|constructor]. split; [done|]. simpl.
  destruct (Episode.Season ep =? 0); [apply int_range_1 | done].
Qed.

Lemma GetSeasons_swap_Forall (P : providers.Season.t → Prop) i j seasons :
  Forall P seasons → Forall P (GetSeasons_swap i j seasons).
Proof.
  intros Hall. unfold GetSeasons_swap.
  destruct (seasons !! i) as [a|] eqn:Hi; [|done].
  destruct (seasons !! j) as [b|] eqn:Hj; [|done].
  destruct (_ <? _); [|done].
  apply Forall_insert; [apply Forall_insert; [done|] |];
    eapply Forall_lookup_1; eauto.
Qed.

(** Sorting moves the seasons and changes none. *)
Lemma GetSeasons_sort_Forall (P : providers.Season.t → Prop) seasons :
  Forall P seasons → Forall P (GetSeasons_sort seasons).
Proof.
  unfold GetSeasons_sort. generalize (length seasons). intros n.
  generalize (seq 0 n). intros outer. revert seasons.
  induction outer as [|i outer IHouter]; intros seasons Hall; [done|].
  simpl. apply IHouter.
  generalize (seq (S i) (n - S i)). intros inner. revert seasons Hall.
  induction inner as [|j inner IHinner]; intros seasons Hall; [done|].
  simpl. apply IHinner. by apply GetSeasons_swap_Forall.
Qed.

Lemma GetSeasons_swap_elem (x : providers.Season.t) i j seasons :
  x ∈ seasons → x ∈ GetSeasons_swap i j seasons.
Proof.
  intros Hx. unfold GetSeasons_swap.
  destruct (seasons !! i) as [a|] eqn:Hi; [|done].
  destruct (seasons !! j) as [b|] eqn:Hj; [|done].
  destruct (_ <? _); [|done].
  apply list_elem_of_lookup in Hx as [k Hk]. apply list_elem_of_lookup.
  pose proof (lookup_lt_Some _ _ _ Hi) as Hilt.
  pose proof (lookup_lt_Some _ _ _ Hj) as Hjlt.
  destruct (decide (k = i)) as [-> | Hki].
  - exists j. rewrite list_lookup_insert_eq by (by rewrite length_insert). congruence.
  - destruct (decide (k = j)) as [-> | Hkj].
    + exists i. rewrite list_lookup_insert_ne by done.
      rewrite list_lookup_insert_eq by done. congruence.
    + exists k. by rewrite !list_lookup_insert_ne by done.
Qed.

Lemma GetSeasons_sort_elem (x : providers.Season.t) seasons :
  x ∈ seasons → x ∈ GetSeasons_sort seasons.
Proof.
  unfold GetSeasons_sort. generalize (length seasons). intros n.
  generalize (seq 0 n). intros outer. revert seasons.
  induction outer as [|i outer IHouter]; intros seasons Hx; [done|].
  simpl. apply IHouter.
  generalize (seq (S i) (n - S i)). intros inner. revert seasons Hx.
  induction inner as [|j inner IHinner]; intros seasons Hx; [done|].
  simpl. apply IHinner. by apply GetSeasons_swap_elem.
Qed.

(** One turn of the loop keeps the seasons it has, keeps the marks
    right, and leaves a season with the number of the episode. *)
Lemma GetSeasons_step_complete mediaID acc ep :
  marked_seasons acc →
  marked_seasons (GetSeasons_step mediaID acc ep)
  ∧ (∀ s, s ∈ elems acc.2 → s ∈ elems (GetSeasons_step mediaID acc ep).2)
  ∧ ∃ s, s ∈ elems (GetSeasons_step mediaID acc ep).2
         ∧ providers.Season.Number s
           = (if Episode.Season ep =? 0 then 1 else Episode.Season ep).
Proof.
  destruct acc as [seasonsMap seasons]. intros Hmarked. unfold GetSeasons_step.
  set (sNum := if Episode.Season ep =? 0 then 1 else Episode.Season ep).
  destruct (default false (seasonsMap !! sNum)) eqn:Hold; cbn [negb].
  - split; [done|]. split; [done|]. by apply Hmarked.
  - set (s' := providers.Season.mk _ _ _).
    assert (s' ∈ elems (append seasons s')) as Hnew
      by (apply elem_of_app; right; apply list_elem_of_here).
    assert (∀ s, s ∈ elems seasons → s ∈ elems (append seasons s')) as Hgrows
      by (intros s Hs; apply elem_of_app; by left).
    split; [|split; [done | by exists s']].
    intros n. simpl. destruct (decide (sNum = n)) as [<- | Hne].
    + intros _. by exists s'.
    + rewrite lookup_insert_ne by done. intros (s & Hs & Hnum)%Hmarked. eauto.
Qed.

(** The loop of [GetSeasons] gives a season to the number of every
    episode, 0 counting as 1. *)
Lemma GetSeasons_loop_complete mediaID episodes acc :
  marked_seasons acc →
  (∀ s, s ∈ elems acc.2 → s ∈ elems (fold_left (GetSeasons_step mediaID) episodes acc).2)
  ∧ ∀ ep, ep ∈ episodes →
      ∃ s, s ∈ elems (fold_left (GetSeasons_step mediaID) episodes acc).2
           ∧ providers.Season.Number s
             = (if Episode.Season ep =? 0 then 1 else Episode.Season ep).
Proof.
  revert acc. induction episodes as [|ep' episodes IH]; intros acc Hmarked.
  - split; [done|]. intros ep Hep. by apply elem_of_nil in Hep.
  - cbn [fold_left].
    destruct (GetSeasons_step_complete mediaID acc ep' Hmarked) as (Hmarked' & Hgrows & Hnew).
    destruct (IH _ Hmarked') as [Hkeeps Hrest].
    split; [by auto|].
    intros ep [-> | Hep]%elem_of_cons; [|by apply Hrest].
    destruct Hnew as (s & Hs & Hnum). eauto.
Qed.

Lemma GetSeasons_collect_complete mediaID episodes ep :
  ep ∈ episodes →
  ∃ s, s ∈ elems (GetSeasons_collect mediaID episodes).2
       ∧ providers.Season.Number s
         = (if Episode.Season ep =? 0 then 1 else Episode.Season ep).
Proof.
  apply GetSeasons_loop_complete. intros n. simpl. by rewrite lookup_empty.
Qed.

(** C7. The season id round-trips.  For a media id without ['|']: the
    id [mediaID|n] of every [int] [n] decodes in [GetEpisodes] to the
    media id and to [n]; the media id alone decodes to itself and to
    season 1; every season that [GetSeasons] returns has the id
    [mediaID|n] for its number [n] (the media id alone, with number 1,
    when the info has no episode), from which [GetEpisodes] goes on
    with the media id and the number of that season; and the number of
    every episode of the info (0 counting as 1) has its season in what
    [GetSeasons] returns. *)
Theorem season_id_round_trip
    (ctx : providers.Context) (mediaID : string) (st st' : State W)
    (seasons : slice providers.Season.t) :
  Contains mediaID "|" = false →
  cached_ints st →
  GetSeasons ctx mediaID st = (Returned (seasons, None), st') →
  (∀ n, int_range n →
        GetEpisodes_target (season_id mediaID n) = (mediaID, n)
        ∧ GetEpisodes ctx (season_id mediaID n) = GetEpisodes_of mediaID n)
  ∧ GetEpisodes_target mediaID = (mediaID, 1)
  ∧ Forall
      (fun s =>
         (providers.Season.ID s = season_id mediaID (providers.Season.Number s)
          ∨ (providers.Season.ID s = mediaID ∧ providers.Season.Number s = 1))
         ∧ GetEpisodes_target (providers.Season.ID s) = (mediaID, providers.Season.Number s)
         ∧ GetEpisodes ctx (providers.Season.ID s)
           = GetEpisodes_of mediaID (providers.Season.Number s))
      (elems seasons)
  ∧ (∃ info,
       infoCache (self st') !! mediaID = Some info
       ∧ ∀ ep, ep ∈ elems (MovieInfo.Episodes info) →
           ∃ s, s ∈ elems seasons
                ∧ providers.Season.Number s
                  = (if Episode.Season ep =? 0 then 1 else Episode.Season ep)).
Proof.
  intros Hfree Hints Hrun.
  assert (∀ id n, GetEpisodes_target id = (mediaID, n) →
                  GetEpisodes ctx id = GetEpisodes_of mediaID n) as Hgoes.
  { intros id n Htarget. unfold GetEpisodes. by rewrite Htarget. }
  split; [|split].
  - intros n Hn. pose proof (GetEpisodes_target_season_id _ _ Hfree Hn). auto.
  - by apply GetEpisodes_target_plain.
  - revert Hrun. unfold GetSeasons. intros Hrun.
    apply bind_returned in Hrun as ([r err] & st1 & Hinfo & Hrun).
    destruct err as [err|]; [by inversion Hrun|].
    destruct (GetInfo_nil_error _ _ _ _ Hinfo) as (info & -> & Hhit).
    pose proof (GetInfo_cached_ints mediaID st Hints) as Hints1.
    rewrite Hinfo in Hints1. specialize (Hints1 _ _ Hhit).
    destruct (Z.eqb_spec (len (MovieInfo.Episodes info)) 0) as [Hnone | Hsome].
    + revert Hrun. run. intros [= <- <-]. split.
      * constructor; [|constructor]. simpl.
        pose proof (GetEpisodes_target_plain _ Hfree). auto.
      * exists info. split; [done|]. intros ep Hep.
        unfold len in Hnone. destruct (elems (MovieInfo.Episodes info));
          [by apply elem_of_nil in Hep | simpl in Hnone; lia].
    + pose proof (GetSeasons_collect_encoded mediaID _ Hints1) as Hencoded.
      pose proof (GetSeasons_collect_complete mediaID (elems (MovieInfo.Episodes info)))
        as Hcomplete.
      destruct (GetSeasons_collect _ _) as [seasonsMap collected].
      simpl in Hencoded, Hcomplete.
      assert (st' = st1
              ∧ Forall (encoded mediaID) (elems seasons)
              ∧ ∀ s, s ∈ elems collected → s ∈ elems seasons) as (-> & Hseasons & Hkept).
      { revert Hrun. run. intros [= <- <-]. split; [done|].
        destruct collected; [done|]. simpl.
        split; [by apply GetSeasons_sort_Forall | intros s; apply GetSeasons_sort_elem]. }
      split.
      * eapply Forall_impl; [exact Hseasons|].
        intros s [Hid Hn]. simpl.
        assert (GetEpisodes_target (providers.Season.ID s)
                = (mediaID, providers.Season.Number s)) as Htarget
          by (rewrite Hid; by apply GetEpisodes_target_season_id).
        auto.
      * exists info. split; [done|]. intros ep Hep.
        destruct (Hcomplete ep Hep) as (s & Hs & Hnum). eauto.
Qed.

End Facts.

(** ** The registry *)

Section RegistryFacts.
Context {LP : Type} `{!registry.PluginHost LP}.

Import registry.

Lemma Load_file_calls cfg files r loaded :
  (fold_left (Load_file cfg) files (r, loaded)).2
  = loaded ++ (plugin_path <$> filter (fun file => is_plugin_file file = true) files).
Proof.
  revert r loaded. induction files as [|file files IH]; intros r loaded; simpl.
  - by rewrite app_nil_r.
  - destruct (is_plugin_file file) eqn:Hfile.
    + rewrite IH, filter_cons_True by done. by rewrite <- app_assoc.
    + rewrite IH, filter_cons_False; [done | by rewrite Hfile].
Qed.

Lemma register_keeps name settings localFactory mediaType (r : Registry LP) other :
  is_Some (providers_ r !! other) →
  is_Some (providers_ (register name settings localFactory mediaType r) !! other).
Proof.
  intros Hother. unfold register.
  repeat (case_match; simpl; try done);
    (destruct (decide (name = other)) as [-> | Hne];
       [rewrite lookup_insert_eq; eauto | by rewrite lookup_insert_ne]).
Qed.

Lemma register_other name settings localFactory mediaType (r : Registry LP) other :
  other ≠ name →
  providers_ (register name settings localFactory mediaType r) !! other
  = providers_ r !! other.
Proof.
  intros Hother. unfold register.
  repeat (case_match; simpl; try done); by rewrite lookup_insert_ne.
Qed.

Lemma Load_file_keeps cfg files acc other :
  is_Some (providers_ acc.1 !! other) →
  is_Some (providers_ (fold_left (Load_file cfg) files acc).1 !! other).
Proof.
  revert acc. induction files as [|file files IH]; intros [r loaded] Hother; [done|].
  cbn [fold_left]. apply IH. unfold Load_file.
  destruct (is_plugin_file file); [|done]. simpl. by apply register_keeps.
Qed.

(** The files after a plugin leave its name alone when no plugin among
    them has that name. *)
Lemma Load_file_others cfg files acc name :
  Forall (fun file =>
            is_plugin_file file = true →
            lp_Name (luaprovider_New (plugin_path file)) ≠ name) files →
  providers_ (fold_left (Load_file cfg) files acc).1 !! name = providers_ acc.1 !! name.
Proof.
  intros Hfiles. revert acc.
  induction Hfiles as [|file files Hfile _ IH]; intros [r loaded]; [done|].
  cbn [fold_left]. rewrite IH. unfold Load_file.
  destruct (is_plugin_file file); [|done]. simpl.
  apply register_other. intros Heq. by apply Hfile.
Qed.

(** The plugin file that no later plugin file takes the name of holds
    its name at the end of the loop. *)
Lemma Load_file_last cfg before file after acc :
  config.Enabled (config.Lua (config.Providers cfg)) = true →
  config.Mode (config.Lua (config.Providers cfg)) ≠ "remote" →
  is_plugin_file file = true →
  Forall (fun later =>
            is_plugin_file later = true →
            lp_Name (luaprovider_New (plugin_path later))
            ≠ lp_Name (luaprovider_New (plugin_path file))) after →
  providers_ (fold_left (Load_file cfg) (before ++ file :: after) acc).1
    !! lp_Name (luaprovider_New (plugin_path file))
  = Some (LuaPlugin (luaprovider_New (plugin_path file))).
Proof.
  intros Henabled Hlocal Hfile Hafter.
  rewrite fold_left_app. cbn [fold_left].
  rewrite Load_file_others by done.
  destruct (fold_left _ before _) as [r' loaded].
  unfold Load_file. rewrite Hfile. simpl.
  unfold register. rewrite Henabled. simpl.
  destruct (String.eqb_spec (config.Mode (config.Lua (config.Providers cfg))) "remote");
    [done|].
  simpl. by rewrite lookup_insert_eq.
Qed.

(** C8, as the code has it. [Load] registers the known providers and
    then scans the plugin directory.  When the directory cannot be
    read, the error is dropped: the result is the registry of the known
    providers, no plugin is constructed, and nothing tells this case
    from that of an empty directory.  When it can be read,
    [luaprovider.New] is called once for each entry that is not a
    directory and has the extension [.lua], in the order of the
    listing, whatever the configuration; the names that the known
    providers hold are still held; and, with Lua providers enabled in
    local mode, the adapter constructed from a plugin file is the one
    registered under the name it gives, unless a later plugin file of
    the listing gives the same name. *)
Theorem Load_scans_plugin_directory (cfg : config.Config) (r : Registry LP) :
  (∀ err,
     ReadDir luaDir = inl err →
     Load cfg r = (register_known cfg r, [])
     ∧ Load cfg r = Load_with (inr []) cfg r)
  ∧ (∀ files,
       ReadDir luaDir = inr files →
       (Load cfg r).2
       = plugin_path <$> filter (fun file => is_plugin_file file = true) files
       ∧ (∀ name,
            is_Some (providers_ (register_known cfg r) !! name) →
            is_Some (providers_ (Load cfg r).1 !! name))
       ∧ (config.Enabled (config.Lua (config.Providers cfg)) = true →
          config.Mode (config.Lua (config.Providers cfg)) ≠ "remote" →
          ∀ before file after,
            files = before ++ file :: after →
            is_plugin_file file = true →
            Forall (fun later =>
                      is_plugin_file later = true →
                      lp_Name (luaprovider_New (plugin_path later))
                      ≠ lp_Name (luaprovider_New (plugin_path file))) after →
            Get (lp_Name (luaprovider_New (plugin_path file))) (Load cfg r).1
            = (Some (LuaPlugin (luaprovider_New (plugin_path file))), None))).
Proof.
  unfold Load. split.
  - intros err ->. done.
  - intros files ->. unfold Load_with. split; [by rewrite Load_file_calls|]. split.
    + intros name Hname. by apply Load_file_keeps.
    + intros Henabled Hlocal before file after -> Hfile Hafter.
      unfold Get. by rewrite Load_file_last.
Qed.

End RegistryFacts.

(** ** The properties on the test site *)

Section OnTheSite.

Import types sflix testdata.

(** The first server does not answer, the second has two sources: the
    third is not asked. *)
Lemma first_server_with_sources_wins_on_the_site :
  let discovered := (FetchEpisodeServersWithMediaID "101" the_show (fresh site)).2 in
  let after_upcloud := (extractSourcesFromServer upcloud discovered).2 in
  let after_vidcloud := (extractSourcesFromServer vidcloud after_upcloud).2 in
  FetchEpisodeSourcesWithMediaID "101" the_show (fresh site)
  = (Returned (Some two_sources, None), after_vidcloud)
  ∧ attempts (trace after_vidcloud)
    = attempts (trace (fresh site)) ++ [upcloud] ++ [vidcloud].
Proof.
  intros discovered after_upcloud after_vidcloud.
  apply (first_server_with_sources_wins "101" the_show (fresh site)
           discovered after_upcloud after_vidcloud
           (mk_slice [upcloud; vidcloud; akcloud]) [upcloud] [akcloud] vidcloud
           (Some (wrapError "failed to fetch embed URL: " refused)) two_sources).
  - reflexivity.
  - reflexivity.
  - apply (all_fail_cons upcloud [] discovered None None
             (wrapError "failed to fetch embed URL: " refused) after_upcloud);
      [reflexivity | apply all_fail_nil].
  - reflexivity.
  - reflexivity.
Defined.

(** Both servers of episode 102 fail: the error of the second one is
    the one returned. *)
Lemma all_servers_failing_on_the_site :
  let discovered := (FetchEpisodeServersWithMediaID "102" the_show (fresh site)).2 in
  let after_first :=
    (extractSourcesFromServer (EpisodeServer.mk "upcloud" "f1") discovered).2 in
  let after_second :=
    (extractSourcesFromServer (EpisodeServer.mk "vidcloud" "f2") after_first).2 in
  ∃ e,
    FetchEpisodeSourcesWithMediaID "102" the_show (fresh site)
    = (Returned (None, Some e), after_second)
    ∧ e = wrapError "failed to extract sources from all servers: "
            (errorString "no embed link found in response")
    ∧ Unwrap e = Some (errorString "no embed link found in response")
    ∧ Error e = "failed to extract sources from all servers: "
                +:+ Error (errorString "no embed link found in response").
Proof.
  intros discovered after_first after_second.
  apply (all_servers_failing_returns_last_error "102" the_show (fresh site)
           discovered after_first after_second
           (mk_slice [EpisodeServer.mk "upcloud" "f1"; EpisodeServer.mk "vidcloud" "f2"])
           [EpisodeServer.mk "upcloud" "f1"] (EpisodeServer.mk "vidcloud" "f2")
           (Some (wrapError "failed to parse sources JSON: "
                    (errorString "invalid character looking for beginning of value")))
           None (errorString "no embed link found in response")).
  - reflexivity.
  - reflexivity.
  - apply (all_fail_cons (EpisodeServer.mk "upcloud" "f1") [] discovered None None
             (wrapError "failed to parse sources JSON: "
                (errorString "invalid character looking for beginning of value"))
             after_first);
      [reflexivity | apply all_fail_nil].
  - reflexivity.
Defined.

(** Both servers of episode 103 answer with no source. *)
Lemma no_source_anywhere_on_the_site :
  let discovered := (FetchEpisodeServersWithMediaID "103" the_show (fresh site)).2 in
  let after_first :=
    (extractSourcesFromServer (EpisodeServer.mk "upcloud" "e1") discovered).2 in
  let after_second :=
    (extractSourcesFromServer (EpisodeServer.mk "vidcloud" "e2") after_first).2 in
  FetchEpisodeSourcesWithMediaID "103" the_show (fresh site)
  = (Returned (Some (VideoSources.mk (mk_slice []) (mk_slice [])), None), after_second).
Proof.
  intros discovered after_first after_second.
  apply (no_source_anywhere_is_not_an_error "103" the_show (fresh site)
           discovered after_second
           (mk_slice [EpisodeServer.mk "upcloud" "e1"; EpisodeServer.mk "vidcloud" "e2"])).
  - reflexivity.
  - apply (all_empty_cons (EpisodeServer.mk "upcloud" "e1")
             [EpisodeServer.mk "vidcloud" "e2"] discovered
             empty_VideoSources after_first); [reflexivity | reflexivity |].
    apply (all_empty_cons (EpisodeServer.mk "vidcloud" "e2") [] after_first
             (VideoSources.mk nil_slice nil_slice) after_second);
      [reflexivity | reflexivity | apply all_empty_nil].
Defined.

(** Episode 104 has no server at all. *)
Example no_server_on_the_site :
  (FetchEpisodeSourcesWithMediaID "104" the_show (fresh site)).1
  = Returned (Some (VideoSources.mk (mk_slice []) (mk_slice [])), None).
Proof. reflexivity. Qed.

(** The quality "480P" picks the source labelled "480p". *)
Lemma GetStreamURL_selects_quality_on_the_site :
  let resolved := (GetSources "101|tv/the-show-39444" (fresh site)).2 in
  let target := if String.eqb "480P" QualityAuto then "auto" else "480P" in
  ∃ selected stream,
    GetStreamURL ctx "101|tv/the-show-39444" "480P" (fresh site)
    = (Returned (Some stream, None), resolved)
    ∧ providers.StreamURL.URL stream = Source.URL selected
    ∧ providers.StreamURL.Quality stream = Source.Quality selected
    ∧ providers.StreamURL.Type_ stream
      = (if Source.IsM3U8 selected then providers.StreamTypeHLS
         else providers.StreamTypeMP4)
    ∧ providers.StreamURL.Referer stream = Source.Referer selected
    ∧ providers.StreamURL.Headers stream = {[ "Referer" := Source.Referer selected ]}
    ∧ elems (providers.StreamURL.Subtitles stream)
      = ((fun sub => providers.Subtitle.mk (Subtitle.Lang sub) (Subtitle.URL sub))
         <$> elems (VideoSources.Subtitles two_sources))
    ∧ ((∃ before after,
          elems (VideoSources.Sources two_sources) = before ++ selected :: after
          ∧ EqualFold (Source.Quality selected) target = true
          ∧ Forall (fun s => EqualFold (Source.Quality s) target = false) before)
       ∨ (Forall (fun s => EqualFold (Source.Quality s) target = false)
                 (elems (VideoSources.Sources two_sources))
          ∧ head (elems (VideoSources.Sources two_sources)) = Some selected)).
Proof.
  intros resolved.
  apply (GetStreamURL_selects_quality ctx "101|tv/the-show-39444" "480P"
           (fresh site) resolved two_sources).
  - reflexivity.
  - discriminate.
Defined.

(** The stream for "480P" on the site: the second source, an MP4. *)
Example stream_for_480P :
  (GetStreamURL ctx "101|tv/the-show-39444" "480P" (fresh site)).1
  = Returned
      (Some (providers.StreamURL.mk "https://cdn.example/480.mp4" "480p"
               providers.StreamTypeMP4 "https://megacloud.tv/"
               {[ "Referer" := "https://megacloud.tv/" ]}
               (mk_slice [providers.Subtitle.mk "English" "https://cdn.example/en.vtt"])),
       None).
Proof. reflexivity. Qed.

(** The two scenarios of the specification, with the ASCII folding. *)
Example quality_matching_ignores_case :
  select_source [Source.mk "u1" "720p" true ""; Source.mk "u2" "1080p" true ""] "1080P"
  = Some (Source.mk "u2" "1080p" true "").
Proof. reflexivity. Qed.

Example unmatched_quality_finds_nothing :
  select_source [Source.mk "u1" "720p" true ""; Source.mk "u2" "480p" true ""] "1080p"
  = None.
Proof. reflexivity. Qed.

(** After a first call that succeeded, the show is served from the
    cache, whatever the site has become; after a first call that
    failed, nothing is stored and the request is sent again. *)
Lemma metadata_served_from_cache_on_the_site :
  let found := (GetInfo the_show (fresh site)).2 in
  let detailed := (GetMediaDetails ctx the_show (fresh site)).2 in
  let searched := (Search ctx "the show" (fresh site)).2 in
  let failed := (GetMediaDetails ctx "movie/x" (fresh site_down)).2 in
  let missed := (Search ctx "x" (fresh site_down)).2 in
  (∃ info, iface_MovieInfo (Some show_info) = iface_MovieInfo (Some info)
           ∧ infoCache (self found) !! the_show = Some info)
  ∧ (∀ w, GetInfo the_show (with_world w found)
          = (Returned (iface_MovieInfo (Some show_info), None), with_world w found))
  ∧ (∀ w, GetMediaDetails ctx the_show (with_world w detailed)
          = (Returned (Some show_details, None), with_world w detailed))
  ∧ searchCache (self searched) !! "the show" = Some show_results
  ∧ (∀ w, Search ctx "the show" (with_world w searched)
          = (Returned (show_results, None), with_world w searched))
  ∧ self failed = self (fresh site_down)
  ∧ infoCache (self failed) !! "movie/x" = None
  ∧ (∀ w, ∃ more,
       trace (GetMediaDetails ctx "movie/x" (with_world w failed)).2
       = trace failed
         ++ EvDo (browser_headers "https://sflix.ps"
                    (http.mkRequest "https://sflix.ps/movie/x" [])) :: more)
  ∧ self missed = self (fresh site_down)
  ∧ searchCache (self missed) !! "x" = None
  ∧ (∀ w,
       trace (Search ctx "x" (with_world w missed)).2
       = trace missed
         ++ [EvDo (browser_headers "https://sflix.ps"
                     (http.mkRequest "https://sflix.ps/search/x" []))]).
Proof.
  intros found detailed searched failed missed.
  destruct (metadata_served_from_cache ctx the_show "the show" (fresh site))
    as (Hinfo & Hdetails & Hsearch & _).
  destruct (Hinfo (iface_MovieInfo (Some show_info)) found) as [Hcached Hagain];
    [reflexivity|].
  destruct (Hdetails (Some show_details) detailed) as [_ Hdetailed]; [reflexivity|].
  destruct (Hsearch show_results searched) as [Hquery Hsearched]; [reflexivity|].
  destruct (metadata_served_from_cache ctx "movie/x" "x" (fresh site_down))
    as (_ & _ & _ & _ & Hfailed & Hmissed).
  destruct (Hfailed None (wrapError "failed to fetch info: " refused) failed)
    as (Hself & Hmiss & Hfetch); [reflexivity|].
  destruct (Hmissed nil_slice (wrapError "failed to fetch search results: " refused) missed)
    as (Hself' & Hmiss' & Hfetch'); [reflexivity|].
  repeat split; try assumption.
  - intros w. by apply Hfetch.
  - intros w. by apply Hfetch'.
Defined.

(** The title that the second call gives is the one of the first call,
    not the one that the site has by then. *)
Example renamed_upstream_not_seen :
  let first := GetMediaDetails ctx the_show (fresh site) in
  let second := GetMediaDetails ctx the_show (with_world site_changed first.2) in
  let anew := GetMediaDetails ctx the_show (fresh site_changed) in
  second.1 = first.1
  ∧ requests (trace second.2) = requests (trace first.2)
  ∧ length (requests (trace first.2)) = 4%nat
  ∧ first.1 ≠ anew.1.
Proof. repeat split; try reflexivity. discriminate. Qed.

(** C5 fails as it is stated. While the site does not answer, the first
    [GetMediaDetails] of a media id sends two requests and fails, nothing
    is stored, and the second call sends two requests again: the pair of
    calls has fetched twice, and the second result does not come from
    the cache. *)
Lemma failed_fetch_is_not_cached :
  let first := GetMediaDetails ctx "movie/x" (fresh site_down) in
  let second := GetMediaDetails ctx "movie/x" first.2 in
  first.1 = Returned (None, Some (wrapError "failed to fetch info: " refused))
  ∧ second.1 = first.1
  ∧ infoCache (self first.2) !! "movie/x" = None
  ∧ length (requests (trace first.2)) = 2%nat
  ∧ length (requests (trace second.2)) = 4%nat.
Proof. repeat split; reflexivity. Qed.

(** The seasons of the show, and the ids they carry. *)
Lemma season_id_round_trip_on_the_site :
  let listed := (GetSeasons ctx the_show (fresh site)).2 in
  (∀ n, int_range n →
        GetEpisodes_target (season_id the_show n) = (the_show, n)
        ∧ GetEpisodes ctx (season_id the_show n) = GetEpisodes_of the_show n)
  ∧ GetEpisodes_target the_show = (the_show, 1)
  ∧ Forall
      (fun s =>
         (providers.Season.ID s = season_id the_show (providers.Season.Number s)
          ∨ (providers.Season.ID s = the_show ∧ providers.Season.Number s = 1))
         ∧ GetEpisodes_target (providers.Season.ID s)
           = (the_show, providers.Season.Number s)
         ∧ GetEpisodes ctx (providers.Season.ID s)
           = GetEpisodes_of the_show (providers.Season.Number s))
      (elems show_seasons)
  ∧ (∃ info,
       infoCache (self listed) !! the_show = Some info
       ∧ ∀ ep, ep ∈ elems (MovieInfo.Episodes info) →
           ∃ s, s ∈ elems show_seasons
                ∧ providers.Season.Number s
                  = (if Episode.Season ep =? 0 then 1 else Episode.Season ep)).
Proof.
  intros listed.
  apply (season_id_round_trip ctx the_show (fresh site) listed show_seasons).
  - reflexivity.
  - intros id info Hhit. simpl in Hhit. by rewrite lookup_empty in Hhit.
  - reflexivity.
Defined.

Example seasons_of_the_show :
  (GetSeasons ctx the_show (fresh site)).1
  = Returned (show_seasons, None).
Proof. reflexivity. Qed.

End OnTheSite.

(** ** The registry on a plugin directory *)

Section OnTheDirectory.

Import registry testdata fixtures.

(** Three plugin files among the entries, two of which give the name
    of a known provider: each is constructed once, in order, and the
    last one of the name holds it. *)
Lemma Load_scans_plugin_directory_on_the_directory :
  let H := crowded_host (inr crowded) in
  (Load all_local New).2
  = plugin_path <$> filter (fun file => is_plugin_file file = true) crowded
  ∧ (∀ name,
       is_Some (providers_ (register_known all_local (@New string)) !! name) →
       is_Some (providers_ (Load all_local New).1 !! name))
  ∧ Get "sflix" (Load all_local New).1
    = (Some (LuaPlugin (luaprovider_New (plugin_path other_lua))), None)
  ∧ Get "Example Provider" (Load all_local New).1
    = (Some (LuaPlugin (luaprovider_New (plugin_path example_lua))), None).
Proof.
  intros H.
  destruct (Load_scans_plugin_directory all_local New) as [_ Hreadable].
  destruct (Hreadable crowded) as (Hcalls & Hkept & Hregistered); [reflexivity|].
  split; [exact Hcalls|]. split; [exact Hkept|]. split.
  - apply (Hregistered eq_refl ltac:(discriminate)
             [mine_lua; mkDirEntry "notes.txt" false] other_lua
             [example_lua; mkDirEntry "old.lua" true]); [reflexivity | reflexivity |].
    repeat constructor; discriminate.
  - apply (Hregistered eq_refl ltac:(discriminate)
             [mine_lua; mkDirEntry "notes.txt" false; other_lua] example_lua
             [mkDirEntry "old.lua" true]); [reflexivity | reflexivity |].
    repeat constructor; discriminate.
Defined.

(** The calls of [luaprovider.New] on that directory. *)
Example plugins_constructed_in_order :
  (@Load _ (crowded_host (inr crowded)) all_local New).2
  = [ "/home/user/.config/greg/luaProviders/mine.lua";
      "/home/user/.config/greg/luaProviders/other.lua";
      "/home/user/.config/greg/luaProviders/example.lua" ].
Proof. reflexivity. Qed.

(** C8 fails as it is stated. A plugin directory that cannot be read
    leaves no mark: [Load] gives the registry and the calls that it
    gives for an empty directory, the seven known providers and no
    plugin, and it has nothing else to give. *)
Lemma unreadable_directory_is_not_reported :
  let unreadable_host := host (inl unreadable) in
  let empty_host := host (inr []) in
  @ReadDir _ unreadable_host (@luaDir _ unreadable_host) = inl unreadable
  ∧ @Load _ unreadable_host all_local New = @Load _ empty_host all_local New
  ∧ @Load _ unreadable_host all_local New = (register_known all_local New, [])
  ∧ size (providers_ (@Load _ unreadable_host all_local New).1) = 7%nat.
Proof. repeat split; reflexivity. Qed.

End OnTheDirectory.

(** * Further properties of the adapter *)

(** Unfolds the operations of the monad in a run. *)
Ltac run :=
  unfold bind, ret, panic, log, get_BaseURL, Do, Extract,
    searchCache_Load, searchCache_Store, infoCache_Load, infoCache_Store; simpl.

Section Seasons.
Context {W : Type} `{!NetHTTP W, !Extractors W, !Goquery, !GoText, !ProvidersPkg}.

Import types sflix.

(** ** The order of the seasons *)

(** What one exchange does: nothing, when the two seasons are in order
    or a position is out of range, and else the two seasons change
    places. *)
Lemma GetSeasons_swap_cases i j seasons :
  (GetSeasons_swap i j seasons = seasons
   ∧ ∀ a b, seasons !! i = Some a → seasons !! j = Some b →
            providers.Season.Number a <= providers.Season.Number b)
  ∨ ∃ a b, seasons !! i = Some a ∧ seasons !! j = Some b
           ∧ providers.Season.Number b < providers.Season.Number a
           ∧ GetSeasons_swap i j seasons = <[j := a]> (<[i := b]> seasons).
Proof.
  unfold GetSeasons_swap.
  destruct (seasons !! i) as [a|] eqn:Hi; [|left; split; [done | by intros]].
  destruct (seasons !! j) as [b|] eqn:Hj; [|left; split; [done | by intros]].
  destruct (Z.ltb_spec (providers.Season.Number b) (providers.Season.Number a)).
  - right. by exists a, b.
  - left. split; [done|]. intros ? ? [= <-] [= <-]. done.
Qed.

Lemma GetSeasons_swap_Permutation i j seasons : GetSeasons_swap i j seasons ≡ₚ seasons.
Proof.
  destruct (GetSeasons_swap_cases i j seasons) as [[-> _] | (a & b & Hi & Hj & _ & ->)];
    [done|]. by apply Permutation_insert_swap.
Qed.







Lemma GetSeasons_sort_Permutation seasons : GetSeasons_sort seasons ≡ₚ seasons.
Proof.
  unfold GetSeasons_sort. generalize (length seasons). intros n.
  generalize (seq 0 n). intros outer. revert seasons.
  induction outer as [|i outer IHouter]; intros seasons; [done|].
  simpl. rewrite IHouter.
  generalize (seq (S i) (n - S i)). intros inner. revert seasons.
  induction inner as [|j inner IHinner]; intros seasons; [done|].
  simpl. rewrite IHinner. apply GetSeasons_swap_Permutation.
Qed.

(** One turn of the loop over the episodes keeps the numbers of the
    seasons different. *)
Lemma GetSeasons_step_distinct mediaID acc ep :
  distinct_marked acc → distinct_marked (GetSeasons_step mediaID acc ep).
Proof.
  destruct acc as [seasonsMap seasons]. intros [Hnodup Hmarked]. unfold GetSeasons_step.
  set (sNum := if Episode.Season ep =? 0 then 1 else Episode.Season ep).
  destruct (default false (seasonsMap !! sNum)) eqn:Hold; cbn [negb]; [done|].
  split; simpl.
  - rewrite fmap_app. apply NoDup_app. split; [done|]. split; [|apply NoDup_singleton].
    intros n (s & -> & Hs)%list_elem_of_fmap Hn. apply list_elem_of_singleton in Hn.
    apply Hmarked in Hs. simpl in Hs, Hn. rewrite <- Hn, Hs in Hold. done.
  - intros s [Hs | Hs]%elem_of_app.
    + destruct (decide (sNum = providers.Season.Number s)) as [<- | Hne].
      * apply lookup_insert_eq.
      * rewrite lookup_insert_ne by done. by apply Hmarked.
    + apply list_elem_of_singleton in Hs as ->. simpl. apply lookup_insert_eq.
Qed.

Lemma GetSeasons_collect_distinct mediaID episodes :
  NoDup (providers.Season.Number <$> elems (GetSeasons_collect mediaID episodes).2).
Proof.
  unfold GetSeasons_collect.
  assert (distinct_marked (∅ : gmap Z bool, @nil_slice providers.Season.t)) as Hacc.
  { split; [constructor|]. intros s Hs. by apply elem_of_nil in Hs. }
  revert Hacc. generalize (∅ : gmap Z bool, @nil_slice providers.Season.t).
  induction episodes as [|ep episodes IH]; intros acc Hacc; [apply Hacc|].
  cbn [fold_left]. apply IH. by apply GetSeasons_step_distinct.
Qed.



End Seasons.

Section Episodes.
Context {W : Type} `{!NetHTTP W, !Extractors W, !Goquery, !GoText, !ProvidersPkg}.

Import types sflix.

(** ** The episodes of a season *)

(** The loop of [GetEpisodes] keeps the episodes of the season, in the
    order of the info. *)
Lemma GetEpisodes_collect_filter seasonNum episodes :
  elems (GetEpisodes_collect seasonNum episodes)
  = listed_episode <$> filter (fun ep => season_of ep = seasonNum) episodes.
Proof.
  unfold GetEpisodes_collect.
  change (listed_episode <$> filter (fun ep => season_of ep = seasonNum) episodes)
    with (elems (@nil_slice providers.Episode.t)
          ++ (listed_episode <$> filter (fun ep => season_of ep = seasonNum) episodes)).
  generalize (@nil_slice providers.Episode.t).
  induction episodes as [|ep episodes IH]; intros acc; simpl.
  - by rewrite app_nil_r.
  - rewrite IH. fold (season_of ep).
    destruct (Z.eqb_spec (season_of ep) seasonNum) as [Heq | Hne].
    + rewrite filter_cons_True by done. simpl. by rewrite <- app_assoc.
    + by rewrite filter_cons_False.
Qed.

(** X2. When [GetEpisodes] returns a nil error, the info of the media
    id that the season id decodes to is in the cache, and the episodes
    returned are those of the info that count in the season decoded
    (season 0 counting as season 1), in the order of the info, each
    with the number and the title it has there; an info without any
    episode gives one episode, with the id and the title of the info,
    in season 1 and none in another season. *)
Theorem GetEpisodes_lists_the_season
    (ctx : providers.Context) (seasonID : string) (st st' : State W)
    (episodes : slice providers.Episode.t) :
  GetEpisodes ctx seasonID st = (Returned (episodes, None), st') →
  let '(mediaID, seasonNum) := GetEpisodes_target seasonID in
  ∃ info,
    infoCache (self st') !! mediaID = Some info
    ∧ elems episodes
      = match elems (MovieInfo.Episodes info) with
        | [] =>
            if seasonNum =? 1
            then [providers.Episode.mk (MovieInfo.ID info) 1 (MovieInfo.Title info) 1]
            else []
        | listed =>
            listed_episode <$> filter (fun ep => season_of ep = seasonNum) listed
        end.
Proof.
  unfold GetEpisodes. destruct (GetEpisodes_target seasonID) as [mediaID seasonNum].
  unfold GetEpisodes_of. intros Hrun.
  apply bind_returned in Hrun as ([r err] & st1 & Hinfo & Hrun).
  destruct err as [err|]; [by inversion Hrun|].
  destruct (GetInfo_nil_error _ _ _ _ Hinfo) as (info & -> & Hhit).
  revert Hrun. run. intros [= <- <-]. exists info. split; [done|].
  unfold len. destruct (elems (MovieInfo.Episodes info)) as [|ep listed] eqn:Hlisted.
  - simpl. by destruct (seasonNum =? 1).
  - rewrite <- Hlisted. simpl. rewrite Hlisted. simpl Z.eqb.
    replace (Z.pos (Pos.of_succ_nat (length listed)) =? 0) with false by done.
    simpl. by rewrite GetEpisodes_collect_filter.
Qed.

(** ** Episode ids *)

Lemma split_episodeID_two a b :
  Contains a "|" = false → Contains b "|" = false →
  split_episodeID (a +:+ "|" +:+ b) = (a, b).
Proof. intros Ha Hb. unfold split_episodeID. by rewrite Split_two. Qed.

Lemma split_episodeID_plain a :
  Contains a "|" = false → split_episodeID a = (a, "").
Proof. intros Ha. unfold split_episodeID. by rewrite Split_pipe_free. Qed.

(** X3. The id that [GetEpisodes] gives an episode leads the resolution
    back to the episode: when neither the id nor the [URL] of the
    episode of the info has a ['|'], [GetSources] and [GetServers]
    split the id of the listed episode into the id of the episode and
    its [URL] (the media id), and go on with these two. The media id is
    empty when the [URL] is empty or equal to the id, since the id
    then stands alone. *)
Theorem listed_episode_id_round_trip (ep : Episode.t) :
  Contains (Episode.ID ep) "|" = false →
  Contains (Episode.URL ep) "|" = false →
  let mediaID :=
    if negb (String.eqb (Episode.URL ep) "")
       && negb (String.eqb (Episode.URL ep) (Episode.ID ep))
    then Episode.URL ep else "" in
  split_episodeID (providers.Episode.ID (listed_episode ep)) = (Episode.ID ep, mediaID)
  ∧ GetServers (W := W) (providers.Episode.ID (listed_episode ep))
    = FetchEpisodeServersWithMediaID (Episode.ID ep) mediaID
  ∧ ∀ st : State W,
      GetSources (providers.Episode.ID (listed_episode ep)) st
      = (let* '(sources, err) := FetchEpisodeSourcesWithMediaID (Episode.ID ep) mediaID in
         ret (iface_VideoSources sources, err)) st.
Proof.
  intros Hid Hurl mediaID.
  assert (split_episodeID (providers.Episode.ID (listed_episode ep))
          = (Episode.ID ep, mediaID)) as Hsplit.
  { unfold listed_episode, mediaID. simpl.
    destruct (negb _ && negb _);
      [by apply split_episodeID_two | by apply split_episodeID_plain]. }
  split; [done|]. split.
  - unfold GetServers. by rewrite Hsplit.
  - intros st. unfold GetSources. by rewrite Hsplit.
Qed.

(** An id with two separators or more is not split. *)
Lemma split_from_pipe_count s cur :
  length (split_from "|" 0 cur s)
  = S (length (filter (fun c => c = "|"%char) (String.list_ascii_of_string s))).
Proof.
  revert cur. induction s as [|c s IH]; intros cur; [done|].
  cbn [split_from String.list_ascii_of_string]. rewrite HasPrefix_pipe.
  destruct (Ascii.eqb_spec c "|") as [-> | Hne].
  - rewrite filter_cons_True by done. simpl. by rewrite IH.
  - rewrite filter_cons_False by done. apply IH.
Qed.

(** X4. An episode id is split only when it has exactly one ['|']: with
    none, or with two or more, [GetSources] and [GetServers] take the
    whole id, separators included, for the episode id, with an empty
    media id. *)
Theorem split_episodeID_one_separator (episodeID : string) :
  length (filter (fun c => c = "|"%char) (String.list_ascii_of_string episodeID)) ≠ 1%nat →
  split_episodeID episodeID = (episodeID, "")
  ∧ GetServers (W := W) episodeID = FetchEpisodeServersWithMediaID episodeID ""
  ∧ ∀ st : State W,
      GetSources episodeID st
      = (let* '(sources, err) := FetchEpisodeSourcesWithMediaID episodeID "" in
         ret (iface_VideoSources sources, err)) st.
Proof.
  intros Hcount.
  assert (split_episodeID episodeID = (episodeID, "")) as Hsplit.
  { unfold split_episodeID, Split.
    pose proof (split_from_pipe_count episodeID "") as Hlen.
    destruct (split_from "|" 0 "" episodeID) as [|p0 [|p1 [|p2 parts]]]; try done.
    simpl in Hlen. lia. }
  split; [done|]. split.
  - unfold GetServers. by rewrite Hsplit.
  - intros st. unfold GetSources. by rewrite Hsplit.
Qed.

(** X5. The id that [GetMovieEpisodeID] returns splits back into the id
    and the [URL] of the first episode of the info, when neither has a
    ['|']; the info is in the cache under the media id. *)
Theorem GetMovieEpisodeID_round_trip
    (ctx : providers.Context) (mediaID episodeID : string) (st st' : State W) :
  GetMovieEpisodeID ctx mediaID st = (Returned (episodeID, None), st') →
  ∃ info ep,
    infoCache (self st') !! mediaID = Some info
    ∧ head (elems (MovieInfo.Episodes info)) = Some ep
    ∧ (Contains (Episode.ID ep) "|" = false →
       Contains (Episode.URL ep) "|" = false →
       split_episodeID episodeID = (Episode.ID ep, Episode.URL ep)).
Proof.
  unfold GetMovieEpisodeID. intros Hrun.
  apply bind_returned in Hrun as ([r err] & st1 & Hinfo & Hrun).
  destruct err as [err|]; [by inversion Hrun|].
  destruct (GetInfo_nil_error _ _ _ _ Hinfo) as (info & -> & Hhit).
  destruct (elems (MovieInfo.Episodes info)) as [|ep listed] eqn:Hlisted;
    [by inversion Hrun|].
  exists info, ep. rewrite Hlisted.
  destruct (String.eqb_spec (Episode.URL ep) "") as [Hempty | Hurl];
    revert Hrun; run; intros [= <- <-]; (split; [done|]); (split; [done|]);
    intros Hid Hfree.
  - rewrite Hempty. by apply split_episodeID_plain.
  - by apply split_episodeID_two.
Qed.

End Episodes.

Section Totality.
Context {W : Type} `{!NetHTTP W, !Extractors W, !Goquery, !GoText, !ProvidersPkg}.

Import types sflix.

(** ** Methods that cannot panic *)

Lemma returns_ret {A} (a : A) : returns (@ret W A a).
Proof. intros st. by exists a, st. Qed.

Lemma returns_bind {A B} (m : M W A) (k : A → M W B) :
  returns m → (∀ a, returns (k a)) → returns (bind m k).
Proof.
  intros Hm Hk st. destruct (Hm st) as (a & st1 & Hrun).
  destruct (Hk a st1) as (b & st' & Hrest). exists b, st'.
  by rewrite (bind_run _ _ _ _ _ Hrun).
Qed.

Lemma returns_log ev : returns (W := W) (log ev).
Proof. intros st. by eexists _, _. Qed.

Lemma returns_get_BaseURL : returns (W := W) get_BaseURL.
Proof. intros st. by eexists _, _. Qed.

Lemma returns_Do req : returns (Do req).
Proof. intros st. unfold Do. destruct (Client_Do req (world st)). by eexists _, _. Qed.

Lemma returns_Extract name embedURL : returns (Extract name embedURL).
Proof.
  intros st. unfold Extract. destruct (GetExtractor_Extract name embedURL (world st)).
  by eexists _, _.
Qed.

Lemma returns_searchCache_Load query : returns (W := W) (searchCache_Load query).
Proof. intros st. by eexists _, _. Qed.

Lemma returns_searchCache_Store query v : returns (W := W) (searchCache_Store query v).
Proof. intros st. by eexists _, _. Qed.

Lemma returns_infoCache_Load id : returns (W := W) (infoCache_Load id).
Proof. intros st. by eexists _, _. Qed.

Lemma returns_infoCache_Store id info : returns (W := W) (infoCache_Store id info).
Proof. intros st. by eexists _, _. Qed.

Lemma returns_for_range {A B} (xs : list A) (body : B → A → M W B) acc :
  (∀ acc x, returns (body acc x)) → returns (for_range xs body acc).
Proof.
  intros Hbody. revert acc. induction xs as [|x xs IH]; intros acc; simpl.
  - apply returns_ret.
  - apply returns_bind; [apply Hbody | apply IH].
Qed.

(** Goes through a computation made of the operations above. *)
Ltac total :=
  repeat first
    [ apply returns_ret | apply returns_log | apply returns_get_BaseURL
    | apply returns_Do | apply returns_Extract
    | apply returns_searchCache_Load | apply returns_searchCache_Store
    | apply returns_infoCache_Load | apply returns_infoCache_Store
    | apply returns_bind | progress intros | case_match ].

Lemma returns_fetchEpisodeList showID : returns (fetchEpisodeList showID).
Proof.
  unfold fetchEpisodeList.
  apply returns_bind; [apply returns_get_BaseURL|]. intros base.
  destruct (NewRequest _) as [err | req]; [apply returns_ret|].
  apply returns_bind; [apply returns_Do|]. intros answer.
  repeat case_match; try apply returns_ret.
  apply returns_bind; [|intros; apply returns_ret].
  apply returns_for_range. intros acc [seasonIdx seasonSel].
  unfold fetchEpisodeList_season. total.
Qed.

Lemma returns_GetInfo_episodes mediaType dataID title cleanMediaID :
  returns (GetInfo_episodes mediaType dataID title cleanMediaID).
Proof.
  unfold GetInfo_episodes.
  destruct (_ && _); [apply returns_ret|].
  destruct (_ && _); [|apply returns_ret].
  apply returns_bind; [apply returns_fetchEpisodeList|]. total.
Qed.

Lemma returns_GetInfo_scrape id mediaType infoURL doc :
  returns (GetInfo_scrape id mediaType infoURL doc).
Proof.
  unfold GetInfo_scrape.
  apply returns_bind; [apply returns_GetInfo_episodes|]. total.
Qed.

Lemma returns_GetInfo id : returns (GetInfo id).
Proof.
  unfold GetInfo.
  apply returns_bind; [apply returns_infoCache_Load|]. intros [info|]; [apply returns_ret|].
  apply returns_bind; [apply returns_get_BaseURL|]. intros base.
  destruct (GetInfo_first_URL base id) as [mediaType infoURL].
  destruct (NewRequest infoURL) as [err | req]; [apply returns_ret|].
  apply returns_bind; [apply returns_Do|]. intros answer.
  apply returns_bind.
  - destruct answer as [err | resp]; [|destruct (_ =? _); [apply returns_ret|]]; total.
  - intros [err | [[resp mediaType'] infoURL']]; [apply returns_ret|].
    destruct (document_of _); [apply returns_ret | apply returns_GetInfo_scrape].
Qed.

Lemma returns_Search ctx query : returns (Search ctx query).
Proof. unfold Search. total. Qed.

Lemma returns_FetchEpisodeServersWithMediaID episodeID mediaID :
  returns (FetchEpisodeServersWithMediaID episodeID mediaID).
Proof. unfold FetchEpisodeServersWithMediaID. total. Qed.

Lemma returns_extractSourcesFromServer server : returns (extractSourcesFromServer server).
Proof. unfold extractSourcesFromServer. total. Qed.

(** An error of [GetInfo] comes with a nil value and is a wrapped
    error. *)
Lemma GetInfo_error id st r e st' :
  GetInfo id st = (Returned (r, Some e), st') →
  r = iface_nil ∧ ∃ msg inner, e = wrapError msg inner.
Proof.
  unfold GetInfo. run. intros Hrun.
  repeat (case_match; simplify_eq/=); eauto;
    exfalso; eapply GetInfo_scrape_no_error; eauto.
Qed.

(** X6. None of [GetInfo], [Search], [GetMediaDetails], [GetSeasons]
    and [GetEpisodes] can panic, whatever the site answers, and the
    error each returns is nil or an error wrapped with [%w]: the error
    "invalid info type" of the three last ones is never returned. *)
Theorem metadata_methods_never_panic
    (ctx : providers.Context) (id : string) (st : State W) :
  (∃ r st', GetInfo id st = (Returned r, st') ∧ nil_or_wrapped r.2)
  ∧ (∃ r st', Search ctx id st = (Returned r, st') ∧ nil_or_wrapped r.2)
  ∧ (∃ r st', GetMediaDetails ctx id st = (Returned r, st') ∧ nil_or_wrapped r.2)
  ∧ (∃ r st', GetSeasons ctx id st = (Returned r, st') ∧ nil_or_wrapped r.2)
  ∧ (∃ r st', GetEpisodes ctx id st = (Returned r, st') ∧ nil_or_wrapped r.2).
Proof.
  assert (∀ id st, ∃ r st', GetInfo id st = (Returned r, st')
                            ∧ nil_or_wrapped r.2
                            ∧ (r.2 = None → ∃ info, r.1 = iface_MovieInfo (Some info)))
    as Hinfo.
  { clear. intros id st. destruct (returns_GetInfo id st) as ([r [e|]] & st' & Hrun).
    - exists (r, Some e), st'. split; [done|].
      destruct (GetInfo_error _ _ _ _ _ Hrun) as (_ & msg & inner & ->).
      split; [right; eauto | done].
    - exists (r, None), st'. split; [done|]. split; [by left|]. intros _.
      destruct (GetInfo_nil_error _ _ _ _ Hrun) as (info & -> & _). eauto. }
  split; [|split; [|split; [|split]]].
  - destruct (Hinfo id st) as (r & st' & Hrun & Hwrapped & _). eauto.
  - destruct (returns_Search ctx id st) as ([results [e|]] & st' & Hrun).
    + exists (results, Some e), st'. split; [done|]. right.
      revert Hrun. unfold Search. run. intros Hrun.
      repeat (case_match; simplify_eq/=); eauto.
    + exists (results, None), st'. split; [done | by left].
  - destruct (Hinfo id st) as ([r err] & st' & Hrun & Hwrapped & Hsome).
    unfold GetMediaDetails. rewrite (bind_run _ _ _ _ _ Hrun).
    destruct err as [e|]; [by eexists _, _|].
    destruct (Hsome eq_refl) as [info Hr]. simpl in Hr. subst r.
    eexists _, _. split; [done | by left].
  - destruct (Hinfo id st) as ([r err] & st' & Hrun & Hwrapped & Hsome).
    unfold GetSeasons. rewrite (bind_run _ _ _ _ _ Hrun).
    destruct err as [e|]; [by eexists _, _|].
    destruct (Hsome eq_refl) as [info Hr]. simpl in Hr. subst r.
    destruct (_ =? _); [eexists _, _; split; [done | by left]|].
    destruct (GetSeasons_collect _ _). eexists _, _. split; [done | by left].
  - unfold GetEpisodes. destruct (GetEpisodes_target id) as [mediaID seasonNum].
    destruct (Hinfo mediaID st) as ([r err] & st' & Hrun & Hwrapped & Hsome).
    unfold GetEpisodes_of. rewrite (bind_run _ _ _ _ _ Hrun).
    destruct err as [e|]; [by eexists _, _|].
    destruct (Hsome eq_refl) as [info Hr]. simpl in Hr. subst r.
    eexists _, _. split; [done | by left].
Qed.

End Totality.

Section Pages.
Context {W : Type} `{!NetHTTP W, !Extractors W, !Goquery, !GoText, !ProvidersPkg}.

Import types sflix.

(** ** What [GetInfo] makes of the answers of the site *)

(** From the parsed page on, [GetInfo] cannot fail. *)
Lemma GetInfo_scrape_succeeds id mediaType infoURL doc st :
  ∃ info st',
    GetInfo_scrape id mediaType infoURL doc st
    = (Returned (iface_MovieInfo (Some info), None), st')
    ∧ MovieInfo.ID info = (if Contains id "/" then id else mediaType +:+ "/" +:+ id)
    ∧ MovieInfo.Type_ info = mediaType
    ∧ MovieInfo.URL info = infoURL
    ∧ MovieInfo.Title info = TrimSpace (Text (Find doc "h2.heading-name"))
    ∧ infoCache (self st') !! id = Some info.
Proof.
  unfold GetInfo_scrape.
  match goal with
  | |- context [bind ?m _ st] =>
      destruct (returns_GetInfo_episodes _ _ _ _ st : ∃ a st', m st = _)
        as ([[episodes lastSeason] total] & st0 & Hrun)
  end.
  rewrite (bind_run _ _ _ _ _ Hrun). run.
  eexists _, _. split; [done|]. simpl.
  repeat split; try done.
  - by destruct (Contains id "/").
  - apply lookup_insert_eq.
Qed.

(** X7. When the info is not in the cache and the first URL answers
    with status 200 and a page that parses, [GetInfo] returns a nil
    error whatever happens afterwards (the requests for the seasons and
    the episodes may all fail): the info has the media type of the
    first URL, that URL, the id of the call (with the media type in
    front when the id has no ['/']) and the title of the page, and it
    is in the cache. *)
Theorem GetInfo_succeeds_once_the_page_parses
    (id : string) (st : State W) (resp : http.Response) (w1 : W) (doc : Selection) :
  let base := BaseURL (self st) in
  let mediaType := (GetInfo_first_URL base id).1 in
  let infoURL := (GetInfo_first_URL base id).2 in
  infoCache (self st) !! id = None →
  NewRequest_err infoURL = None →
  Client_Do (browser_headers base (http.mkRequest infoURL [])) (world st) = (inr resp, w1) →
  http.StatusCode resp = http.StatusOK →
  document_of (http.Body resp) = inr doc →
  ∃ info st',
    GetInfo id st = (Returned (iface_MovieInfo (Some info), None), st')
    ∧ MovieInfo.ID info = (if Contains id "/" then id else mediaType +:+ "/" +:+ id)
    ∧ MovieInfo.Type_ info = mediaType
    ∧ MovieInfo.URL info = infoURL
    ∧ MovieInfo.Title info = TrimSpace (Text (Find doc "h2.heading-name"))
    ∧ infoCache (self st') !! id = Some info.
Proof.
  intros base mediaType infoURL Hmiss Hurl Hdo Hstatus Hdoc.
  unfold GetInfo. run. rewrite Hmiss. fold base.
  subst mediaType infoURL. destruct (GetInfo_first_URL base id) as [mediaType infoURL].
  simpl in *. unfold NewRequest at 1. rewrite Hurl, Hdo, Hstatus. simpl. rewrite Hdoc.
  apply GetInfo_scrape_succeeds.
Qed.

(** X8. When the first URL fails (an error, or a status other than 200),
    [GetInfo] asks for [BaseURL/tv/id], with the whole id of the call
    after [/tv/], prefix included. If that request is answered, with
    any status, and the answer parses, the info is returned with a nil
    error, with the type "tv" and that URL: an id that starts with
    [movie/] is then stored as a show. *)
Theorem GetInfo_falls_back_to_the_show_URL
    (id : string) (st : State W) (answer : error + http.Response) (w1 w2 : W)
    (resp : http.Response) (doc : Selection) :
  let base := BaseURL (self st) in
  let firstURL := (GetInfo_first_URL base id).2 in
  let showURL := base +:+ "/tv/" +:+ id in
  infoCache (self st) !! id = None →
  NewRequest_err firstURL = None →
  Client_Do (browser_headers base (http.mkRequest firstURL [])) (world st) = (answer, w1) →
  match answer with
  | inl _ => True
  | inr first => http.StatusCode first ≠ http.StatusOK
  end →
  NewRequest_err showURL = None →
  Client_Do (browser_headers base (http.mkRequest showURL [])) w1 = (inr resp, w2) →
  document_of (http.Body resp) = inr doc →
  ∃ info st',
    GetInfo id st = (Returned (iface_MovieInfo (Some info), None), st')
    ∧ MovieInfo.ID info = (if Contains id "/" then id else "tv/" +:+ id)
    ∧ MovieInfo.Type_ info = "tv"
    ∧ MovieInfo.URL info = showURL
    ∧ infoCache (self st') !! id = Some info
    ∧ ∃ more,
        trace st'
        = trace st ++ EvDo (browser_headers base (http.mkRequest firstURL []))
                   :: EvDo (browser_headers base (http.mkRequest showURL [])) :: more.
Proof.
  intros base firstURL showURL Hmiss Hfirst Hdo Hfailed Hshow Hdo2 Hdoc.
  unfold GetInfo. run. rewrite Hmiss. fold base.
  subst firstURL. destruct (GetInfo_first_URL base id) as [mediaType infoURL].
  simpl in *. unfold NewRequest at 1. rewrite Hfirst, Hdo.
  assert (NewRequest showURL = inr (http.mkRequest showURL [])) as Hrequest
    by (unfold NewRequest; by rewrite Hshow).
  destruct answer as [err | first];
    [|apply Z.eqb_neq in Hfailed; rewrite Hfailed];
    fold showURL; rewrite Hrequest; run; rewrite Hdo2; simpl; rewrite Hdoc;
    match goal with
    | |- context [GetInfo_scrape ?a ?b ?c ?d ?s] =>
        destruct (GetInfo_scrape_succeeds a b c d s)
          as (info & st' & Hrun & Hid & Htype & Hurl & _ & Hhit);
        destruct (appends_GetInfo_scrape a b c d s) as [more Hmore]
    end;
    rewrite Hrun in Hmore; simpl in Hmore;
    exists info, st'; (split; [done|]); repeat (split; [done|]);
    exists more; by rewrite Hmore, <- !app_assoc.
Qed.

End Pages.

Section Resolution.
Context {W : Type} `{!NetHTTP W, !Extractors W, !Goquery, !GoText, !ProvidersPkg}.

Import types sflix.

(** ** From the servers to the stream *)

(** [GetSources] returns a pointer to sources, nil or not, never
    another kind of value. *)
Lemma GetSources_returned episodeID st res err st' :
  GetSources episodeID st = (Returned (res, err), st') →
  ∃ p, res = iface_VideoSources p
       ∧ FetchEpisodeSourcesWithMediaID (split_episodeID episodeID).1
           (split_episodeID episodeID).2 st = (Returned (p, err), st').
Proof.
  unfold GetSources. destruct (split_episodeID episodeID) as [actualEpisodeID mediaID].
  intros Hrun. apply bind_returned in Hrun as ([p e] & st1 & Hfetch & Hrun).
  revert Hrun. run. intros [= <- <- <-]. eauto.
Qed.

(** The pipeline never returns a nil pointer with a nil error. *)
Lemma try_servers_nil_error servers lastErr st p st' :
  try_servers servers lastErr st = (Returned (p, None), st') → is_Some p.
Proof.
  revert lastErr st. induction servers as [|server servers IH]; intros lastErr st; simpl.
  - destruct lastErr; run; intros [= <-]; eauto.
  - intros Hrun. apply bind_returned in Hrun as ([sources err] & st1 & _ & Hrun).
    destruct err as [err|]; [by eapply IH|].
    destruct sources as [v|]; [|discriminate].
    destruct (0 <? _); [|by eapply IH].
    revert Hrun. run. intros [= <-]. eauto.
Qed.

Lemma FetchEpisodeSourcesWithMediaID_nil_error episodeID mediaID st p st' :
  FetchEpisodeSourcesWithMediaID episodeID mediaID st = (Returned (p, None), st') →
  is_Some p.
Proof.
  unfold FetchEpisodeSourcesWithMediaID. intros Hrun.
  apply bind_returned in Hrun as ([servers err] & st1 & _ & Hrun).
  destruct err as [err|]; [discriminate|].
  destruct (_ =? _); [|by eapply try_servers_nil_error].
  revert Hrun. run. intros [= <-]. eauto.
Qed.

(** The loop of [GetAvailableQualities]. *)
Lemma qualities_elems sources (acc : slice providers.Quality) :
  elems (fold_left (fun qualities src => append qualities (Source.Quality src)) sources acc)
  = elems acc ++ (Source.Quality <$> sources).
Proof.
  revert acc. induction sources as [|src sources IH]; intros acc; simpl.
  - by rewrite app_nil_r.
  - rewrite IH. simpl. by rewrite <- app_assoc.
Qed.

Lemma select_source_elem sources target src :
  select_source sources target = Some src → src ∈ sources.
Proof.
  intros (before & after & -> & _)%select_source_first.
  apply elem_of_app. right. apply list_elem_of_here.
Qed.

(** X9. When discovery finds no server, or every server answers with
    no error and no source, [GetStreamURL] fails with the error "no
    sources found", for any quality, whereas [GetAvailableQualities]
    returns a nil list and a nil error. *)
Theorem no_source_is_an_error_for_the_stream_only
    (ctx : providers.Context) (episodeID actualEpisodeID mediaID : string)
    (quality : providers.Quality) (st discovered st' : State W)
    (servers : slice EpisodeServer.t) :
  split_episodeID episodeID = (actualEpisodeID, mediaID) →
  FetchEpisodeServersWithMediaID actualEpisodeID mediaID st
  = (Returned (servers, None), discovered) →
  all_empty (elems servers) discovered st' →
  GetStreamURL ctx episodeID quality st
  = (Returned (None, Some (errorString "no sources found")), st')
  ∧ GetAvailableQualities ctx episodeID st = (Returned (nil_slice, None), st').
Proof.
  intros Hsplit Hservers Hempty.
  assert (GetSources episodeID st
          = (Returned (iface_VideoSources (Some empty_VideoSources), None), st'))
    as Hsources.
  { unfold GetSources, FetchEpisodeSourcesWithMediaID. rewrite Hsplit.
    unfold bind at 1. unfold bind at 1. rewrite Hservers.
    destruct (Z.eqb_spec (len servers) 0) as [Hzero | Hpos].
    - assert (elems servers = []) as Hnil.
      { unfold len in Hzero. destruct (elems servers); [done | simpl in Hzero; lia]. }
      rewrite Hnil in Hempty. by inversion Hempty.
    - rewrite <- (app_nil_r (elems servers)).
      by rewrite (try_servers_all_empty _ _ _ _ _ Hempty). }
  unfold GetStreamURL, GetAvailableQualities.
  by rewrite !(bind_run _ _ _ _ _ Hsources).
Qed.

(** X10. [GetStreamURL] and [GetAvailableQualities] agree: whenever the
    qualities are returned with a nil error, [GetStreamURL] ends in the
    same state, for any quality asked; with an empty list of qualities
    it fails with "no sources found", and otherwise it returns a stream
    whose quality is one of the list, whose [Referer] header is its
    referer, and which is made from one of the sources. *)
Theorem GetStreamURL_agrees_with_GetAvailableQualities
    (ctx : providers.Context) (episodeID : string) (quality : providers.Quality)
    (st st' : State W) (qualities : slice providers.Quality) :
  GetAvailableQualities ctx episodeID st = (Returned (qualities, None), st') →
  (elems qualities = []
   ∧ GetStreamURL ctx episodeID quality st
     = (Returned (None, Some (errorString "no sources found")), st'))
  ∨ ∃ v src,
      GetSources episodeID st = (Returned (iface_VideoSources (Some v), None), st')
      ∧ src ∈ elems (VideoSources.Sources v)
      ∧ GetStreamURL ctx episodeID quality st
        = (Returned (Some (stream_of src (VideoSources.Subtitles v)), None), st')
      ∧ providers.StreamURL.Quality (stream_of src (VideoSources.Subtitles v))
        ∈ elems qualities
      ∧ providers.StreamURL.Headers (stream_of src (VideoSources.Subtitles v))
        !! "Referer"
        = Some (providers.StreamURL.Referer (stream_of src (VideoSources.Subtitles v))).
Proof.
  unfold GetAvailableQualities. intros Hrun.
  apply bind_returned in Hrun as ([res err] & st1 & Hsources & Hrun).
  destruct err as [err|]; [discriminate|].
  destruct (GetSources_returned _ _ _ _ _ Hsources) as (p & -> & Hfetch).
  destruct (FetchEpisodeSourcesWithMediaID_nil_error _ _ _ _ _ Hfetch) as [v ->].
  revert Hrun. run. intros [= <- <-].
  unfold GetStreamURL. rewrite (bind_run _ _ _ _ _ Hsources).
  rewrite qualities_elems. simpl.
  destruct (elems (VideoSources.Sources v)) as [|first rest] eqn:Helems; [by left|].
  right. exists v.
  destruct (select_source (first :: rest) _) as [src|] eqn:Hselect.
  - exists src. apply select_source_elem in Hselect as Hin.
    split; [done|]. split; [by rewrite Helems|]. split; [done|]. split.
    + change (Source.Quality src ∈ Source.Quality <$> first :: rest).
      by apply list_elem_of_fmap_2.
    + simpl. apply lookup_singleton_eq.
  - exists first. split; [done|]. rewrite Helems.
    split; [apply list_elem_of_here|]. split; [done|].
    split; [apply list_elem_of_here | apply lookup_singleton_eq].
Qed.

(** ** Server discovery *)

(** The URL built for a server is overwritten with the [data-id]. *)
Lemma FetchEpisodeServers_item_listed base mediaID isMovie servers sel :
  FetchEpisodeServers_item base mediaID isMovie (mk_slice servers) sel
  = mk_slice (servers ++ option_list (listed_server sel)).
Proof.
  unfold FetchEpisodeServers_item, listed_server.
  destruct (Attr _ _) as [dataID|]; [|by rewrite app_nil_r].
  destruct (String.eqb _ ""); [by rewrite app_nil_r|].
  destruct isMovie; simpl; f_equal; rewrite length_app; simpl;
    replace (length servers + 1 - 1)%nat with (length servers + 0)%nat by lia;
    by rewrite alter_app_r.
Qed.

Lemma FetchEpisodeServers_loop base mediaID isMovie items servers :
  fold_left (FetchEpisodeServers_item base mediaID isMovie) items (mk_slice servers)
  = mk_slice (servers ++ omap listed_server items).
Proof.
  revert servers. induction items as [|sel items IH]; intros servers; simpl.
  - by rewrite app_nil_r.
  - rewrite FetchEpisodeServers_item_listed, IH, <- app_assoc.
    by destruct (listed_server sel).
Qed.

(** X11. Server discovery uses the media id for one thing, the choice
    of the endpoint: [/ajax/episode/list/] when the media id contains
    "movie", [/ajax/episode/servers/] otherwise (so for an empty media
    id). When it returns a nil error it has sent that one request, and
    the servers are those of the items of the answer, in order: each
    carries the [data-id] of its item in [URL] (no URL made of the media
    id) and the lower case of its name. *)
Theorem discovery_reads_the_media_id_for_the_endpoint_only
    (episodeID mediaID : string) (st st' : State W) (servers : slice EpisodeServer.t) :
  FetchEpisodeServersWithMediaID episodeID mediaID st = (Returned (servers, None), st') →
  let base := BaseURL (self st) in
  let endpoint :=
    if Contains mediaID "movie" then base +:+ "/ajax/episode/list/" +:+ episodeID
    else base +:+ "/ajax/episode/servers/" +:+ episodeID in
  trace st' = trace st ++ [EvDo (ajax_headers base (http.mkRequest endpoint []))]
  ∧ (∃ resp body doc,
       Client_Do (ajax_headers base (http.mkRequest endpoint [])) (world st)
       = (inr resp, world st')
       ∧ http.Body resp = inr body
       ∧ NewDocumentFromReader body = inr doc
       ∧ servers = mk_slice (omap listed_server (Each (Find doc ".ulclear > li"))))
  ∧ ∀ mediaID',
      Contains mediaID' "movie" = Contains mediaID "movie" →
      FetchEpisodeServersWithMediaID episodeID mediaID' st = (Returned (servers, None), st').
Proof.
  intros Hrun base endpoint.
  assert (∀ m, Contains m "movie" = Contains mediaID "movie" →
               FetchEpisodeServersWithMediaID episodeID m st
               = (let* r := Do (ajax_headers base (http.mkRequest endpoint [])) in
                  match r with
                  | inl err => ret (nil_slice, Some (wrapError "failed to fetch servers: " err))
                  | inr resp =>
                      match http.Body resp with
                      | inl err =>
                          ret (nil_slice,
                               Some (wrapError "failed to read servers response: " err))
                      | inr body =>
                          match NewDocumentFromReader body with
                          | inl err =>
                              ret (nil_slice,
                                   Some (wrapError "failed to parse servers HTML: " err))
                          | inr doc =>
                              ret (mk_slice (omap listed_server (Each (Find doc ".ulclear > li"))),
                                   None)
                          end
                      end
                  end) st) as Hshape.
  { intros m Hm. revert Hrun. unfold FetchEpisodeServersWithMediaID. run.
    fold base. rewrite Hm. fold endpoint. unfold NewRequest.
    destruct (NewRequest_err endpoint); [discriminate|]. intros _.
    destruct (Client_Do _ _) as [[err | resp] w1]; [done|].
    destruct (http.Body resp) as [err | body]; [done|].
    destruct (NewDocumentFromReader body) as [err | doc]; [done|].
    by rewrite FetchEpisodeServers_loop. }
  rewrite (Hshape mediaID eq_refl) in Hrun.
  assert (∀ m, Contains m "movie" = Contains mediaID "movie" →
               FetchEpisodeServersWithMediaID episodeID m st = (Returned (servers, None), st'))
    as Hsame by (intros m Hm; by rewrite (Hshape m Hm)).
  split; [|split; [|done]]; clear Hshape Hsame; revert Hrun; run;
    destruct (Client_Do _ _) as [[err | resp] w1] eqn:Hdo; [done | | done |];
    destruct (http.Body resp) as [err | body] eqn:Hbody; [done | | done |];
    destruct (NewDocumentFromReader body) as [err | doc] eqn:Hdoc; [done | | done |];
    intros [= <- <-]; [done|].
  by exists resp, body, doc.
Qed.

End Resolution.

Section Movies.
Context {W : Type} `{!NetHTTP W, !Extractors W, !Goquery, !GoText, !ProvidersPkg}.

Import types sflix.

(** ** From the page of a movie to its servers *)

Lemma HasPrefix_app s p : HasPrefix s p = true → ∃ t, s = p +:+ t.
Proof.
  revert s. induction p as [|b p IH]; intros s; [by exists s|].
  destruct s as [|a s]; [done|]. simpl.
  destruct (Ascii.eqb_spec a b) as [-> | _]; [|done].
  intros [t ->]%IH. by exists t.
Qed.

Lemma movie_prefix id :
  HasPrefix id "movie/" = true → Contains id "movie" = true ∧ Contains id "/" = true.
Proof. intros [t ->]%HasPrefix_app. split; reflexivity. Qed.

(** The page of a movie with a [data-id] gives one episode, and sends
    no request. *)
Lemma GetInfo_scrape_movie id infoURL doc (st : State W) :
  page_data_id doc ≠ "" →
  ∃ info,
    GetInfo_scrape id "movie" infoURL doc st
    = (Returned (iface_MovieInfo (Some info), None),
       mkState (mkSFlix (BaseURL (self st)) (searchCache (self st))
                        (<[id := info]> (infoCache (self st))))
               (world st) (trace st))
    ∧ elems (MovieInfo.Episodes info)
      = [Episode.mk (page_data_id doc) 1 0 (MovieInfo.Title info) (MovieInfo.ID info)]
    ∧ MovieInfo.ID info = (if Contains id "/" then id else "movie/" +:+ id).
Proof.
  intros Hdata. unfold GetInfo_scrape, GetInfo_episodes. cbv zeta.
  fold (page_data_id doc). apply String.eqb_neq in Hdata. rewrite Hdata. run.
  eexists. split; [done|]. simpl. split; [done|]. by destruct (Contains id "/").
Qed.

(** Discovery sends one request, whatever the answer. *)
Lemma FetchEpisodeServersWithMediaID_trace episodeID mediaID (st : State W) :
  let base := BaseURL (self st) in
  let endpoint :=
    if Contains mediaID "movie" then base +:+ "/ajax/episode/list/" +:+ episodeID
    else base +:+ "/ajax/episode/servers/" +:+ episodeID in
  NewRequest_err endpoint = None →
  trace (FetchEpisodeServersWithMediaID episodeID mediaID st).2
  = trace st ++ [EvDo (ajax_headers base (http.mkRequest endpoint []))].
Proof.
  intros base endpoint Hreq. unfold FetchEpisodeServersWithMediaID. run.
  fold base. unfold NewRequest.
  destruct (Contains mediaID "movie"); fold endpoint; rewrite Hreq;
    by repeat (case_match; simplify_eq/=).
Qed.

(** X12. The page of a movie leads to the movie endpoint. When the id
    starts with [movie/], is not in the cache, and its page answers
    with status 200 and carries a [data-id] [d], [GetMovieEpisodeID]
    returns [d|id] after that one request; when neither [d] nor the
    id has a ['|'], [GetServers] splits this episode id into [d] and
    the id, and asks [/ajax/episode/list/d] for the servers. *)
Theorem movie_page_leads_to_the_movie_endpoint
    (ctx : providers.Context) (id : string) (st : State W)
    (resp : http.Response) (w1 : W) (doc : Selection) :
  let base := BaseURL (self st) in
  let infoURL := base +:+ "/" +:+ id in
  let dataID := page_data_id doc in
  HasPrefix id "movie/" = true →
  Contains id "|" = false →
  infoCache (self st) !! id = None →
  NewRequest_err infoURL = None →
  Client_Do (browser_headers base (http.mkRequest infoURL [])) (world st) = (inr resp, w1) →
  http.StatusCode resp = http.StatusOK →
  document_of (http.Body resp) = inr doc →
  dataID ≠ "" →
  Contains dataID "|" = false →
  ∃ st',
    GetMovieEpisodeID ctx id st = (Returned (dataID +:+ "|" +:+ id, None), st')
    ∧ trace st' = trace st ++ [EvDo (browser_headers base (http.mkRequest infoURL []))]
    ∧ GetServers (W := W) (dataID +:+ "|" +:+ id) = FetchEpisodeServersWithMediaID dataID id
    ∧ ∀ st2 : State W,
        let endpoint := BaseURL (self st2) +:+ "/ajax/episode/list/" +:+ dataID in
        NewRequest_err endpoint = None →
        trace (GetServers (dataID +:+ "|" +:+ id) st2).2
        = trace st2
          ++ [EvDo (ajax_headers (BaseURL (self st2)) (http.mkRequest endpoint []))].
Proof.
  intros base infoURL dataID Hmovie Hid Hmiss Hreq Hdo Hstatus Hdoc Hdata Hfree.
  destruct (movie_prefix id Hmovie) as [Hcontains Hslash].
  assert (GetServers (W := W) (dataID +:+ "|" +:+ id)
          = FetchEpisodeServersWithMediaID dataID id) as Hservers.
  { unfold GetServers, split_episodeID. by rewrite Split_two. }
  destruct (GetInfo_scrape_movie id infoURL doc
              (mkState (self st) w1
                 (trace st ++ [EvDo (browser_headers base (http.mkRequest infoURL []))]))
              Hdata) as (info & Hscrape & Hepisodes & Hinfo).
  rewrite Hslash in Hinfo.
  eexists. split; [|split; [|split; [exact Hservers|]]].
  - unfold GetMovieEpisodeID, GetInfo. run. rewrite Hmiss. fold base.
    unfold GetInfo_first_URL. rewrite Hmovie. fold infoURL.
    unfold NewRequest. rewrite Hreq, Hdo, Hstatus. simpl. rewrite Hdoc, Hscrape.
    rewrite Hepisodes. simpl. rewrite Hinfo.
    assert (id ≠ "") as Hne by (intros ->; discriminate).
    apply String.eqb_neq in Hne. rewrite Hne. simpl. reflexivity.
  - done.
  - intros st2 endpoint Hendpoint. rewrite Hservers.
    pose proof (FetchEpisodeServersWithMediaID_trace dataID id st2) as Htrace.
    simpl in Htrace. rewrite Hcontains in Htrace. by apply Htrace.
Qed.

End Movies.

Section Searches.
Context {W : Type} `{!NetHTTP W, !Extractors W, !Goquery, !GoText, !ProvidersPkg}.

Import types sflix.

(** ** The search request and the results *)

Lemma HasPrefix_byte c s b : HasPrefix (String c s) (String b "") = Ascii.eqb c b.
Proof. simpl. by destruct (Ascii.eqb c b). Qed.

Lemma Contains_cons_byte c s b :
  Contains (String c s) (String b "") = Ascii.eqb c b || Contains s (String b "").
Proof.
  change (Contains (String c s) (String b ""))
    with (if HasPrefix (String c s) (String b "") then true else Contains s (String b "")).
  rewrite HasPrefix_byte. by destruct (Ascii.eqb c b).
Qed.

Lemma Contains_app_byte s t b :
  Contains (s +:+ t) (String b "") = Contains s (String b "") || Contains t (String b "").
Proof.
  induction s as [|c s IH].
  - change ("" +:+ t) with t. by destruct t.
  - change (String c s +:+ t) with (String c (s +:+ t)).
    rewrite !Contains_cons_byte, IH. apply orb_assoc.
Qed.

(** The first piece of a split has no separator. *)
Lemma split_from_head b s cur p0 rest :
  split_from (String b "") 0 cur s = p0 :: rest →
  Contains cur (String b "") = false → Contains p0 (String b "") = false.
Proof.
  revert cur. induction s as [|c s IH]; intros cur; cbn [split_from].
  - by intros [= <- <-].
  - rewrite HasPrefix_byte. destruct (Ascii.eqb c b) eqn:Hc.
    + by intros [= <- _].
    + intros Hsplit Hcur. apply (IH _ Hsplit).
      rewrite Contains_app_byte, Hcur, Contains_cons_byte, Hc. by destruct b.
Qed.

(** Each space of the query becomes a dash, and nothing else changes. *)
Lemma ReplaceAll_space_dash query :
  String.list_ascii_of_string (ReplaceAll query " " "-")
  = (fun c => if Ascii.eqb c " " then "-"%char else c)
    <$> String.list_ascii_of_string query.
Proof.
  unfold ReplaceAll. induction query as [|c query IH]; [done|].
  cbn [replace_from]. rewrite HasPrefix_byte.
  destruct (Ascii.eqb c " ") eqn:Hc.
  - change ("-" +:+ replace_from " " "-" (String.length " " - 1) query)
      with (String "-" (replace_from " " "-" 0 query)).
    simpl. by rewrite Hc, IH.
  - simpl. by rewrite Hc, IH.
Qed.

(** X13. A search that is not in the cache sends at most one request.
    When [http.NewRequest] accepts the URL it sends exactly one,
    whatever comes of it, for [BaseURL/search/] followed by the query
    in which each space byte is replaced by a dash and every other byte
    is left as it is: the query is not escaped.  When [http.NewRequest]
    rejects the URL it sends none: the search fails with "failed to
    create request" and the state is as it was. *)
Theorem Search_sends_at_most_one_request
    (ctx : providers.Context) (query : string) (st : State W) :
  let base := BaseURL (self st) in
  let searchQuery := ReplaceAll query " " "-" in
  let searchURL := base +:+ "/search/" +:+ searchQuery in
  searchCache (self st) !! query = None →
  match NewRequest_err searchURL with
  | None =>
      trace (Search ctx query st).2
      = trace st ++ [EvDo (browser_headers base (http.mkRequest searchURL []))]
  | Some err =>
      Search ctx query st
      = (Returned (nil_slice, Some (wrapError "failed to create request: " err)), st)
  end
  ∧ String.list_ascii_of_string searchQuery
    = (fun c => if Ascii.eqb c " " then "-"%char else c)
      <$> String.list_ascii_of_string query
  ∧ Contains searchQuery " " = false.
Proof.
  intros base searchQuery searchURL Hmiss. split; [|split].
  - destruct (NewRequest_err searchURL) as [err|] eqn:Hreq.
    + unfold Search. run. rewrite Hmiss. fold base searchQuery searchURL.
      unfold NewRequest. rewrite Hreq. by destruct st.
    + by apply Search_fetches.
  - apply ReplaceAll_space_dash.
  - unfold searchQuery, ReplaceAll. clear. induction query as [|c query IH]; [done|].
    cbn [replace_from]. rewrite HasPrefix_byte.
    destruct (Ascii.eqb c " ") eqn:Hc.
    + change ("-" +:+ replace_from " " "-" (String.length " " - 1) query)
        with (String "-" (replace_from " " "-" 0 query)).
      by rewrite Contains_cons_byte, IH.
    + by rewrite Contains_cons_byte, Hc, IH.
Qed.

(** The media type of a result, and the type [GetInfo] takes its id
    for. *)
Lemma Search_item_type base results sel :
  Forall (fun m =>
            (GetInfo_first_URL base (providers.Media.ID m)).1
            = (match providers.Media.Type_ m with
               | providers.MediaTypeTV => "tv"
               | _ => "movie"
               end)
            ∧ (providers.Media.Type_ m = providers.MediaTypeTV
               ∨ providers.Media.Type_ m = providers.MediaTypeMovie))
         (elems results) →
  Forall (fun m =>
            (GetInfo_first_URL base (providers.Media.ID m)).1
            = (match providers.Media.Type_ m with
               | providers.MediaTypeTV => "tv"
               | _ => "movie"
               end)
            ∧ (providers.Media.Type_ m = providers.MediaTypeTV
               ∨ providers.Media.Type_ m = providers.MediaTypeMovie))
         (elems (Search_item results sel)).
Proof.
  intros Hresults. unfold Search_item.
  destruct (negb _); [|done].
  destruct (Split _ "/") as [|p0 [|p1 parts]] eqn:Hsplit; simpl;
    apply Forall_app; (split; [done|]); apply Forall_singleton; simpl.
  - split; [done | by right].
  - apply split_from_head in Hsplit; [|done]. split; [|by right].
    unfold GetInfo_first_URL.
    destruct (HasPrefix p0 "movie/"); [done|].
    destruct (HasPrefix p0 "tv/") eqn:Htv; [|done].
    apply HasPrefix_app in Htv as [t ->]. discriminate.
  - apply split_from_head in Hsplit; [|done].
    destruct (String.eqb_spec p0 "tv") as [-> | Hne].
    + split; [done | by left].
    + split; [|by right]. unfold GetInfo_first_URL.
      destruct (HasPrefix _ "movie/"); [done|].
      destruct (HasPrefix _ "tv/") eqn:Htv; [|done]. exfalso.
      destruct p0 as [|a [|b [|c p0]]]; simpl in Htv.
      * discriminate.
      * destruct (Ascii.eqb a "t"); discriminate.
      * destruct (Ascii.eqb_spec a "t") as [-> |]; [|done].
        destruct (Ascii.eqb_spec b "v") as [-> |]; done.
      * destruct (Ascii.eqb_spec a "t") as [-> |]; [|done].
        destruct (Ascii.eqb_spec b "v") as [-> |]; [|done].
        destruct (Ascii.eqb_spec c "/") as [-> |]; [|done]. discriminate.
Qed.

(** When the first URL answers with status 200 and a page that
    parses, the info has the media type of that URL. *)
Lemma GetInfo_first_answer id (st : State W) resp w1 doc :
  infoCache (self st) !! id = None →
  NewRequest_err (GetInfo_first_URL (BaseURL (self st)) id).2 = None →
  Client_Do (browser_headers (BaseURL (self st))
               (http.mkRequest (GetInfo_first_URL (BaseURL (self st)) id).2 []))
            (world st) = (inr resp, w1) →
  http.StatusCode resp = http.StatusOK →
  document_of (http.Body resp) = inr doc →
  ∃ info st',
    GetInfo id st = (Returned (iface_MovieInfo (Some info), None), st')
    ∧ MovieInfo.Type_ info = (GetInfo_first_URL (BaseURL (self st)) id).1.
Proof.
  intros Hmiss Hurl Hdo Hstatus Hdoc.
  unfold GetInfo. run. rewrite Hmiss.
  destruct (GetInfo_first_URL (BaseURL (self st)) id) as [mediaType infoURL].
  simpl in *. unfold NewRequest at 1. rewrite Hurl, Hdo, Hstatus. simpl. rewrite Hdoc.
  match goal with
  | |- context [GetInfo_scrape ?a ?b ?c ?d ?s] =>
      destruct (GetInfo_scrape_succeeds a b c d s) as (info & st' & Hrun & _ & Htype & _)
  end.
  eauto.
Qed.

(** X14. The results of a search are first tried as what they are
    listed as.  For a result found on the site (not taken from the
    cache): it is listed as a show or as a movie; the first URL that
    [GetInfo] tries for its id has the type "tv" exactly when the
    result is listed as a show, and "movie" otherwise; and so, when
    that first URL answers with status 200 and a page that parses,
    [GetMediaDetails] returns the media type of the listing.  (When
    the first URL fails, the [/tv/] URL is tried, and a result listed
    as a movie may then open as a show.) *)
Theorem Search_results_open_as_listed_when_their_page_answers
    (ctx : providers.Context) (query : string) (st st' : State W)
    (results : slice providers.Media.t) :
  searchCache (self st) !! query = None →
  Search ctx query st = (Returned (results, None), st') →
  Forall
    (fun m =>
       (providers.Media.Type_ m = providers.MediaTypeTV
        ∨ providers.Media.Type_ m = providers.MediaTypeMovie)
       ∧ (∀ base,
            (GetInfo_first_URL base (providers.Media.ID m)).1
            = (match providers.Media.Type_ m with
               | providers.MediaTypeTV => "tv"
               | _ => "movie"
               end))
       ∧ ∀ (opened : State W) resp w1 doc,
           let base := BaseURL (self opened) in
           let firstURL := (GetInfo_first_URL base (providers.Media.ID m)).2 in
           infoCache (self opened) !! providers.Media.ID m = None →
           NewRequest_err firstURL = None →
           Client_Do (browser_headers base (http.mkRequest firstURL [])) (world opened)
           = (inr resp, w1) →
           http.StatusCode resp = http.StatusOK →
           document_of (http.Body resp) = inr doc →
           ∃ details opened',
             GetMediaDetails ctx (providers.Media.ID m) opened
             = (Returned (Some details, None), opened')
             ∧ providers.Media.Type_ (providers.MediaDetails.Media details)
               = providers.Media.Type_ m)
    (elems results).
Proof.
  intros Hmiss Hrun.
  assert (∀ base,
            Forall (fun m =>
                      (GetInfo_first_URL base (providers.Media.ID m)).1
                      = (match providers.Media.Type_ m with
                         | providers.MediaTypeTV => "tv"
                         | _ => "movie"
                         end)
                      ∧ (providers.Media.Type_ m = providers.MediaTypeTV
                         ∨ providers.Media.Type_ m = providers.MediaTypeMovie))
                   (elems results)) as Htyped.
  { intros base. revert Hrun. unfold Search. run. rewrite Hmiss.
    intros Hrun. repeat (case_match; simplify_eq/=).
    match goal with
    | |- context [fold_left Search_item ?items _] => generalize items
    end.
    intros items.
    assert (Forall (fun m =>
              (GetInfo_first_URL base (providers.Media.ID m)).1
              = (match providers.Media.Type_ m with
                 | providers.MediaTypeTV => "tv"
                 | _ => "movie"
                 end)
              ∧ (providers.Media.Type_ m = providers.MediaTypeTV
                 ∨ providers.Media.Type_ m = providers.MediaTypeMovie))
             (elems (@nil_slice providers.Media.t))) as Hacc by constructor.
    revert Hacc. generalize (@nil_slice providers.Media.t).
    induction items as [|sel items IH]; intros acc Hacc; [done|].
    simpl. apply IH. by apply Search_item_type. }
  apply Forall_forall. intros m Hm.
  assert (∀ base,
            (GetInfo_first_URL base (providers.Media.ID m)).1
            = (match providers.Media.Type_ m with
               | providers.MediaTypeTV => "tv"
               | _ => "movie"
               end)) as Hfirst.
  { intros base. specialize (Htyped base).
    rewrite Forall_forall in Htyped. by apply Htyped. }
  assert (providers.Media.Type_ m = providers.MediaTypeTV
          ∨ providers.Media.Type_ m = providers.MediaTypeMovie) as Hlisted.
  { specialize (Htyped ""). rewrite Forall_forall in Htyped. by apply Htyped. }
  split; [done|]. split; [done|].
  intros opened resp w1 doc base firstURL Hcold Hurl Hdo Hstatus Hdoc.
  destruct (GetInfo_first_answer _ _ _ _ _ Hcold Hurl Hdo Hstatus Hdoc)
    as (info & opened' & Hinfo & Htype).
  unfold GetMediaDetails. rewrite (bind_run _ _ _ _ _ Hinfo).
  eexists _, _. split; [reflexivity|]. simpl.
  rewrite Htype, Hfirst. by destruct Hlisted as [-> | ->].
Qed.

(** ** The last season of an info *)

Lemma wrap_small n : int_range n → wrap n = n.
Proof.
  unfold int_range, min_int, max_int, wrap. intros Hn.
  rewrite Z.mod_small; lia.
Qed.

Lemma filter_season_below n (episodes : list Episode.t) :
  Forall (fun ep => Episode.Season ep < n) episodes →
  filter (fun ep => Episode.Season ep = n) episodes = [].
Proof.
  induction 1 as [|ep episodes Hep _ IH]; [done|].
  rewrite filter_cons_False by lia. done.
Qed.

(** X15. The last season of an info is the greatest season number of
    its episodes, or 0 when none is positive, and the count that goes
    with it is the number of the episodes of that season (for a list
    that an [int] can count). *)
Theorem GetInfo_lastSeason_is_the_greatest (episodes : list Episode.t) :
  Z.of_nat (length episodes) < 2 ^ 63 →
  let '(lastSeason, total) := GetInfo_lastSeason episodes in
  0 <= lastSeason
  ∧ Forall (fun ep => Episode.Season ep <= lastSeason) episodes
  ∧ (lastSeason = 0 ∨ ∃ ep, ep ∈ episodes ∧ Episode.Season ep = lastSeason)
  ∧ total = Z.of_nat (length (filter (fun ep => Episode.Season ep = lastSeason) episodes)).
Proof.
  unfold GetInfo_lastSeason.
  induction episodes as [|ep episodes IH] using rev_ind; intros Hlen.
  - simpl. repeat split; [lia | constructor | by left].
  - rewrite length_app in Hlen. simpl in Hlen.
    rewrite fold_left_app. simpl.
    destruct (fold_left _ episodes (0, 0)) as [lastSeason total].
    destruct IH as (Hpos & Hmax & Hreached & Htotal); [lia|].
    pose proof (length_filter (fun ep => Episode.Season ep = lastSeason) episodes)
      as Hfewer.
    destruct (Z.ltb_spec lastSeason (Episode.Season ep)) as [Hlt | Hge].
    + split; [lia|]. split; [|split].
      * apply Forall_app. split; [|by apply Forall_singleton].
        eapply Forall_impl; [exact Hmax|]. simpl. lia.
      * right. exists ep. split; [|done]. apply elem_of_app. right. apply list_elem_of_here.
      * rewrite filter_app, length_app, filter_cons_True, filter_nil by done.
        rewrite filter_season_below; [done|].
        eapply Forall_impl; [exact Hmax|]. simpl. lia.
    + assert (Forall (fun ep => Episode.Season ep <= lastSeason) (episodes ++ [ep]))
        as Hmax' by (apply Forall_app; split; [done | by apply Forall_singleton]).
      assert (lastSeason = 0
              ∨ ∃ ep', ep' ∈ episodes ++ [ep] ∧ Episode.Season ep' = lastSeason)
        as Hreached'.
      { destruct Hreached as [? | (ep' & Hin & Heq)]; [by left|].
        right. exists ep'. split; [|done]. apply elem_of_app. by left. }
      destruct (Z.eqb_spec (Episode.Season ep) lastSeason) as [Heq | Hne];
        rewrite filter_app, length_app.
      * repeat (split; [done|]).
        rewrite filter_cons_True, filter_nil by done. simpl.
        rewrite wrap_small; [lia|]. unfold int_range, min_int, max_int. lia.
      * repeat (split; [done|]).
        rewrite filter_cons_False, filter_nil by done. simpl. lia.
Qed.

End Searches.

Section Panics.
Context {W : Type} `{!NetHTTP W, !Extractors W, !Goquery, !GoText, !ProvidersPkg}.

Import types sflix.

(** ** The one panic of the resolution *)

(** A nil pointer with a nil error can only come from the extractor. *)
Lemma extractSourcesFromServer_nil server st st1 :
  extractSourcesFromServer server st = (Returned (None, None), st1) →
  after_nil_extraction st1.
Proof.
  unfold extractSourcesFromServer. run. intros Hrun.
  repeat (case_match; simplify_eq/=).
  eexists _, _, (mkState _ _ _). simpl. split; [eassumption|]. done.
Qed.

Lemma try_servers_panic servers lastErr st msg st' :
  try_servers servers lastErr st = (Panicked msg, st') →
  msg = nil_dereference ∧ after_nil_extraction st'.
Proof.
  revert lastErr st. induction servers as [|server servers IH]; intros lastErr st; simpl.
  - by destruct lastErr.
  - unfold bind at 1.
    destruct (returns_extractSourcesFromServer server st) as ([sources err] & st1 & Hrun).
    rewrite Hrun. destruct err as [err|]; [apply IH|].
    destruct sources as [v|].
    + destruct (0 <? _); [discriminate | apply IH].
    + intros [= <- <-]. split; [done|]. by eapply extractSourcesFromServer_nil.
Qed.

Lemma GetSources_panic episodeID st msg st' :
  GetSources episodeID st = (Panicked msg, st') →
  msg = nil_dereference ∧ after_nil_extraction st'.
Proof.
  unfold GetSources. destruct (split_episodeID episodeID) as [actualEpisodeID mediaID].
  unfold bind at 1.
  destruct (FetchEpisodeSourcesWithMediaID _ _ st) as [[[sources err] | msg'] st1] eqn:Hrun;
    [discriminate|].
  intros [= <- <-]. revert Hrun. unfold FetchEpisodeSourcesWithMediaID, bind at 1.
  destruct (returns_FetchEpisodeServersWithMediaID actualEpisodeID mediaID st)
    as ([servers err] & st0 & ->).
  destruct err; [discriminate|]. destruct (_ =? _); [discriminate|].
  apply try_servers_panic.
Qed.

(** X25. The resolution can panic in one way only. When [GetSources],
    [GetStreamURL] or [GetAvailableQualities] panics, it is with a nil
    pointer dereference, in the state that an extractor has just left
    after it returned a nil pointer together with a nil error: the
    pipeline reads the sources of that result without a check. *)
Theorem resolution_panics_only_after_a_nil_extraction
    (ctx : providers.Context) (episodeID : string) (quality : providers.Quality)
    (st st' : State W) (msg : string) :
  GetSources episodeID st = (Panicked msg, st')
  ∨ GetStreamURL ctx episodeID quality st = (Panicked msg, st')
  ∨ GetAvailableQualities ctx episodeID st = (Panicked msg, st') →
  msg = nil_dereference ∧ after_nil_extraction st'.
Proof.
  intros [Hrun | [Hrun | Hrun]]; [by eapply GetSources_panic | |];
    revert Hrun; [unfold GetStreamURL | unfold GetAvailableQualities];
    unfold bind at 1;
    destruct (GetSources episodeID st) as [[[res err] | msg'] st1] eqn:Hsources;
    try (intros [= <- <-]; by eapply GetSources_panic);
    (destruct err as [err|]; [discriminate|]);
    destruct (GetSources_returned _ _ _ _ _ Hsources) as (p & -> & Hfetch);
    destruct (FetchEpisodeSourcesWithMediaID_nil_error _ _ _ _ _ Hfetch) as [v ->];
    [by repeat case_match | discriminate].
Qed.

End Panics.

Section Browsing.
Context {W : Type} `{!NetHTTP W, !Extractors W, !Goquery, !GoText, !ProvidersPkg}.

Import types sflix.

(** ** From the seasons to the episodes *)

(** Sorted by a key that takes each value of [ks] once, a list is
    cut into pieces that make it up again. *)
Lemma pieces_by_key {A B} (key : A → Z) (f : A → B) (ks : list Z) (l : list A) :
  NoDup ks → Forall (fun x => key x ∈ ks) l →
  concat ((fun k => f <$> filter (fun x => key x = k) l) <$> ks) ≡ₚ f <$> l.
Proof.
  intros Hks. induction 1 as [|x l Hx _ IH].
  - simpl. induction ks as [|k ks IHks]; [done|].
    apply NoDup_cons in Hks as [_ Hks]. simpl. by apply IHks.
  - apply list_elem_of_split in Hx as (ks1 & ks2 & ->).
    apply NoDup_app in Hks as Hparts. destruct Hparts as (_ & Hfront & Hback).
    apply NoDup_cons in Hback as [Hback _].
    revert IH. rewrite !fmap_app, !fmap_cons, !concat_app, !concat_cons.
    rewrite filter_cons_True by done.
    assert (∀ ks' : list Z, key x ∉ ks' →
                   (fun k => f <$> filter (fun y => key y = k) (x :: l)) <$> ks'
                   = (fun k => f <$> filter (fun y => key y = k) l) <$> ks') as Hsame.
    { intros ks' Hnot. apply Forall_fmap_ext, Forall_forall. intros k Hk.
      rewrite filter_cons_False; [done|]. intros Heq. apply Hnot. by rewrite Heq. }
    rewrite !Hsame by (done || (intros Hin; by apply (Hfront (key x)); [|left])).
    intros IH. rewrite fmap_cons, <- IH, <- app_comm_cons.
    symmetry. apply Permutation_middle.
Qed.

(** X23. Browsing a title season by season shows every episode once.
    After [GetSeasons] has returned the seasons of a media id without
    ['|'], [GetEpisodes] on the id of each of these seasons returns
    with a nil error, from the cache (the state is left as it is: no
    request), the episodes of the info that count in that season; and
    these listings, taken together, are the episodes of the info, each
    one once (the info itself, as one episode, when it has none). *)
Theorem browsing_lists_every_episode_once
    (ctx : providers.Context) (mediaID : string) (st st' : State W)
    (seasons : slice providers.Season.t) :
  Contains mediaID "|" = false →
  cached_ints st →
  GetSeasons ctx mediaID st = (Returned (seasons, None), st') →
  ∃ info,
    infoCache (self st') !! mediaID = Some info
    ∧ Forall
        (fun s =>
           ∃ episodes,
             GetEpisodes ctx (providers.Season.ID s) st' = (Returned (episodes, None), st')
             ∧ elems episodes = season_listing info (providers.Season.Number s))
        (elems seasons)
    ∧ concat ((fun s => season_listing info (providers.Season.Number s)) <$> elems seasons)
      ≡ₚ match elems (MovieInfo.Episodes info) with
         | [] => [providers.Episode.mk (MovieInfo.ID info) 1 (MovieInfo.Title info) 1]
         | listed => listed_episode <$> listed
         end.
Proof.
  intros Hfree Hints Hrun. unfold GetSeasons in Hrun.
  apply bind_returned in Hrun as ([r err] & st1 & Hinfo & Hrun).
  destruct err as [err|]; [by inversion Hrun|].
  destruct (GetInfo_nil_error _ _ _ _ Hinfo) as (info & -> & Hhit).
  pose proof (GetInfo_cached_ints mediaID st Hints) as Hints1.
  rewrite Hinfo in Hints1. specialize (Hints1 _ _ Hhit).
  assert (∀ id n,
            GetEpisodes_target id = (mediaID, n) →
            ∃ episodes,
              GetEpisodes ctx id st1 = (Returned (episodes, None), st1)
              ∧ elems episodes = season_listing info n) as Hlisting.
  { intros id n Htarget. unfold GetEpisodes. rewrite Htarget. unfold GetEpisodes_of.
    rewrite (bind_run _ _ _ _ _ (GetInfo_cached _ _ _ Hhit)).
    eexists. split; [reflexivity|]. unfold season_listing, len.
    destruct (elems (MovieInfo.Episodes info)) as [|ep listed] eqn:Hlisted.
    - simpl. by destruct (n =? 1).
    - rewrite ?Hlisted.
      replace (Z.of_nat (length (ep :: listed)) =? 0) with false by done.
      simpl. apply GetEpisodes_collect_filter. }
  exists info.
  destruct (Z.eqb_spec (len (MovieInfo.Episodes info)) 0) as [Hnone | Hsome].
  - revert Hrun. run. intros [= <- <-]. split; [done|].
    assert (elems (MovieInfo.Episodes info) = []) as Hnil.
    { unfold len in Hnone. destruct (elems (MovieInfo.Episodes info)); [done|].
      simpl in Hnone. lia. }
    split.
    + apply Forall_singleton. simpl. by apply Hlisting, GetEpisodes_target_plain.
    + unfold season_listing. by rewrite Hnil.
  - pose proof (GetSeasons_collect_encoded mediaID _ Hints1) as Hencoded.
    pose proof (GetSeasons_collect_complete mediaID (elems (MovieInfo.Episodes info)))
      as Hcomplete.
    pose proof (GetSeasons_collect_distinct mediaID (elems (MovieInfo.Episodes info)))
      as Hdistinct.
    destruct (GetSeasons_collect _ _) as [seasonsMap collected]. simpl in *.
    assert (st' = st1 ∧ elems seasons ≡ₚ elems collected) as [-> Hperm].
    { revert Hrun. run. intros [= <- <-]. split; [done|].
      destruct collected; [done|]. simpl. apply GetSeasons_sort_Permutation. }
    split; [done|]. split.
    + rewrite Hperm. eapply Forall_impl; [exact Hencoded|].
      intros s [Hid Hn]. simpl. apply Hlisting. rewrite Hid.
      by apply GetEpisodes_target_season_id.
    + unfold season_listing.
      destruct (elems (MovieInfo.Episodes info)) as [|ep listed] eqn:Hlisted;
        [unfold len in Hsome; by rewrite Hlisted in Hsome|].
      set (all := ep :: listed) in *.
      change (listed_episode ep :: _) with (listed_episode <$> all).
      rewrite <- (pieces_by_key season_of listed_episode
                    (providers.Season.Number <$> elems seasons) all).
      * by rewrite <- list_fmap_compose.
      * by rewrite Hperm.
      * apply Forall_forall. intros ep' Hin.
        destruct (Hcomplete ep' Hin) as (s & Hs & Hnum).
        apply list_elem_of_fmap. exists s. split; [by rewrite Hnum | by rewrite Hperm].
Qed.

End Browsing.

Section Carrying.
Context {W : Type} `{!NetHTTP W, !Extractors W, !Goquery, !GoText, !ProvidersPkg}.

Import types sflix.

(** ** The media id that the episodes carry *)




End Carrying.

Section Politeness.
Context {W : Type} `{!NetHTTP W, !Extractors W, !Goquery, !GoText, !ProvidersPkg}.

Import types sflix.

(** ** Where the requests go *)

Lemma keeps_to_ret base {A} (a : A) : keeps_to base (@ret W A a).
Proof. intros st Hbase. split; [done|]. exists []. by rewrite app_nil_r. Qed.

Lemma keeps_to_panic base {A} msg : keeps_to base (@panic W A msg).
Proof. intros st Hbase. split; [done|]. exists []. by rewrite app_nil_r. Qed.

Lemma keeps_to_bind base {A B} (m : M W A) (k : A → M W B) :
  keeps_to base m → (∀ a, keeps_to base (k a)) → keeps_to base (bind m k).
Proof.
  intros Hm Hk st Hbase. unfold bind.
  destruct (Hm st Hbase) as (Hbase1 & more & Hmore & Hpolite).
  destruct (m st) as [[a | msg] st1]; simpl in *; [|eauto].
  destruct (Hk a st1 Hbase1) as (Hbase2 & more' & Hmore' & Hpolite').
  split; [done|]. exists (more ++ more').
  rewrite Hmore', Hmore, app_assoc. split; [done|]. by apply Forall_app.
Qed.

(** The base URL that a method reads is the one of the adapter. *)
Lemma keeps_to_get_BaseURL base {B} (k : string → M W B) :
  keeps_to base (k base) → keeps_to base (bind get_BaseURL k).
Proof. intros Hk st Hbase. unfold bind, get_BaseURL. rewrite Hbase. by apply Hk. Qed.

Lemma keeps_to_log base server : keeps_to base (W := W) (log (EvExtractFrom server)).
Proof. intros st Hbase. split; [done|]. exists [EvExtractFrom server]. split; [done|]. by apply Forall_singleton. Qed.

Lemma keeps_to_Do base req : polite base (EvDo req) → keeps_to base (Do req).
Proof.
  intros Hreq st Hbase. unfold Do. destruct (Client_Do req (world st)).
  split; [done|]. exists [EvDo req]. split; [done|]. by apply Forall_singleton.
Qed.

Lemma keeps_to_Extract base name embedURL :
  embedURL ≠ "" → keeps_to base (Extract name embedURL).
Proof.
  intros Hlink st Hbase. unfold Extract.
  destruct (GetExtractor_Extract name embedURL (world st)).
  split; [done|]. exists [EvExtract name embedURL]. split; [done|]. by apply Forall_singleton.
Qed.

Lemma keeps_to_silent base {A} (m : M W A) :
  (∀ st, BaseURL (self (m st).2) = BaseURL (self st) ∧ trace (m st).2 = trace st) →
  keeps_to base m.
Proof.
  intros Hm st Hbase. destruct (Hm st) as [Hsame Htrace].
  split; [congruence|]. exists []. by rewrite app_nil_r.
Qed.

Lemma keeps_to_for_range base {A B} (xs : list A) (body : B → A → M W B) acc :
  (∀ acc x, keeps_to base (body acc x)) → keeps_to base (for_range xs body acc).
Proof.
  intros Hbody. revert acc. induction xs as [|x xs IH]; intros acc; simpl.
  - apply keeps_to_ret.
  - apply keeps_to_bind; [apply Hbody | apply IH].
Qed.

(** The requests made with the two sets of headers. *)
Lemma polite_browser base path :
  polite base (EvDo (browser_headers base (http.mkRequest (base +:+ path) []))).
Proof.
  split; [by exists path|]. simpl. split.
  - apply list_elem_of_here.
  - apply list_elem_of_further, list_elem_of_here.
Qed.

Lemma polite_ajax base path :
  polite base (EvDo (ajax_headers base (http.mkRequest (base +:+ path) []))).
Proof.
  split; [by exists path|]. simpl. split.
  - apply list_elem_of_here.
  - apply list_elem_of_further, list_elem_of_here.
Qed.

(** A request made of a URL under the base, if it can be made. *)
Lemma keeps_to_request base path {B}
    (headers : http.Request → http.Request) (failed : error → M W B)
    (k : error + http.Response → M W B) :
  polite base (EvDo (headers (http.mkRequest (base +:+ path) []))) →
  (∀ err, keeps_to base (failed err)) →
  (∀ r, keeps_to base (k r)) →
  keeps_to base
    (match NewRequest (base +:+ path) with
     | inl err => failed err
     | inr req => bind (Do (headers req)) k
     end).
Proof.
  intros Hpolite Hfailed Hk. unfold NewRequest.
  destruct (NewRequest_err _); [apply Hfailed|].
  apply keeps_to_bind; [by apply keeps_to_Do | apply Hk].
Qed.

Ltac settle :=
  repeat first
    [ apply keeps_to_ret | apply keeps_to_panic | apply keeps_to_log
    | apply keeps_to_get_BaseURL
    | apply (keeps_to_request _ _ (browser_headers _)); [apply polite_browser | |]
    | apply (keeps_to_request _ _ (ajax_headers _)); [apply polite_ajax | |]
    | solve [apply keeps_to_silent; done]
    | solve [apply keeps_to_Extract; by apply String.eqb_neq]
    | apply keeps_to_bind
    | match goal with |- ∀ _, _ => intro end
    | case_match ].

Lemma keeps_to_fetchEpisodeList base showID : keeps_to base (fetchEpisodeList showID).
Proof.
  unfold fetchEpisodeList. settle.
  apply keeps_to_for_range. intros acc [seasonIdx seasonSel].
  unfold fetchEpisodeList_season. settle.
Qed.

Lemma keeps_to_GetInfo_scrape base id mediaType infoURL doc :
  keeps_to base (GetInfo_scrape id mediaType infoURL doc).
Proof.
  unfold GetInfo_scrape. apply keeps_to_bind.
  - unfold GetInfo_episodes.
    destruct (_ && _); [apply keeps_to_ret|].
    destruct (_ && _); [|apply keeps_to_ret].
    apply keeps_to_bind; [apply keeps_to_fetchEpisodeList|]. settle.
  - intros [[episodes lastSeason] total].
    apply keeps_to_bind; [by apply keeps_to_silent | settle].
Qed.

Lemma GetInfo_first_URL_under base id :
  ∃ path, (GetInfo_first_URL base id).2 = base +:+ path.
Proof. unfold GetInfo_first_URL. repeat case_match; simpl; eauto. Qed.

Lemma keeps_to_GetInfo base id : keeps_to base (GetInfo id).
Proof.
  unfold GetInfo. apply keeps_to_bind; [by apply keeps_to_silent|].
  intros [info|]; [apply keeps_to_ret|]. apply keeps_to_get_BaseURL.
  destruct (GetInfo_first_URL_under base id) as [path Hpath].
  destruct (GetInfo_first_URL base id) as [mediaType infoURL]. simpl in Hpath. subst.
  apply (keeps_to_request _ _ (browser_headers _)); [apply polite_browser | settle |].
  intros r. apply keeps_to_bind.
  - destruct r as [err | resp]; [|destruct (_ =? _); [apply keeps_to_ret|]]; settle.
  - intros [err | [[resp mediaType'] infoURL']]; [apply keeps_to_ret|].
    destruct (document_of _); [apply keeps_to_ret | apply keeps_to_GetInfo_scrape].
Qed.

Lemma keeps_to_Search base ctx query : keeps_to base (Search ctx query).
Proof.
  unfold Search. apply keeps_to_bind; [by apply keeps_to_silent|].
  intros [results|]; [apply keeps_to_ret|]. settle.
Qed.

Lemma keeps_to_FetchEpisodeServersWithMediaID base episodeID mediaID :
  keeps_to base (FetchEpisodeServersWithMediaID episodeID mediaID).
Proof.
  unfold FetchEpisodeServersWithMediaID. apply keeps_to_get_BaseURL.
  destruct (Contains mediaID "movie"); settle.
Qed.

Lemma keeps_to_extractSourcesFromServer base server :
  keeps_to base (extractSourcesFromServer server).
Proof.
  unfold extractSourcesFromServer. settle.
Qed.

Lemma keeps_to_try_servers base servers lastErr :
  keeps_to base (try_servers servers lastErr).
Proof.
  revert lastErr. induction servers as [|server servers IH]; intros lastErr; simpl.
  - settle.
  - apply keeps_to_bind; [apply keeps_to_extractSourcesFromServer|].
    intros [sources err]. repeat case_match; try apply IH; settle.
Qed.

Lemma keeps_to_GetSources base episodeID : keeps_to base (GetSources episodeID).
Proof.
  unfold GetSources. destruct (split_episodeID episodeID) as [actualEpisodeID mediaID].
  apply keeps_to_bind; [|settle]. unfold FetchEpisodeSourcesWithMediaID.
  apply keeps_to_bind; [apply keeps_to_FetchEpisodeServersWithMediaID|].
  intros [servers err]. repeat case_match; try apply keeps_to_try_servers; settle.
Qed.

(** X22. Every method of the adapter keeps to its site. Whatever the
    arguments and whatever the site and the extractors answer, each
    request that a method sends is for a URL that starts with the base
    URL of the adapter and carries the [User-Agent] of the package and
    the base URL as [Referer]; an extractor is only called with a link
    that is not empty; and the base URL is left as it is. *)
Theorem every_request_goes_to_the_site
    (base : string) (ctx : providers.Context) (id : string)
    (quality : providers.Quality) :
  keeps_to base (Search ctx id)
  ∧ keeps_to base (GetInfo id)
  ∧ keeps_to base (GetMediaDetails ctx id)
  ∧ keeps_to base (GetSeasons ctx id)
  ∧ keeps_to base (GetEpisodes ctx id)
  ∧ keeps_to base (GetMovieEpisodeID ctx id)
  ∧ keeps_to base (GetServers id)
  ∧ keeps_to base (GetSources id)
  ∧ keeps_to base (GetStreamURL ctx id quality)
  ∧ keeps_to base (GetAvailableQualities ctx id).
Proof.
  repeat apply conj.
  - apply keeps_to_Search.
  - apply keeps_to_GetInfo.
  - unfold GetMediaDetails. apply keeps_to_bind; [apply keeps_to_GetInfo | settle].
  - unfold GetSeasons. apply keeps_to_bind; [apply keeps_to_GetInfo | settle].
  - unfold GetEpisodes. destruct (GetEpisodes_target id) as [mediaID seasonNum].
    unfold GetEpisodes_of. apply keeps_to_bind; [apply keeps_to_GetInfo | settle].
  - unfold GetMovieEpisodeID. apply keeps_to_bind; [apply keeps_to_GetInfo | settle].
  - unfold GetServers. destruct (split_episodeID id) as [actualEpisodeID mediaID].
    apply keeps_to_FetchEpisodeServersWithMediaID.
  - apply keeps_to_GetSources.
  - unfold GetStreamURL. apply keeps_to_bind; [apply keeps_to_GetSources | settle].
  - unfold GetAvailableQualities. apply keeps_to_bind; [apply keeps_to_GetSources | settle].
Qed.

End Politeness.

(** * Further properties of the registry *)

Section RegistryMore.
Context {LP : Type} `{!registry.PluginHost LP}.

Import registry.

(** ** Which files are plugins *)

Lemma rev_app_app s t acc :
  String.rev_app (s +:+ t) acc = String.rev_app t (String.rev_app s acc).
Proof.
  revert acc. induction s as [|a s IH]; intros acc; [done|].
  change (String a s +:+ t) with (String a (s +:+ t)). simpl. apply IH.
Qed.

Lemma rev_app_rev_app s acc acc' :
  String.rev_app (String.rev_app s acc) acc' = String.rev_app acc (s +:+ acc').
Proof.
  revert acc acc'. induction s as [|a s IH]; intros acc acc'; [done|].
  simpl. by rewrite IH.
Qed.

Lemma rev_app_rev s acc : String.rev_app s acc = String.rev s +:+ acc.
Proof.
  revert acc. induction s as [|a s IH]; intros acc; [done|].
  unfold String.rev. simpl. by rewrite IH, (IH (String a "")), app_assoc_string.
Qed.

Lemma rev_involutive s : String.rev (String.rev s) = s.
Proof. unfold String.rev. by rewrite rev_app_rev_app, app_empty_r. Qed.

(** A non-empty extension starts at a dot, after which the path has
    no dot and no separator. *)
Lemma Ext_scan_dot reversed suffix ext :
  Ext_scan reversed suffix = ext → ext ≠ "" →
  ∃ pre post,
    reversed = pre +:+ String "." post ∧ ext = String "." (String.rev_app pre suffix).
Proof.
  revert suffix. induction reversed as [|c reversed IH]; intros suffix; simpl.
  - by intros <-.
  - destruct (Ascii.eqb_spec c "/") as [-> | _]; [by intros <-|].
    destruct (Ascii.eqb_spec c ".") as [-> | _].
    + intros <- _. by exists "", reversed.
    + intros Hscan Hext. destruct (IH _ Hscan Hext) as (pre & post & -> & ->).
      by exists (String c pre), post.
Qed.

(** X16. The plugin files are the entries that are not directories and
    whose name ends with [.lua], in this case and with nothing after
    it: the name [.lua] alone is one. *)
Theorem plugin_files_end_with_lua (file : DirEntry) :
  is_plugin_file file = true
  ↔ IsDir file = false ∧ ∃ stem, entry_Name file = stem +:+ ".lua".
Proof.
  unfold is_plugin_file. rewrite andb_true_iff, negb_true_iff, String.eqb_eq.
  split; intros [Hdir Hname]; (split; [done|]).
  - unfold Ext in Hname.
    destruct (Ext_scan_dot _ _ _ Hname) as (pre & post & Hrev & Hext); [done|].
    injection Hext as Hpre.
    assert (pre = "aul") as ->.
    { change (String.rev_app pre "") with (String.rev pre) in Hpre.
      by rewrite <- (rev_involutive pre), <- Hpre. }
    exists (String.rev post).
    rewrite <- (rev_involutive (entry_Name file)), Hrev.
    unfold String.rev at 1.
    change ("aul" +:+ String "." post) with ("aul." +:+ post).
    rewrite rev_app_app. simpl. apply rev_app_rev.
  - destruct Hname as [stem ->]. unfold Ext, String.rev. by rewrite rev_app_app.
Qed.

(** ** What [register] stores *)

Lemma Contains_suffix s sub : Contains (s +:+ sub) sub = true.
Proof.
  assert (∀ t, HasPrefix t t = true) as Hrefl.
  { induction t as [|a t IH]; [done|]. simpl. by rewrite Ascii.eqb_refl. }
  induction s as [|c s IH].
  - change ("" +:+ sub) with sub. destruct sub; simpl; [done|].
    by rewrite Ascii.eqb_refl, Hrefl.
  - change (String c s +:+ sub) with (String c (s +:+ sub)).
    change (Contains (String c (s +:+ sub)) sub)
      with (if HasPrefix (String c (s +:+ sub)) sub then true
            else Contains (s +:+ sub) sub).
    by destruct (HasPrefix _ sub).
Qed.

(** X17. In remote mode the local factory is not used, and the URL
    given to the remote client names the provider: a remote URL that
    contains [/name] is passed as it is, and any other has its trailing
    slashes cut and [/mediaType/name] added; either way the URL
    contains [/name]. Without a remote URL nothing is registered, even
    when there is a local factory. *)
Theorem remote_URL_names_the_provider
    (name mediaType : string) (settings : config.ProviderSettings)
    (localFactory : option (unit → Provider LP)) (r : Registry LP) :
  config.Enabled settings = true →
  config.Mode settings = "remote" →
  let registered := register name settings localFactory mediaType r in
  if String.eqb (config.RemoteURL settings) "" then registered = r
  else
    ∃ url,
      Get name registered = (Some (RemoteProvider name url), None)
      ∧ Contains url ("/" +:+ name) = true
      ∧ url = (if Contains (config.RemoteURL settings) ("/" +:+ name)
               then config.RemoteURL settings
               else TrimRight_byte (config.RemoteURL settings) "/"
                    +:+ "/" +:+ mediaType +:+ "/" +:+ name).
Proof.
  intros Henabled Hmode registered. subst registered.
  unfold register. rewrite Henabled, Hmode. simpl.
  destruct (String.eqb (config.RemoteURL settings) ""); [done|]. simpl.
  eexists. split; [unfold Get; simpl; by rewrite lookup_insert_eq|].
  destruct (Contains (config.RemoteURL settings) ("/" +:+ name)) eqn:Hnamed; simpl.
  - done.
  - split; [|done].
    rewrite <- (app_assoc_string _ "/" (mediaType +:+ "/" +:+ name)).
    rewrite <- (app_assoc_string _ mediaType ("/" +:+ name)).
    apply Contains_suffix.
Qed.

(** ** What [Load] leaves in the registry *)

(** X18. [Load] never removes a provider: a name that [Get] finds
    before [Load] is found after it, whatever the configuration and the
    plugin directory (the provider under the name may have been
    replaced). *)
Theorem Load_never_removes
    (cfg : config.Config) (r : Registry LP) (name : string) (p : Provider LP) :
  Get name r = (Some p, None) →
  ∃ p', Get name (Load cfg r).1 = (Some p', None).
Proof.
  unfold Get. intros Hget.
  assert (is_Some (providers_ r !! name)) as Hbefore
    by (destruct (providers_ r !! name); [eauto | discriminate]).
  assert (is_Some (providers_ (Load cfg r).1 !! name)) as [p' Hafter].
  { unfold Load, Load_with.
    assert (is_Some (providers_ (register_known cfg r) !! name)) as Hknown
      by (unfold register_known; by repeat apply register_keeps).
    destruct (ReadDir luaDir) as [err | files]; [done|].
    by apply Load_file_keeps. }
  exists p'. by rewrite Hafter.
Qed.

(** With the Lua providers switched off, or in remote mode without a
    remote URL, a plugin is not registered. *)
Lemma register_nothing name settings localFactory mediaType (r : Registry LP) :
  config.Enabled settings = false
  ∨ (config.Mode settings = "remote" ∧ config.RemoteURL settings = "") →
  register name settings localFactory mediaType r = r.
Proof.
  unfold register. intros [-> | [-> ->]]; [done|]. by destruct (config.Enabled settings).
Qed.

(** X19. With the Lua providers disabled (or in remote mode without a
    remote URL), [Load] still constructs the adapter of every plugin
    file of the directory, in order, and registers none of them: the
    registry is that of the known providers. *)
Theorem disabled_plugins_are_constructed_not_registered
    (cfg : config.Config) (r : Registry LP) (files : list DirEntry) :
  config.Enabled (config.Lua (config.Providers cfg)) = false
  ∨ (config.Mode (config.Lua (config.Providers cfg)) = "remote"
     ∧ config.RemoteURL (config.Lua (config.Providers cfg)) = "") →
  Load_with (inr files) cfg r
  = (register_known cfg r,
     plugin_path <$> filter (fun file => is_plugin_file file = true) files).
Proof.
  intros Hoff. unfold Load_with.
  change (plugin_path <$> filter (fun file => is_plugin_file file = true) files)
    with ([] ++ (plugin_path <$> filter (fun file => is_plugin_file file = true) files)).
  generalize (@nil string). generalize (register_known cfg r). clear r.
  induction files as [|file files IH]; intros r loaded; simpl.
  - by rewrite app_nil_r.
  - destruct (is_plugin_file file) eqn:Hfile.
    + rewrite register_nothing by done.
      rewrite IH, filter_cons_True by done. by rewrite <- app_assoc.
    + rewrite IH, filter_cons_False; [done | by rewrite Hfile].
Qed.

(** X20. With the Lua providers enabled in local mode, the last plugin
    file that gives a name holds it: after [Load], [Get] answers with
    the adapter of that file, whatever was registered under the name
    before it, a known provider included. *)
Theorem last_plugin_of_a_name_wins
    (cfg : config.Config) (r : Registry LP)
    (before after : list DirEntry) (file : DirEntry) :
  config.Enabled (config.Lua (config.Providers cfg)) = true →
  config.Mode (config.Lua (config.Providers cfg)) ≠ "remote" →
  is_plugin_file file = true →
  let lp := luaprovider_New (plugin_path file) in
  Forall (fun later =>
            is_plugin_file later = true →
            lp_Name (luaprovider_New (plugin_path later)) ≠ lp_Name lp) after →
  Get (lp_Name lp) (Load_with (inr (before ++ file :: after)) cfg r).1
  = (Some (LuaPlugin lp), None).
Proof.
  intros Henabled Hlocal Hfile lp Hafter. subst lp.
  unfold Get, Load_with. by rewrite Load_file_last.
Qed.

(** ** [Get] and [List] *)

(** X21. [List] gives the names that [Get] finds, each once: a name is
    listed exactly when [Get] returns a provider for it with a nil
    error, and [Get] fails with "provider not found: " and the name for
    every other name. *)
Theorem List_names_what_Get_finds (r : Registry LP) (name : string) :
  NoDup (List r)
  ∧ (name ∈ List r ↔ ∃ p, Get name r = (Some p, None))
  ∧ (name ∉ List r
     ↔ Get name r = (None, Some (errorString ("provider not found: " +:+ name)))).
Proof.
  unfold List, Get. split; [apply NoDup_fst_map_to_list|].
  assert (name ∈ (map_to_list (providers_ r)).*1 ↔ is_Some (providers_ r !! name))
    as Hlisted.
  { rewrite list_elem_of_fmap. split.
    - intros ([k p] & -> & Hin%elem_of_map_to_list). eauto.
    - intros [p Hp]. exists (name, p). split; [done|]. by apply elem_of_map_to_list. }
  rewrite Hlisted. destruct (providers_ r !! name) as [p|]; split; split.
  - eauto.
  - eauto.
  - intros Hnot. destruct Hnot. eauto.
  - discriminate.
  - by intros [? ?].
  - by intros [? ?].
  - done.
  - intros _ [? ?]. discriminate.
Qed.

End RegistryMore.

(** * The directories of the configuration *)

Section DirectoryFacts.
Context {F : Type} `{!directories.System F}.

Import directories.

Lemma InitializeDirs_loop_made dirs rest (fs fs1 : F) :
  made dirs fs fs1 →
  InitializeDirs_loop (dirs ++ rest) fs = InitializeDirs_loop rest fs1.
Proof.
  induction 1 as [| dir dirs fs fs1 fs' Hdir _ IH]; [done|].
  simpl. by rewrite Hdir.
Qed.

Lemma InitializeDirs_loop_result dirs (fs : F) :
  match InitializeDirs_loop dirs fs with
  | (None, fs') => made dirs fs fs'
  | (Some e, fs') =>
      ∃ before dir after err fs1,
        dirs = before ++ dir :: after
        ∧ made before fs fs1
        ∧ MkdirAll dir fs1 = (Some err, fs')
        ∧ e = wrapError ("failed to create directory " +:+ dir +:+ ": ") err
  end.
Proof.
  revert fs. induction dirs as [|dir dirs IH]; intros fs; simpl; [constructor|].
  destruct (MkdirAll dir fs) as [[err|] fs1] eqn:Hdir.
  - by exists [], dir, dirs, err, fs; repeat split; [constructor|..].
  - specialize (IH fs1). destruct (InitializeDirs_loop dirs fs1) as [[e|] fs'].
    + destruct IH as (before & dir' & after & err & fs2 & -> & Hmade & Hfail & ->).
      exists (dir :: before), dir', after, err, fs2.
      repeat split; [by econstructor | done].
    + by econstructor.
Qed.

(** X24. [InitializeDirs] creates the directory of [getConfigDir] and
    the [greg] directories under those of [getStateDir], [getDataDir],
    [getCacheDir] and [getVideosDir], in this order, and stops at the
    first one that cannot be created: it returns nil exactly when the
    five were made, and otherwise an error that names the directory and
    wraps the error of [os.MkdirAll], the directories before it having
    been made and none after it tried. *)
Theorem InitializeDirs_stops_at_the_first_failure (fs fs' : F) :
  let dirs :=
    [ getConfigDir;
      Join [getStateDir; "greg"];
      Join [getDataDir; "greg"];
      Join [getCacheDir; "greg"];
      Join [getVideosDir; "greg"] ] in
  (InitializeDirs fs = (None, fs') ↔ made dirs fs fs')
  ∧ ∀ e,
      InitializeDirs fs = (Some e, fs')
      ↔ ∃ before dir after err fs1,
          dirs = before ++ dir :: after
          ∧ made before fs fs1
          ∧ MkdirAll dir fs1 = (Some err, fs')
          ∧ e = wrapError ("failed to create directory " +:+ dir +:+ ": ") err.
Proof.
  unfold InitializeDirs, InitializeDirs_dirs.
  generalize [ getConfigDir; Join [getStateDir; "greg"]; Join [getDataDir; "greg"];
               Join [getCacheDir; "greg"]; Join [getVideosDir; "greg"] ].
  intros dirs. cbv zeta. split; [split|split].
  - intros Hrun. pose proof (InitializeDirs_loop_result dirs fs) as Hresult.
    by rewrite Hrun in Hresult.
  - intros Hmade. rewrite <- (app_nil_r dirs).
    by rewrite (InitializeDirs_loop_made _ _ _ _ Hmade).
  - intros Hrun. pose proof (InitializeDirs_loop_result dirs fs) as Hresult.
    by rewrite Hrun in Hresult.
  - intros (before & dir & after & err & fs1 & -> & Hmade & Hfail & ->).
    rewrite (InitializeDirs_loop_made _ _ _ _ Hmade). simpl. by rewrite Hfail.
Qed.

End DirectoryFacts.

(** * The further properties on the test site and on the directory *)

Section OnTheSiteAgain.

Import types sflix testdata fixtures.


Lemma GetEpisodes_lists_the_season_on_the_site :
  let listed := (GetEpisodes ctx "tv/the-show-39444|1" (fresh site)).2 in
  let '(mediaID, seasonNum) := GetEpisodes_target "tv/the-show-39444|1" in
  ∃ info,
    infoCache (self listed) !! mediaID = Some info
    ∧ elems show_first_season
      = match elems (MovieInfo.Episodes info) with
        | [] =>
            if seasonNum =? 1
            then [providers.Episode.mk (MovieInfo.ID info) 1 (MovieInfo.Title info) 1]
            else []
        | listed =>
            listed_episode <$> filter (fun ep => season_of ep = seasonNum) listed
        end.
Proof.
  intros listed.
  apply (GetEpisodes_lists_the_season ctx "tv/the-show-39444|1" (fresh site) listed
           show_first_season).
  reflexivity.
Defined.

Lemma listed_episode_id_round_trip_on_the_site :
  let ep := Episode.mk "101" 1 1 "Pilot" the_show in
  split_episodeID (providers.Episode.ID (listed_episode ep)) = ("101", the_show)
  ∧ GetServers (W := World) (providers.Episode.ID (listed_episode ep))
    = FetchEpisodeServersWithMediaID "101" the_show
  ∧ ∀ st : State World,
      GetSources (providers.Episode.ID (listed_episode ep)) st
      = (let* '(sources, err) := FetchEpisodeSourcesWithMediaID "101" the_show in
         ret (iface_VideoSources sources, err)) st.
Proof.
  intros ep. apply (listed_episode_id_round_trip (W := World) ep); reflexivity.
Defined.

Lemma split_episodeID_one_separator_on_the_site :
  split_episodeID "101|tv|the-show" = ("101|tv|the-show", "")
  ∧ GetServers (W := World) "101|tv|the-show"
    = FetchEpisodeServersWithMediaID "101|tv|the-show" ""
  ∧ ∀ st : State World,
      GetSources "101|tv|the-show" st
      = (let* '(sources, err) := FetchEpisodeSourcesWithMediaID "101|tv|the-show" "" in
         ret (iface_VideoSources sources, err)) st.
Proof.
  apply (split_episodeID_one_separator (W := World) "101|tv|the-show"). discriminate.
Defined.

Lemma GetMovieEpisodeID_round_trip_on_the_site :
  let found := (GetMovieEpisodeID ctx the_show (fresh site)).2 in
  ∃ info ep,
    infoCache (self found) !! the_show = Some info
    ∧ head (elems (MovieInfo.Episodes info)) = Some ep
    ∧ (Contains (Episode.ID ep) "|" = false →
       Contains (Episode.URL ep) "|" = false →
       split_episodeID "101|tv/the-show-39444" = (Episode.ID ep, Episode.URL ep)).
Proof.
  intros found.
  apply (GetMovieEpisodeID_round_trip ctx the_show "101|tv/the-show-39444"
           (fresh site) found).
  reflexivity.
Defined.

Lemma GetInfo_succeeds_once_the_page_parses_on_the_site :
  let base := BaseURL (self (fresh site)) in
  let mediaType := (GetInfo_first_URL base the_show).1 in
  let infoURL := (GetInfo_first_URL base the_show).2 in
  ∃ info st',
    GetInfo the_show (fresh site) = (Returned (iface_MovieInfo (Some info), None), st')
    ∧ MovieInfo.ID info
      = (if Contains the_show "/" then the_show else mediaType +:+ "/" +:+ the_show)
    ∧ MovieInfo.Type_ info = mediaType
    ∧ MovieInfo.URL info = infoURL
    ∧ MovieInfo.Title info
      = TrimSpace (Text (Find show_page
                              "h2.heading-name"))
    ∧ infoCache (self st') !! the_show = Some info.
Proof.
  apply (GetInfo_succeeds_once_the_page_parses the_show (fresh site)
           (http.mkResponse 200 (inr "page of the show")) site
           show_page);
    reflexivity.
Defined.

Lemma GetInfo_falls_back_to_the_show_URL_on_the_site :
  let base := BaseURL (self (fresh site)) in
  let firstURL := (GetInfo_first_URL base bare_show).2 in
  let showURL := base +:+ "/tv/" +:+ bare_show in
  ∃ info st',
    GetInfo bare_show (fresh site) = (Returned (iface_MovieInfo (Some info), None), st')
    ∧ MovieInfo.ID info = (if Contains bare_show "/" then bare_show else "tv/" +:+ bare_show)
    ∧ MovieInfo.Type_ info = "tv"
    ∧ MovieInfo.URL info = showURL
    ∧ infoCache (self st') !! bare_show = Some info
    ∧ ∃ more,
        trace st'
        = trace (fresh site)
          ++ EvDo (browser_headers base (http.mkRequest firstURL []))
             :: EvDo (browser_headers base (http.mkRequest showURL [])) :: more.
Proof.
  apply (GetInfo_falls_back_to_the_show_URL bare_show (fresh site) (inl refused) site site
           (http.mkResponse 200 (inr "page of the show"))
           show_page);
    reflexivity || exact I.
Defined.

Lemma no_source_is_an_error_for_the_stream_only_on_the_site :
  let discovered := (FetchEpisodeServersWithMediaID "103" the_show (fresh site)).2 in
  let after_first :=
    (extractSourcesFromServer (EpisodeServer.mk "upcloud" "e1") discovered).2 in
  let after_second :=
    (extractSourcesFromServer (EpisodeServer.mk "vidcloud" "e2") after_first).2 in
  GetStreamURL ctx "103|tv/the-show-39444" "720p" (fresh site)
  = (Returned (None, Some (errorString "no sources found")), after_second)
  ∧ GetAvailableQualities ctx "103|tv/the-show-39444" (fresh site)
    = (Returned (nil_slice, None), after_second).
Proof.
  intros discovered after_first after_second.
  apply (no_source_is_an_error_for_the_stream_only ctx "103|tv/the-show-39444" "103"
           the_show "720p" (fresh site) discovered after_second
           (mk_slice [EpisodeServer.mk "upcloud" "e1"; EpisodeServer.mk "vidcloud" "e2"])).
  - reflexivity.
  - reflexivity.
  - apply (all_empty_cons (EpisodeServer.mk "upcloud" "e1")
             [EpisodeServer.mk "vidcloud" "e2"] discovered
             empty_VideoSources after_first); [reflexivity | reflexivity |].
    apply (all_empty_cons (EpisodeServer.mk "vidcloud" "e2") [] after_first
             (VideoSources.mk nil_slice nil_slice) after_second);
      [reflexivity | reflexivity | apply all_empty_nil].
Defined.

Lemma GetStreamURL_agrees_with_GetAvailableQualities_on_the_site :
  let id := "101|tv/the-show-39444" in
  let resolved := (GetAvailableQualities ctx id (fresh site)).2 in
  let qualities : slice providers.Quality := mk_slice ["720p"; "480p"] in
  (elems qualities = []
   ∧ GetStreamURL ctx id "480P" (fresh site)
     = (Returned (None, Some (errorString "no sources found")), resolved))
  ∨ ∃ v src,
      GetSources id (fresh site) = (Returned (iface_VideoSources (Some v), None), resolved)
      ∧ src ∈ elems (VideoSources.Sources v)
      ∧ GetStreamURL ctx id "480P" (fresh site)
        = (Returned (Some (stream_of src (VideoSources.Subtitles v)), None), resolved)
      ∧ providers.StreamURL.Quality (stream_of src (VideoSources.Subtitles v))
        ∈ elems qualities
      ∧ providers.StreamURL.Headers (stream_of src (VideoSources.Subtitles v))
        !! "Referer"
        = Some (providers.StreamURL.Referer (stream_of src (VideoSources.Subtitles v))).
Proof.
  intros id resolved qualities.
  apply (GetStreamURL_agrees_with_GetAvailableQualities ctx id "480P" (fresh site)
           resolved qualities).
  reflexivity.
Defined.

Lemma discovery_reads_the_media_id_for_the_endpoint_only_on_the_site :
  let st := fresh site in
  let st' := (FetchEpisodeServersWithMediaID "101" the_show st).2 in
  let servers := mk_slice [upcloud; vidcloud; akcloud] in
  let base := BaseURL (self st) in
  let endpoint :=
    if Contains the_show "movie" then base +:+ "/ajax/episode/list/" +:+ "101"
    else base +:+ "/ajax/episode/servers/" +:+ "101" in
  trace st' = trace st ++ [EvDo (ajax_headers base (http.mkRequest endpoint []))]
  ∧ (∃ resp body doc,
       Client_Do (ajax_headers base (http.mkRequest endpoint [])) (world st)
       = (inr resp, world st')
       ∧ http.Body resp = inr body
       ∧ NewDocumentFromReader body = inr doc
       ∧ servers = mk_slice (omap listed_server (Each (Find doc ".ulclear > li"))))
  ∧ ∀ mediaID',
      Contains mediaID' "movie" = Contains the_show "movie" →
      FetchEpisodeServersWithMediaID "101" mediaID' st = (Returned (servers, None), st').
Proof.
  intros st st' servers.
  apply (discovery_reads_the_media_id_for_the_endpoint_only "101" the_show st st' servers).
  reflexivity.
Defined.

Lemma movie_page_leads_to_the_movie_endpoint_on_the_site :
  let st := fresh movie_site in
  let base := BaseURL (self st) in
  let infoURL := base +:+ "/" +:+ the_movie in
  let dataID := page_data_id show_page in
  ∃ st',
    GetMovieEpisodeID ctx the_movie st = (Returned (dataID +:+ "|" +:+ the_movie, None), st')
    ∧ trace st' = trace st ++ [EvDo (browser_headers base (http.mkRequest infoURL []))]
    ∧ GetServers (W := World) (dataID +:+ "|" +:+ the_movie)
      = FetchEpisodeServersWithMediaID dataID the_movie
    ∧ ∀ st2 : State World,
        let endpoint := BaseURL (self st2) +:+ "/ajax/episode/list/" +:+ dataID in
        NewRequest_err endpoint = None →
        trace (GetServers (dataID +:+ "|" +:+ the_movie) st2).2
        = trace st2
          ++ [EvDo (ajax_headers (BaseURL (self st2)) (http.mkRequest endpoint []))].
Proof.
  apply (movie_page_leads_to_the_movie_endpoint ctx the_movie (fresh movie_site)
           (http.mkResponse 200 (inr "page of the show")) movie_site
           show_page);
    reflexivity || discriminate.
Defined.

Lemma Search_sends_at_most_one_request_on_the_site :
  let st := fresh site in
  let base := BaseURL (self st) in
  let searchQuery := ReplaceAll "the show" " " "-" in
  let searchURL := base +:+ "/search/" +:+ searchQuery in
  match NewRequest_err searchURL with
  | None =>
      trace (Search ctx "the show" st).2
      = trace st ++ [EvDo (browser_headers base (http.mkRequest searchURL []))]
  | Some err =>
      Search ctx "the show" st
      = (Returned (nil_slice, Some (wrapError "failed to create request: " err)), st)
  end
  ∧ String.list_ascii_of_string searchQuery
    = (fun c => if Ascii.eqb c " " then "-"%char else c)
      <$> String.list_ascii_of_string "the show"
  ∧ Contains searchQuery " " = false.
Proof.
  apply (Search_sends_at_most_one_request ctx "the show" (fresh site)); reflexivity.
Defined.

(** A query with a control byte: no request is sent. *)
Example Search_with_a_control_byte :
  Search ctx (String "009" "") (fresh site)
  = (Returned (nil_slice,
               Some (wrapError "failed to create request: "
                       (errorString "net/url: invalid control character in URL"))),
     fresh site).
Proof. reflexivity. Qed.

Lemma Search_results_open_as_listed_when_their_page_answers_on_the_site :
  Forall
    (fun m =>
       (providers.Media.Type_ m = providers.MediaTypeTV
        ∨ providers.Media.Type_ m = providers.MediaTypeMovie)
       ∧ (∀ base,
            (GetInfo_first_URL base (providers.Media.ID m)).1
            = (match providers.Media.Type_ m with
               | providers.MediaTypeTV => "tv"
               | _ => "movie"
               end))
       ∧ ∀ (opened : State World) resp w1 doc,
           let base := BaseURL (self opened) in
           let firstURL := (GetInfo_first_URL base (providers.Media.ID m)).2 in
           infoCache (self opened) !! providers.Media.ID m = None →
           NewRequest_err firstURL = None →
           Client_Do (browser_headers base (http.mkRequest firstURL [])) (world opened)
           = (inr resp, w1) →
           http.StatusCode resp = http.StatusOK →
           document_of (http.Body resp) = inr doc →
           ∃ details opened',
             GetMediaDetails ctx (providers.Media.ID m) opened
             = (Returned (Some details, None), opened')
             ∧ providers.Media.Type_ (providers.MediaDetails.Media details)
               = providers.Media.Type_ m)
    (elems show_results).
Proof.
  apply (Search_results_open_as_listed_when_their_page_answers ctx "the show" (fresh site)
           (Search ctx "the show" (fresh site)).2 show_results); reflexivity.
Defined.

(** The show of the results opens as a show; a movie whose page
    answers under [/tv/] only opens as a show as well. *)
Example listed_show_opens_as_a_show :
  (GetMediaDetails ctx the_show (Search ctx "the show" (fresh site)).2).1
  = Returned (Some show_details, None).
Proof. reflexivity. Qed.

Example listed_movie_may_open_as_a_show :
  (GetInfo_first_URL "https://sflix.ps" the_movie).1 = "movie"
  ∧ ∃ details,
      (GetMediaDetails ctx the_movie (fresh movie_under_tv)).1
      = Returned (Some details, None)
      ∧ providers.Media.Type_ (providers.MediaDetails.Media details)
        = providers.MediaTypeTV.
Proof. split; [reflexivity|]. eexists. split; reflexivity. Qed.

Lemma GetInfo_lastSeason_is_the_greatest_on_the_site :
  let '(lastSeason, total) := GetInfo_lastSeason show_episodes in
  0 <= lastSeason
  ∧ Forall (fun ep => Episode.Season ep <= lastSeason) show_episodes
  ∧ (lastSeason = 0 ∨ ∃ ep, ep ∈ show_episodes ∧ Episode.Season ep = lastSeason)
  ∧ total
    = Z.of_nat (length (filter (fun ep => Episode.Season ep = lastSeason) show_episodes)).
Proof. apply (GetInfo_lastSeason_is_the_greatest show_episodes). reflexivity. Defined.

Lemma browsing_lists_every_episode_once_on_the_site :
  let st' := (GetSeasons ctx the_show (fresh site)).2 in
  ∃ info,
    infoCache (self st') !! the_show = Some info
    ∧ Forall
        (fun s =>
           ∃ episodes,
             GetEpisodes ctx (providers.Season.ID s) st' = (Returned (episodes, None), st')
             ∧ elems episodes = season_listing info (providers.Season.Number s))
        (elems show_seasons)
    ∧ concat ((fun s => season_listing info (providers.Season.Number s))
                <$> elems show_seasons)
      ≡ₚ match elems (MovieInfo.Episodes info) with
         | [] => [providers.Episode.mk (MovieInfo.ID info) 1 (MovieInfo.Title info) 1]
         | listed => listed_episode <$> listed
         end.
Proof.
  intros st'.
  apply (browsing_lists_every_episode_once ctx the_show (fresh site) st' show_seasons).
  - reflexivity.
  - intros id info Hhit. simpl in Hhit. by rewrite lookup_empty in Hhit.
  - reflexivity.
Defined.


Lemma resolution_panics_only_after_a_nil_extraction_on_the_site :
  let st' :=
    (GetStreamURL ctx "101|tv/the-show-39444" "720p" (fresh site_with_a_nil_extraction)).2 in
  nil_dereference = nil_dereference ∧ after_nil_extraction st'.
Proof.
  intros st'.
  apply (resolution_panics_only_after_a_nil_extraction ctx "101|tv/the-show-39444" "720p"
           (fresh site_with_a_nil_extraction) st' nil_dereference).
  right. left. reflexivity.
Defined.

End OnTheSiteAgain.

Section OnTheDirectoryAgain.

Import registry testdata fixtures.

Lemma remote_URL_names_the_provider_on_the_directory :
  let registered :=
    register (LP := string) "sflix" remote_settings
      (Some (fun _ => LocalProvider "providers/movies/sflix")) "movies" New in
  if String.eqb (config.RemoteURL remote_settings) "" then registered = New
  else
    ∃ url,
      Get "sflix" registered = (Some (RemoteProvider "sflix" url), None)
      ∧ Contains url ("/" +:+ "sflix") = true
      ∧ url = (if Contains (config.RemoteURL remote_settings) ("/" +:+ "sflix")
               then config.RemoteURL remote_settings
               else TrimRight_byte (config.RemoteURL remote_settings) "/"
                    +:+ "/" +:+ "movies" +:+ "/" +:+ "sflix").
Proof.
  apply (remote_URL_names_the_provider (LP := string) "sflix" "movies" remote_settings
           (Some (fun _ => LocalProvider "providers/movies/sflix")) New); reflexivity.
Defined.

Lemma Load_never_removes_on_the_directory :
  let H := host (inr listing) in
  ∃ p', Get "sflix" (Load lua_off (register_known all_local New)).1 = (Some p', None).
Proof.
  intros H.
  apply (Load_never_removes lua_off (register_known all_local New) "sflix"
           (LocalProvider "providers/movies/sflix")).
  reflexivity.
Defined.

Lemma disabled_plugins_are_constructed_not_registered_on_the_directory :
  let H := host (inr listing) in
  Load_with (inr listing) lua_off New
  = (register_known lua_off New,
     plugin_path <$> filter (fun file => is_plugin_file file = true) listing).
Proof.
  intros H.
  apply (disabled_plugins_are_constructed_not_registered lua_off New listing).
  left. reflexivity.
Defined.

Lemma last_plugin_of_a_name_wins_on_the_directory :
  let H := crowded_host (inr crowded) in
  let lp := luaprovider_New (plugin_path other_lua) in
  Get "sflix" (register_known all_local (@New string))
  = (Some (LocalProvider "providers/movies/sflix"), None)
  ∧ lp_Name (luaprovider_New (plugin_path mine_lua)) = lp_Name lp
  ∧ Get (lp_Name lp)
        (Load_with
           (inr ([mine_lua; mkDirEntry "notes.txt" false]
                 ++ other_lua :: [example_lua; mkDirEntry "old.lua" true]))
           all_local New).1
    = (Some (LuaPlugin lp), None).
Proof.
  intros H lp. split; [reflexivity|]. split; [reflexivity|].
  apply (last_plugin_of_a_name_wins all_local New
           [mine_lua; mkDirEntry "notes.txt" false]
           [example_lua; mkDirEntry "old.lua" true] other_lua).
  - reflexivity.
  - discriminate.
  - reflexivity.
  - repeat constructor; discriminate.
Defined.

End OnTheDirectoryAgain.
